(** * Voice-call session and human-agent handoff signalling

    A shallow embedding of the browser-side session code of the
    repository:

    - the customer dashboard script (the JavaScript that follows the
      deployment script in [deploy/ec2-setup.sh]): [startVoiceCall],
      [initVoiceCall] and its socket handlers, [initSpeechRecognition],
      [endVoiceCall], [cleanupVoiceCall], [startWebRTCCall],
      [endWebRTCCall], [startTransferSpeechRecognition] and the two
      transcript writers;
    - the stand-alone voice page [voice_dashboard/static/voice.js]:
      [endCall], the room name of [handleCallTransfer], the transcript,
      [sendUserMessage], [recognition.onresult], the socket handlers
      of [initializeSocket], [handleCallEnded] and [formatDuration];
    - of the rest of the customer dashboard script: the feedback modal
      ([showFeedbackModal], [updateStars], [submitFeedback] and the
      click handlers of the stars and tags), the chat ([sendMessage],
      [addChatMessage] and the typing indicator) and [formatDuration].

    The browser is single threaded: every handler runs to its next
    [await] without interruption.  A handler that awaits a promise is
    split at the [await]; the rest of the handler is kept as a pending
    task in the state and resumed by a settlement event.  Objects that
    the script reaches through mutable globals (sockets, peer
    connections, media streams, the candidate queue array, interval
    timers) live in stores indexed by creation order, the globals hold
    indices.

    Left out, because nothing of the session depends on it: styling and
    avatar animation, audio playback, the text of the call timer, the
    [onerror] and [onend] handlers of the recognizers (they only restart
    listening), the Jitsi window of the voice page, and the rest of
    the dashboard (login, scheduling, tickets, logs).
    Elements of the static page that the script looks up by id or
    selector are taken to be there.  Text that the script hands to
    [innerHTML] is kept as the string handed over; what the HTML parser
    shows of it is said for plain text in the chat only. *)

From Stdlib Require Import ZArith NArith Ascii String.
From Stdlib Require Import Decimal DecimalString DecimalZ DecimalPos.
From stdpp Require Import base tactics option list numbers.

Local Open Scope nat_scope.

(** ** JavaScript strings *)

(** A JavaScript string is a sequence of UTF-16 code units. *)
Abbreviation jsstring := (list N).

Module JS.

(** Code units of an ASCII literal of the source. *)
Definition lit (s : string) : jsstring :=
  map N_of_ascii (list_ascii_of_string s).

(** [WhiteSpace] and [LineTerminator] code points of ECMAScript, the
    ones [String.prototype.trim] removes. *)
Definition isWhiteSpace (c : N) : bool :=
  ((9 <=? c) && (c <=? 13) || (c =? 32) || (c =? 160) || (c =? 5760)
   || (8192 <=? c) && (c <=? 8202) || (c =? 8232) || (c =? 8233)
   || (c =? 8239) || (c =? 8287) || (c =? 12288) || (c =? 65279))%N.

Fixpoint trimStart (s : jsstring) : jsstring :=
  match s with
  | c :: r => if isWhiteSpace c then trimStart r else s
  | [] => []
  end.

Definition trimEnd (s : jsstring) : jsstring := rev (trimStart (rev s)).

Definition trim (s : jsstring) : jsstring := trimEnd (trimStart s).

(** Truthiness of a string value: the empty string is falsy. *)
Definition truthy (s : jsstring) : bool :=
  match s with [] => false | _ :: _ => true end.

(** A property that may be [undefined]: [None]. *)
Definition truthy_opt (v : option jsstring) : bool :=
  match v with Some s => truthy s | None => false end.

(** Conversion to string inside a template literal. *)
Definition toStr (v : option jsstring) : jsstring :=
  match v with Some s => s | None => lit "undefined" end.

(** [a || b] on strings. *)
Definition or_else (v : option jsstring) (d : jsstring) : jsstring :=
  match v with
  | Some s => if truthy s then s else d
  | None => d
  end.

(** Decimal rendering of an integral number, as [String(n)] and
    template literals do for magnitudes below 10^21. *)
Definition ofZ (n : Z) : jsstring := lit (NilZero.string_of_int (Z.to_int n)).

(** [s.padStart(n, '0')] for a one code unit filler. *)
Definition padStart (n : nat) (fill : N) (s : jsstring) : jsstring :=
  replicate (n - length s) fill ++ s.

End JS.

(** Literals and string functions stay folded during simplification. *)
Arguments JS.lit _ : simpl never.
Arguments JS.trim _ : simpl never.
Arguments JS.ofZ _ : simpl never.

(** ** Data of the customer dashboard script *)

Module Dashboard.

(** An ICE candidate and a remote session description are opaque
    payloads of the signalling channel. *)
Inductive Candidate := ice (payload : N).

Inductive SDP :=
| LocalOffer (pc : nat)      (* what [createOffer] of that connection returns *)
| RemoteAnswer (tok : N).    (* [data.answer] of a [webrtc_answer] event *)

Inductive ConnState :=
| cs_new | cs_connecting | cs_connected | cs_disconnected | cs_failed | cs_closed.

Inductive ToastType := info | success | warning | error.

Record Toast := mkToast { toast_message : jsstring; toast_type : ToastType }.

(** One child of a transcript element: the speaker tag and the text that
    the writer puts into its markup. *)
Record Entry := mkEntry { speaker : jsstring; text : jsstring }.

(** The socket object made by [io(...)]. *)
Record Socket := mkSocket {
  connected : bool;          (* [socket.connected] *)
  disconnected_by_us : bool  (* [socket.disconnect()] was called *)
}.

(** An [RTCPeerConnection], with the arguments of the [startWebRTCCall]
    invocation that made it: its event handlers close over them. *)
Record PeerConnection := mkPC {
  pc_agentSocketId : option jsstring;
  pc_sessionId : option jsstring;
  pc_tracks : list nat;              (* streams whose tracks were added *)
  localDescription : option SDP;
  remoteDescription : option N;
  connectionState : ConnState;
  candidates : list Candidate;       (* [addIceCandidate] calls, in order *)
  pc_closed : bool
}.

(** A [MediaStream] returned by [getUserMedia]. *)
Record MediaStream := mkStream { tracks_stopped : bool }.

(** The recognition object of the AI phase; [finalTranscript] is the
    variable its [onresult] closure shares between events. *)
Record VoiceRecog := mkVR { finalTranscript : jsstring; vr_listening : bool }.

(** The recognition object of the human phase, with the arguments of
    [startTransferSpeechRecognition]. *)
Record TransferRecog := mkTR {
  tr_sessionId : option jsstring;
  tr_agentSocketId : option jsstring;
  tr_listening : bool
}.

(** What the script sends with [voiceSocket.emit]. *)
Inductive Emission :=
| start_call (name phone : jsstring)
| user_message (text : jsstring)
| agent_transfer_room (room_url room_name : jsstring)
    (session_id reason : option jsstring)
| webrtc_offer (session_id : option jsstring) (offer : SDP)
    (target_sid : option jsstring)
| webrtc_ice_candidate (session_id : option jsstring) (candidate : Candidate)
    (target_sid : option jsstring)
| webrtc_hangup (session_id target_sid : option jsstring)
| call_transcript (session_id : option jsstring) (text speaker : jsstring)
    (target_sid : option jsstring)
| end_call.

(** The rest of an async function after an [await]. *)
Inductive Task :=
| after_startVoiceCall_getUserMedia
| after_startWebRTCCall_getUserMedia (agentSocketId sessionId : option jsstring)
| after_createOffer (pc : nat) (agentSocketId sessionId : option jsstring)
| after_setLocalDescription (pc : nat) (offer : SDP)
    (agentSocketId sessionId : option jsstring)
| after_setRemoteDescription (pc : nat) (answer : N)
| after_queued_addIceCandidate (arr : nat) (next : nat).

(** How a promise settles. *)
Inductive Settlement := Fulfilled | Rejected (message : jsstring).

(** Module level [let] variables. *)
Record Globals := mkGlobals {
  voiceSocket : option nat;
  voiceCallActive : bool;
  voiceTimerInterval : option nat;
  voiceRecognition : option nat;
  voiceIsMuted : bool;
  voiceUserName : jsstring;
  voiceUserPhone : jsstring
}.

(** Properties the script keeps on [window]. *)
Record Window := mkWindow {
  peerConnection : option nat;
  localStream : option nat;
  pendingIceCandidates : option nat;
  agentSocketId : option jsstring;
  transferSessionId : option jsstring;
  transferReason : option jsstring;
  transferRecognition : option nat
}.

(** The part of the page the handlers write to. *)
Record Dom := mkDom {
  voice_transcript : list Entry;                (* children of #voice-transcript *)
  transfer_transcript : option (list Entry);    (* #transfer-transcript, when shown *)
  form_hidden : bool;                           (* #voice-call-form has class hidden *)
  active_hidden : bool;                         (* #voice-call-active has class hidden *)
  mute_muted : bool;                            (* #voice-mute has class muted *)
  agent_status : jsstring;                      (* .agent-details .agent-status *)
  toasts : list Toast                           (* [showToast] calls, in order *)
}.

(** Objects, pending continuations and what went out on the wire. *)
Record Runtime := mkRuntime {
  sockets : list Socket;
  pcs : list PeerConnection;
  streams : list MediaStream;
  arrays : list (list Candidate);
  vrecogs : list VoiceRecog;
  trecogs : list TransferRecog;
  tasks : list (option Task);
  intervals : list bool;           (* timers of [setInterval]: still armed? *)
  removal_timers : nat;            (* pending 3 s timeouts of [endWebRTCCall] *)
  emitted : list (nat * Emission)  (* socket and event, in order *)
}.

(** What the browser offers. *)
Record Browser := mkBrowser {
  has_mediaDevices : bool;       (* [navigator.mediaDevices.getUserMedia] exists *)
  has_SpeechRecognition : bool   (* [window.SpeechRecognition || webkit...] *)
}.

Record State := mkState {
  globals : Globals;
  window : Window;
  dom : Dom;
  runtime : Runtime;
  browser : Browser
}.

Definition upd_globals (f : Globals -> Globals) (s : State) : State :=
  {| globals := f (globals s); window := window s; dom := dom s;
     runtime := runtime s; browser := browser s |}.
Definition upd_window (f : Window -> Window) (s : State) : State :=
  {| globals := globals s; window := f (window s); dom := dom s;
     runtime := runtime s; browser := browser s |}.
Definition upd_dom (f : Dom -> Dom) (s : State) : State :=
  {| globals := globals s; window := window s; dom := f (dom s);
     runtime := runtime s; browser := browser s |}.
Definition upd_runtime (f : Runtime -> Runtime) (s : State) : State :=
  {| globals := globals s; window := window s; dom := dom s;
     runtime := f (runtime s); browser := browser s |}.

(** Assignment to one variable, property or store. *)
Definition set_voiceSocket (v : option nat) : State -> State :=
  upd_globals (fun r =>
    {| voiceSocket := v; voiceCallActive := voiceCallActive r;
       voiceTimerInterval := voiceTimerInterval r;
       voiceRecognition := voiceRecognition r; voiceIsMuted := voiceIsMuted r;
       voiceUserName := voiceUserName r; voiceUserPhone := voiceUserPhone r |}).
Definition set_voiceCallActive (v : bool) : State -> State :=
  upd_globals (fun r =>
    {| voiceSocket := voiceSocket r; voiceCallActive := v;
       voiceTimerInterval := voiceTimerInterval r;
       voiceRecognition := voiceRecognition r; voiceIsMuted := voiceIsMuted r;
       voiceUserName := voiceUserName r; voiceUserPhone := voiceUserPhone r |}).
Definition set_voiceTimerInterval (v : option nat) : State -> State :=
  upd_globals (fun r =>
    {| voiceSocket := voiceSocket r; voiceCallActive := voiceCallActive r;
       voiceTimerInterval := v; voiceRecognition := voiceRecognition r;
       voiceIsMuted := voiceIsMuted r; voiceUserName := voiceUserName r;
       voiceUserPhone := voiceUserPhone r |}).
Definition set_voiceRecognition (v : option nat) : State -> State :=
  upd_globals (fun r =>
    {| voiceSocket := voiceSocket r; voiceCallActive := voiceCallActive r;
       voiceTimerInterval := voiceTimerInterval r; voiceRecognition := v;
       voiceIsMuted := voiceIsMuted r; voiceUserName := voiceUserName r;
       voiceUserPhone := voiceUserPhone r |}).
Definition set_voiceIsMuted (v : bool) : State -> State :=
  upd_globals (fun r =>
    {| voiceSocket := voiceSocket r; voiceCallActive := voiceCallActive r;
       voiceTimerInterval := voiceTimerInterval r;
       voiceRecognition := voiceRecognition r; voiceIsMuted := v;
       voiceUserName := voiceUserName r; voiceUserPhone := voiceUserPhone r |}).
Definition set_voiceUserName (v : jsstring) : State -> State :=
  upd_globals (fun r =>
    {| voiceSocket := voiceSocket r; voiceCallActive := voiceCallActive r;
       voiceTimerInterval := voiceTimerInterval r;
       voiceRecognition := voiceRecognition r; voiceIsMuted := voiceIsMuted r;
       voiceUserName := v; voiceUserPhone := voiceUserPhone r |}).
Definition set_voiceUserPhone (v : jsstring) : State -> State :=
  upd_globals (fun r =>
    {| voiceSocket := voiceSocket r; voiceCallActive := voiceCallActive r;
       voiceTimerInterval := voiceTimerInterval r;
       voiceRecognition := voiceRecognition r; voiceIsMuted := voiceIsMuted r;
       voiceUserName := voiceUserName r; voiceUserPhone := v |}).
Definition set_peerConnection (v : option nat) : State -> State :=
  upd_window (fun r =>
    {| peerConnection := v; localStream := localStream r;
       pendingIceCandidates := pendingIceCandidates r;
       agentSocketId := agentSocketId r;
       transferSessionId := transferSessionId r;
       transferReason := transferReason r;
       transferRecognition := transferRecognition r |}).
Definition set_localStream (v : option nat) : State -> State :=
  upd_window (fun r =>
    {| peerConnection := peerConnection r; localStream := v;
       pendingIceCandidates := pendingIceCandidates r;
       agentSocketId := agentSocketId r;
       transferSessionId := transferSessionId r;
       transferReason := transferReason r;
       transferRecognition := transferRecognition r |}).
Definition set_pendingIceCandidates (v : option nat) : State -> State :=
  upd_window (fun r =>
    {| peerConnection := peerConnection r; localStream := localStream r;
       pendingIceCandidates := v; agentSocketId := agentSocketId r;
       transferSessionId := transferSessionId r;
       transferReason := transferReason r;
       transferRecognition := transferRecognition r |}).
Definition set_agentSocketId (v : option jsstring) : State -> State :=
  upd_window (fun r =>
    {| peerConnection := peerConnection r; localStream := localStream r;
       pendingIceCandidates := pendingIceCandidates r; agentSocketId := v;
       transferSessionId := transferSessionId r;
       transferReason := transferReason r;
       transferRecognition := transferRecognition r |}).
Definition set_transferSessionId (v : option jsstring) : State -> State :=
  upd_window (fun r =>
    {| peerConnection := peerConnection r; localStream := localStream r;
       pendingIceCandidates := pendingIceCandidates r;
       agentSocketId := agentSocketId r; transferSessionId := v;
       transferReason := transferReason r;
       transferRecognition := transferRecognition r |}).
Definition set_transferReason (v : option jsstring) : State -> State :=
  upd_window (fun r =>
    {| peerConnection := peerConnection r; localStream := localStream r;
       pendingIceCandidates := pendingIceCandidates r;
       agentSocketId := agentSocketId r;
       transferSessionId := transferSessionId r; transferReason := v;
       transferRecognition := transferRecognition r |}).
Definition set_transferRecognition (v : option nat) : State -> State :=
  upd_window (fun r =>
    {| peerConnection := peerConnection r; localStream := localStream r;
       pendingIceCandidates := pendingIceCandidates r;
       agentSocketId := agentSocketId r;
       transferSessionId := transferSessionId r;
       transferReason := transferReason r; transferRecognition := v |}).
Definition set_voice_transcript (v : list Entry) : State -> State :=
  upd_dom (fun r =>
    {| voice_transcript := v; transfer_transcript := transfer_transcript r;
       form_hidden := form_hidden r; active_hidden := active_hidden r;
       mute_muted := mute_muted r; agent_status := agent_status r;
       toasts := toasts r |}).
Definition set_transfer_transcript (v : option (list Entry)) : State -> State :=
  upd_dom (fun r =>
    {| voice_transcript := voice_transcript r; transfer_transcript := v;
       form_hidden := form_hidden r; active_hidden := active_hidden r;
       mute_muted := mute_muted r; agent_status := agent_status r;
       toasts := toasts r |}).
Definition set_form_hidden (v : bool) : State -> State :=
  upd_dom (fun r =>
    {| voice_transcript := voice_transcript r;
       transfer_transcript := transfer_transcript r; form_hidden := v;
       active_hidden := active_hidden r; mute_muted := mute_muted r;
       agent_status := agent_status r; toasts := toasts r |}).
Definition set_active_hidden (v : bool) : State -> State :=
  upd_dom (fun r =>
    {| voice_transcript := voice_transcript r;
       transfer_transcript := transfer_transcript r;
       form_hidden := form_hidden r; active_hidden := v;
       mute_muted := mute_muted r; agent_status := agent_status r;
       toasts := toasts r |}).
Definition set_mute_muted (v : bool) : State -> State :=
  upd_dom (fun r =>
    {| voice_transcript := voice_transcript r;
       transfer_transcript := transfer_transcript r;
       form_hidden := form_hidden r; active_hidden := active_hidden r;
       mute_muted := v; agent_status := agent_status r; toasts := toasts r |}).
Definition set_agent_status (v : jsstring) : State -> State :=
  upd_dom (fun r =>
    {| voice_transcript := voice_transcript r;
       transfer_transcript := transfer_transcript r;
       form_hidden := form_hidden r; active_hidden := active_hidden r;
       mute_muted := mute_muted r; agent_status := v; toasts := toasts r |}).
Definition set_toasts (v : list Toast) : State -> State :=
  upd_dom (fun r =>
    {| voice_transcript := voice_transcript r;
       transfer_transcript := transfer_transcript r;
       form_hidden := form_hidden r; active_hidden := active_hidden r;
       mute_muted := mute_muted r; agent_status := agent_status r; toasts := v |}).
Definition set_sockets (v : list Socket) : State -> State :=
  upd_runtime (fun r =>
    {| sockets := v; pcs := pcs r; streams := streams r; arrays := arrays r;
       vrecogs := vrecogs r; trecogs := trecogs r; tasks := tasks r;
       intervals := intervals r; removal_timers := removal_timers r;
       emitted := emitted r |}).
Definition set_pcs (v : list PeerConnection) : State -> State :=
  upd_runtime (fun r =>
    {| sockets := sockets r; pcs := v; streams := streams r;
       arrays := arrays r; vrecogs := vrecogs r; trecogs := trecogs r;
       tasks := tasks r; intervals := intervals r;
       removal_timers := removal_timers r; emitted := emitted r |}).
Definition set_streams (v : list MediaStream) : State -> State :=
  upd_runtime (fun r =>
    {| sockets := sockets r; pcs := pcs r; streams := v; arrays := arrays r;
       vrecogs := vrecogs r; trecogs := trecogs r; tasks := tasks r;
       intervals := intervals r; removal_timers := removal_timers r;
       emitted := emitted r |}).
Definition set_arrays (v : list (list Candidate)) : State -> State :=
  upd_runtime (fun r =>
    {| sockets := sockets r; pcs := pcs r; streams := streams r; arrays := v;
       vrecogs := vrecogs r; trecogs := trecogs r; tasks := tasks r;
       intervals := intervals r; removal_timers := removal_timers r;
       emitted := emitted r |}).
Definition set_vrecogs (v : list VoiceRecog) : State -> State :=
  upd_runtime (fun r =>
    {| sockets := sockets r; pcs := pcs r; streams := streams r;
       arrays := arrays r; vrecogs := v; trecogs := trecogs r;
       tasks := tasks r; intervals := intervals r;
       removal_timers := removal_timers r; emitted := emitted r |}).
Definition set_trecogs (v : list TransferRecog) : State -> State :=
  upd_runtime (fun r =>
    {| sockets := sockets r; pcs := pcs r; streams := streams r;
       arrays := arrays r; vrecogs := vrecogs r; trecogs := v;
       tasks := tasks r; intervals := intervals r;
       removal_timers := removal_timers r; emitted := emitted r |}).
Definition set_tasks (v : list (option Task)) : State -> State :=
  upd_runtime (fun r =>
    {| sockets := sockets r; pcs := pcs r; streams := streams r;
       arrays := arrays r; vrecogs := vrecogs r; trecogs := trecogs r;
       tasks := v; intervals := intervals r;
       removal_timers := removal_timers r; emitted := emitted r |}).
Definition set_intervals (v : list bool) : State -> State :=
  upd_runtime (fun r =>
    {| sockets := sockets r; pcs := pcs r; streams := streams r;
       arrays := arrays r; vrecogs := vrecogs r; trecogs := trecogs r;
       tasks := tasks r; intervals := v; removal_timers := removal_timers r;
       emitted := emitted r |}).
Definition set_removal_timers (v : nat) : State -> State :=
  upd_runtime (fun r =>
    {| sockets := sockets r; pcs := pcs r; streams := streams r;
       arrays := arrays r; vrecogs := vrecogs r; trecogs := trecogs r;
       tasks := tasks r; intervals := intervals r; removal_timers := v;
       emitted := emitted r |}).
Definition set_emitted (v : list (nat * Emission)) : State -> State :=
  upd_runtime (fun r =>
    {| sockets := sockets r; pcs := pcs r; streams := streams r;
       arrays := arrays r; vrecogs := vrecogs r; trecogs := trecogs r;
       tasks := tasks r; intervals := intervals r;
       removal_timers := removal_timers r; emitted := v |}).

(** ** Handlers as state transformers that may throw *)

(** A handler body either completes or throws; what it wrote before the
    throw stays written. *)
Inductive Completion (A : Type) :=
| Normal (a : A)
| Thrown (message : jsstring).
Arguments Normal {A} a.
Arguments Thrown {A} message.

Definition M (A : Type) : Type := State -> State * Completion A.

#[global] Instance M_ret : MRet M := fun A a s => (s, Normal a).

#[global] Instance M_bind : MBind M := fun A B f m s =>
  match m s with
  | (s', Normal a) => f a s'
  | (s', Thrown e) => (s', Thrown e)
  end.

Definition gets {A} (f : State -> A) : M A := fun s => (s, Normal (f s)).

Definition modify (f : State -> State) : M unit := fun s => (f s, Normal tt).

Definition throw {A} (message : jsstring) : M A := fun s => (s, Thrown message).

(** [try { body } catch (e) { handler(e.message) }] *)
Definition try_catch (body : M unit) (handler : jsstring -> M unit) : M unit :=
  fun s =>
    match body s with
    | (s', Normal a) => (s', Normal a)
    | (s', Thrown e) => handler e s'
    end.

Definition when (b : bool) (m : M unit) : M unit := if b then m else mret tt.

(** The state a handler leaves behind; an exception that reaches the
    event loop is reported on the console and the loop goes on. *)
Definition exec {A} (m : M A) (s : State) : State := fst (m s).

(** A property access on [null] or [undefined]. The wording of the
    message is the engine's. *)
Definition TypeError : jsstring := JS.lit "TypeError".
Arguments TypeError : simpl never.

(** *** Reads *)

Definition the_voiceSocket (s : State) : option nat := voiceSocket (globals s).
Definition the_peerConnection (s : State) : option nat := peerConnection (window s).

(** [voiceSocket && voiceSocket.connected] *)
Definition voiceSocket_connected (s : State) : bool :=
  match voiceSocket (globals s) with
  | Some k =>
      match sockets (runtime s) !! k with
      | Some so => connected so
      | None => false
      end
  | None => false
  end.

(** [window.peerConnection && window.peerConnection.remoteDescription] *)
Definition has_remoteDescription (s : State) : bool :=
  match peerConnection (window s) with
  | Some p =>
      match pcs (runtime s) !! p with
      | Some pc => bool_decide (is_Some (remoteDescription pc))
      | None => false
      end
  | None => false
  end.

(** *** Library calls *)

(** [showToast(message, type)] *)
Definition showToast (message : jsstring) (type : ToastType) : M unit :=
  modify (fun s => set_toasts (toasts (dom s) ++ [mkToast message type]) s).

(** [voiceSocket.emit(event, payload)] *)
Definition emit (e : Emission) : M unit :=
  v ← gets the_voiceSocket;
  match v with
  | Some k => modify (fun s => set_emitted (emitted (runtime s) ++ [(k, e)]) s)
  | None => throw TypeError
  end.

(** Registers the rest of an async function until its promise settles. *)
Definition await (t : Task) : M unit :=
  modify (fun s => set_tasks (tasks (runtime s) ++ [Some t]) s).

(** A connection with one field changed. *)
Definition with_candidates (pc : PeerConnection) (cs : list Candidate)
  : PeerConnection :=
  {| pc_agentSocketId := pc_agentSocketId pc; pc_sessionId := pc_sessionId pc;
     pc_tracks := pc_tracks pc; localDescription := localDescription pc;
     remoteDescription := remoteDescription pc;
     connectionState := connectionState pc;
     candidates := candidates pc ++ cs; pc_closed := pc_closed pc |}.

Definition with_remoteDescription (pc : PeerConnection) (answer : N)
  : PeerConnection :=
  {| pc_agentSocketId := pc_agentSocketId pc; pc_sessionId := pc_sessionId pc;
     pc_tracks := pc_tracks pc; localDescription := localDescription pc;
     remoteDescription := Some answer;
     connectionState := connectionState pc;
     candidates := candidates pc; pc_closed := pc_closed pc |}.

Definition with_localDescription (pc : PeerConnection) (offer : SDP)
  : PeerConnection :=
  {| pc_agentSocketId := pc_agentSocketId pc; pc_sessionId := pc_sessionId pc;
     pc_tracks := pc_tracks pc; localDescription := Some offer;
     remoteDescription := remoteDescription pc;
     connectionState := connectionState pc;
     candidates := candidates pc; pc_closed := pc_closed pc |}.

Definition with_connectionState (pc : PeerConnection) (st : ConnState)
    (closed : bool) : PeerConnection :=
  {| pc_agentSocketId := pc_agentSocketId pc; pc_sessionId := pc_sessionId pc;
     pc_tracks := pc_tracks pc; localDescription := localDescription pc;
     remoteDescription := remoteDescription pc;
     connectionState := st;
     candidates := candidates pc; pc_closed := closed |}.

Definition with_track (pc : PeerConnection) (st : nat) : PeerConnection :=
  {| pc_agentSocketId := pc_agentSocketId pc; pc_sessionId := pc_sessionId pc;
     pc_tracks := pc_tracks pc ++ [st]; localDescription := localDescription pc;
     remoteDescription := remoteDescription pc;
     connectionState := connectionState pc;
     candidates := candidates pc; pc_closed := pc_closed pc |}.

Definition update_pc (p : nat) (f : PeerConnection -> PeerConnection) : M unit :=
  modify (fun s => set_pcs (alter f p (pcs (runtime s))) s).

(** [pc.addIceCandidate(new RTCIceCandidate(c))]: the connection is
    handed the candidate. *)
Definition addIceCandidate (p : nat) (c : Candidate) : M unit :=
  update_pc p (fun pc => with_candidates pc [c]).

(** The effect of a fulfilled [setRemoteDescription] on the connection. *)
Definition apply_remoteDescription (p : nat) (answer : N) : M unit :=
  update_pc p (fun pc => with_remoteDescription pc answer).

(** The effect of a fulfilled [setLocalDescription] on the connection. *)
Definition apply_localDescription (p : nat) (offer : SDP) : M unit :=
  update_pc p (fun pc => with_localDescription pc offer).

(** The browser moves a connection to a new [connectionState]. *)
Definition set_connectionState (p : nat) (st : ConnState) : M unit :=
  update_pc p (fun pc => with_connectionState pc st (pc_closed pc)).

(** [pc.close()] *)
Definition pc_close (p : nat) : M unit :=
  update_pc p (fun pc => with_connectionState pc cs_closed true).

(** [stream.getTracks().forEach(track => pc.addTrack(track, stream))] *)
Definition pc_addTracks (p : nat) (st : nat) : M unit :=
  update_pc p (fun pc => with_track pc st).

(** [stream.getTracks().forEach(track => track.stop())] *)
Definition stop_tracks (st : nat) : M unit :=
  modify (fun s => set_streams (<[st := mkStream true]> (streams (runtime s))) s).

(** The stream a granted [getUserMedia] hands over; its tracks are live. *)
Definition new_stream : M nat :=
  st ← gets (fun s => length (streams (runtime s)));
  modify (fun s => set_streams (streams (runtime s) ++ [mkStream false]) s);;
  mret st.

(** [setInterval(updateVoiceTimer, 1000)]: a new timer, armed until it is
    cleared; the value returned names it and is never [0], so a variable
    that holds it is truthy. Its ticks rewrite the text of [#voice-timer]
    and nothing else. *)
Definition setInterval : M nat :=
  i ← gets (fun s => length (intervals (runtime s)));
  modify (fun s => set_intervals (intervals (runtime s) ++ [true]) s);;
  mret i.

(** [clearInterval(i)] *)
Definition clearInterval (i : nat) : M unit :=
  modify (fun s => set_intervals (<[i := false]> (intervals (runtime s))) s).

(** [socket.connected] as the library maintains it. *)
Definition set_connected (k : nat) (b : bool) : M unit :=
  modify (fun s => set_sockets (alter (fun so =>
    mkSocket b (disconnected_by_us so)) k (sockets (runtime s))) s).

(** [socket.disconnect()]. The library fires the disconnect handler of a
    connected socket from inside this call; [cleanupVoiceCall], the only
    caller, has cleared [voiceCallActive] by then, so that handler run
    does nothing. *)
Definition socket_disconnect (k : nat) : M unit :=
  modify (fun s => set_sockets (alter (fun so => mkSocket false true) k
    (sockets (runtime s))) s).

(** [recognition.start()] and [recognition.stop()], each inside a
    [try] with an empty [catch] in the source. *)
Definition vr_set_listening (r : nat) (b : bool) : M unit :=
  modify (fun s => set_vrecogs (alter (fun v =>
    mkVR (finalTranscript v) b) r (vrecogs (runtime s))) s).

Definition vr_set_finalTranscript (r : nat) (t : jsstring) : M unit :=
  modify (fun s => set_vrecogs (alter (fun v =>
    mkVR t (vr_listening v)) r (vrecogs (runtime s))) s).

Definition tr_set_listening (t : nat) (b : bool) : M unit :=
  modify (fun s => set_trecogs (alter (fun v =>
    mkTR (tr_sessionId v) (tr_agentSocketId v) b) t (trecogs (runtime s))) s).

(** ** The script *)

(** *** Transcripts *)

(** [addVoiceTranscript(speaker, text)]: a new child at the end of
    [#voice-transcript]. *)
Definition addVoiceTranscript (speaker : jsstring) (text : option jsstring)
  : M unit :=
  modify (fun s =>
    set_voice_transcript
      (voice_transcript (dom s) ++ [mkEntry speaker (JS.toStr text)]) s).

(** [showTransferTranscript()] *)
Definition showTransferTranscript : M unit :=
  c ← gets (fun s => transfer_transcript (dom s));
  match c with
  | Some _ => mret tt                                 (* already exists *)
  | None => modify (set_transfer_transcript (Some []))
  end.

(** [addTransferTranscriptEntry(speaker, text)]: a new child at the end
    of [#transfer-transcript], if that element is there. *)
Definition addTransferTranscriptEntry (speaker text : option jsstring)
  : M unit :=
  c ← gets (fun s => transfer_transcript (dom s));
  match c with
  | None => mret tt                                   (* if (!transcript) return *)
  | Some es =>
      modify (set_transfer_transcript
        (Some (es ++ [mkEntry (JS.toStr speaker) (JS.toStr text)])))
  end.

(** *** Speech recognition of the AI phase *)

Record SpeechResult := mkResult {
  transcript : jsstring;   (* [results[i][0].transcript] *)
  isFinal : bool           (* [results[i].isFinal] *)
}.

Record SpeechEvent := mkSpeechEvent {
  resultIndex : nat;
  results : list SpeechResult
}.

(** Body of the [for] loop of [voiceRecognition.onresult], for the
    results from [i] on. The local [interimTranscript] is only ever
    appended to and never read, so it is left out. *)
Fixpoint voice_onresult_loop (r : nat) (rs : list SpeechResult) : M unit :=
  match rs with
  | [] => mret tt
  | res :: rest =>
      (if isFinal res then
         vr_set_finalTranscript r (transcript res);;
         (* Send to server *)
         ok ← gets voiceSocket_connected;
         if ok && JS.truthy (JS.trim (transcript res)) then
           addVoiceTranscript (JS.lit "customer") (Some (JS.trim (transcript res)));;
           emit (user_message (JS.trim (transcript res)));;
           vr_set_finalTranscript r []
         else mret tt
       else mret tt);;
      voice_onresult_loop r rest
  end.

Definition voice_onresult (r : nat) (ev : SpeechEvent) : M unit :=
  voice_onresult_loop r (drop (resultIndex ev) (results ev)).

(** [initSpeechRecognition()] *)
Definition initSpeechRecognition : M unit :=
  sup ← gets (fun s => has_SpeechRecognition (browser s));
  if negb sup then
    showToast (JS.lit "Speech recognition not supported in this browser. Use Chrome for best experience.") warning
  else
    r ← gets (fun s => length (vrecogs (runtime s)));
    modify (fun s => set_vrecogs (vrecogs (runtime s) ++ [mkVR [] false]) s);;
    modify (set_voiceRecognition (Some r));;
    (* Start listening *)
    vr_set_listening r true.

(** *** Speech recognition of the human phase *)

(** Body of the [for] loop of [window.transferRecognition.onresult]. *)
Fixpoint transfer_onresult_loop (sessionId agentSocketId : option jsstring)
    (rs : list SpeechResult) : M unit :=
  match rs with
  | [] => mret tt
  | res :: rest =>
      (if isFinal res then
         let text := JS.trim (transcript res) in
         if JS.truthy text then
           (* Add to local transcript *)
           addTransferTranscriptEntry (Some (JS.lit "customer")) (Some text);;
           (* Send to agent *)
           emit (call_transcript sessionId text (JS.lit "customer") agentSocketId)
         else mret tt
       else mret tt);;
      transfer_onresult_loop sessionId agentSocketId rest
  end.

Definition transfer_onresult (t : TransferRecog) (ev : SpeechEvent) : M unit :=
  transfer_onresult_loop (tr_sessionId t) (tr_agentSocketId t)
    (drop (resultIndex ev) (results ev)).

(** [startTransferSpeechRecognition(sessionId, agentSocketId)] *)
Definition startTransferSpeechRecognition (sessionId agentSocketId : option jsstring)
  : M unit :=
  sup ← gets (fun s => has_SpeechRecognition (browser s));
  if negb sup then mret tt
  else
    t ← gets (fun s => length (trecogs (runtime s)));
    modify (fun s =>
      set_trecogs (trecogs (runtime s) ++ [mkTR sessionId agentSocketId false]) s);;
    modify (set_transferRecognition (Some t));;
    tr_set_listening t true.

(** *** Ending *)

(** [cleanupVoiceCall()]. [window.currentJitsiApi] is never assigned by
    this script, so its branch is dead; the remaining lines reset
    presentation only (video containers, timer text, mute label). *)
Definition cleanupVoiceCall : M unit :=
  modify (set_voiceCallActive false);;
  (* Stop speech recognition *)
  r ← gets (fun s => voiceRecognition (globals s));
  match r with
  | Some r => vr_set_listening r false;; modify (set_voiceRecognition None)
  | None => mret tt
  end;;
  (* Stop timer *)
  t ← gets (fun s => voiceTimerInterval (globals s));
  match t with
  | Some i => clearInterval i;; modify (set_voiceTimerInterval None)
  | None => mret tt
  end;;
  (* Disconnect socket *)
  k ← gets the_voiceSocket;
  match k with
  | Some k => socket_disconnect k;; modify (set_voiceSocket None)
  | None => mret tt
  end;;
  (* Reset UI *)
  modify (set_form_hidden false);;
  modify (set_active_hidden true);;
  modify (set_mute_muted false);;
  modify (set_voiceIsMuted false).

(** [endVoiceCall()] *)
Definition endVoiceCall : M unit :=
  ok ← gets voiceSocket_connected;
  when ok (emit end_call);;
  cleanupVoiceCall.

(** [endWebRTCCall()] *)
Definition endWebRTCCall : M unit :=
  (* Stop local stream *)
  ls ← gets (fun s => localStream (window s));
  match ls with
  | Some st => stop_tracks st;; modify (set_localStream None)
  | None => mret tt
  end;;
  (* Close peer connection *)
  pc ← gets the_peerConnection;
  match pc with
  | Some p => pc_close p;; modify (set_peerConnection None)
  | None => mret tt
  end;;
  (* Stop transcription *)
  tr ← gets (fun s => transferRecognition (window s));
  match tr with
  | Some t => tr_set_listening t false;; modify (set_transferRecognition None)
  | None => mret tt
  end;;
  (* Update UI *)
  modify (set_agent_status (JS.lit "Call ended"));;
  (* Notify server *)
  a ← gets (fun s => agentSocketId (window s));
  sid ← gets (fun s => transferSessionId (window s));
  when (JS.truthy_opt a && JS.truthy_opt sid) (emit (webrtc_hangup sid a));;
  (* Hide transcript container after a delay *)
  modify (fun s => set_removal_timers (S (removal_timers (runtime s))) s).

(** The callback of that [setTimeout]. *)
Definition remove_transfer_transcript : M unit :=
  modify (set_transfer_transcript None).

(** [toggleVoiceMute()] *)
Definition toggleVoiceMute : M unit :=
  m ← gets (fun s => voiceIsMuted (globals s));
  modify (set_voiceIsMuted (negb m));;
  r ← gets (fun s => voiceRecognition (globals s));
  if negb m then
    modify (set_mute_muted true);;
    match r with Some r => vr_set_listening r false | None => mret tt end;;
    showToast (JS.lit "Microphone muted") info
  else
    modify (set_mute_muted false);;
    act ← gets (fun s => voiceCallActive (globals s));
    match r with
    | Some r => when act (vr_set_listening r true)
    | None => mret tt
    end;;
    showToast (JS.lit "Microphone unmuted") info.

(** *** WebRTC call to the agent *)

(** The [catch] of [startWebRTCCall]. *)
Definition webrtc_error (message : jsstring) : M unit :=
  showToast (JS.lit "Error accessing microphone: " ++ message) error.

(** [startWebRTCCall(agentSocketId, sessionId)] up to its first [await]. *)
Definition startWebRTCCall (agentSocketId sessionId : option jsstring) : M unit :=
  (* Check if mediaDevices is available (requires HTTPS or localhost) *)
  md ← gets (fun s => has_mediaDevices (browser s));
  if negb md then
    showToast (JS.lit "Microphone access requires a secure connection (localhost or HTTPS)") error;;
    modify (set_agent_status (JS.lit "Connection error - need HTTPS"))
  else
    (* Get user's microphone *)
    await (after_startWebRTCCall_getUserMedia agentSocketId sessionId).

(** ... from the granted microphone to [await createOffer()]. *)
Definition startWebRTCCall_got_stream (agentSocketId sessionId : option jsstring)
  : M unit :=
  st ← new_stream;
  modify (set_localStream (Some st));;
  (* Create peer connection with STUN servers *)
  p ← gets (fun s => length (pcs (runtime s)));
  modify (fun s => set_pcs (pcs (runtime s) ++
    [mkPC agentSocketId sessionId [] None None cs_new [] false]) s);;
  modify (set_peerConnection (Some p));;
  (* Add local audio track to connection *)
  pc_addTracks p st;;
  (* Create and send offer *)
  await (after_createOffer p agentSocketId sessionId).

(** ... from the offer to [await setLocalDescription(offer)], which is
    called on whatever [window.peerConnection] is by now. *)
Definition startWebRTCCall_got_offer (p : nat)
    (agentSocketId sessionId : option jsstring) : M unit :=
  try_catch
    (cur ← gets the_peerConnection;
     match cur with
     | Some q => await (after_setLocalDescription q (LocalOffer p) agentSocketId sessionId)
     | None => throw TypeError
     end)
    webrtc_error.

(** ... and from there to the end. *)
Definition startWebRTCCall_send_offer (q : nat) (offer : SDP)
    (agentSocketId sessionId : option jsstring) : M unit :=
  apply_localDescription q offer;;
  try_catch (emit (webrtc_offer sessionId offer agentSocketId)) webrtc_error.

(** [window.pendingIceCandidates = []] *)
Definition reset_pendingIceCandidates : M unit :=
  a ← gets (fun s => length (arrays (runtime s)));
  modify (fun s => set_arrays (arrays (runtime s) ++ [[]]) s);;
  modify (set_pendingIceCandidates (Some a)).

(** The [for ... of] loop over the queued candidates, about to visit
    index [i] of array [a]. A call on a missing connection throws at
    once and is caught, so do all the calls after it: the loop then
    runs to its end without waiting. *)
Definition flush_pendingIceCandidates (a i : nat) : M unit :=
  arr ← gets (fun s => arrays (runtime s) !! a);
  match arr ≫= (fun l => l !! i) with
  | Some c =>
      cur ← gets the_peerConnection;
      match cur with
      | Some p => addIceCandidate p c;; await (after_queued_addIceCandidate a (S i))
      | None => reset_pendingIceCandidates
      end
  | None => reset_pendingIceCandidates
  end.

(** The [webrtc_answer] handler after [setRemoteDescription] fulfilled. *)
Definition answer_applied (p : nat) (answer : N) : M unit :=
  apply_remoteDescription p answer;;
  (* Process any pending ICE candidates *)
  a ← gets (fun s => pendingIceCandidates (window s));
  match a with
  | Some a =>
      n ← gets (fun s => from_option length 0 (arrays (runtime s) !! a));
      if bool_decide (0 < n) then flush_pendingIceCandidates a 0 else mret tt
  | None => mret tt
  end.

(** *** Starting a call *)

(** [initVoiceCall()]: a new socket, the handlers below registered on
    it, and an empty candidate queue. *)
Definition initVoiceCall : M unit :=
  k ← gets (fun s => length (sockets (runtime s)));
  modify (fun s => set_sockets (sockets (runtime s) ++ [mkSocket false false]) s);;
  modify (set_voiceSocket (Some k));;
  (* Queue for ICE candidates that arrive before remote description is set *)
  reset_pendingIceCandidates.

(** [startVoiceCall()], with the values of the two form inputs. *)
Definition startVoiceCall (nameInput phoneInput : jsstring) : M unit :=
  (* Validate inputs *)
  if negb (JS.truthy (JS.trim nameInput)) then
    showToast (JS.lit "Please enter your name") error
  else if negb (JS.truthy (JS.trim phoneInput))
          || bool_decide (length phoneInput < 10) then
    showToast (JS.lit "Please enter a valid 10-digit mobile number") error
  else
    modify (set_voiceUserName (JS.trim nameInput));;
    modify (set_voiceUserPhone (JS.trim phoneInput));;
    (* Request microphone permission *)
    md ← gets (fun s => has_mediaDevices (browser s));
    if negb md then throw TypeError else await after_startVoiceCall_getUserMedia.

(** The [.then] and [.catch] of that request. The stream that comes
    with the permission is not kept. *)
Definition startVoiceCall_settled (r : Settlement) : M unit :=
  match r with
  | Fulfilled => _ ← new_stream; initVoiceCall
  | Rejected _ =>
      showToast (JS.lit "Microphone access is required for voice calls") error
  end.

(** The continuation of an async function when its promise settles. *)
Definition resume (t : Task) (r : Settlement) : M unit :=
  match t, r with
  | after_startVoiceCall_getUserMedia, _ => startVoiceCall_settled r
  | after_startWebRTCCall_getUserMedia a sid, Fulfilled =>
      startWebRTCCall_got_stream a sid
  | after_createOffer p a sid, Fulfilled => startWebRTCCall_got_offer p a sid
  | after_setLocalDescription q offer a sid, Fulfilled =>
      startWebRTCCall_send_offer q offer a sid
  | after_startWebRTCCall_getUserMedia _ _, Rejected e
  | after_createOffer _ _ _, Rejected e
  | after_setLocalDescription _ _ _ _, Rejected e => webrtc_error e
  | after_setRemoteDescription p answer, Fulfilled => answer_applied p answer
  | after_setRemoteDescription _ _, Rejected _ => mret tt  (* console.error *)
  | after_queued_addIceCandidate a i, _ =>
      (* fulfilled, or rejected and caught: next iteration *)
      flush_pendingIceCandidates a i
  end.
(** *** Socket handlers registered by [initVoiceCall] *)

Inductive SocketEvent :=
| on_connect
| on_connected
| on_call_started (session_id greeting : option jsstring)
| on_agent_response (text : option jsstring)
| on_audio_response
| on_transfer_call (session_id reason message : option jsstring) (now : Z)
| on_agent_ready_for_call (agent_sid session_id agent_id : option jsstring)
| on_webrtc_answer (answer : option N)
| on_webrtc_ice_candidate (candidate : option Candidate)
| on_webrtc_hangup
| on_call_transcript (speaker text : option jsstring)
| on_call_ended (duration_seconds : option N)
| on_error (message : option jsstring)
| on_no_agents_available (message : option jsstring)
| on_disconnect.

(** The room identifier of the [transfer_call] handler:
    [`webrtc_${data.session_id}_${Date.now()}`]. *)
Definition roomName (session_id : option jsstring) (now : Z) : jsstring :=
  JS.lit "webrtc_" ++ JS.toStr session_id ++ JS.lit "_" ++ JS.ofZ now.

(** [formatVoiceTime(seconds)] for a whole number of seconds. *)
Definition formatVoiceTime (seconds : N) : jsstring :=
  JS.padStart 2 48 (JS.ofZ (Z.of_N (seconds / 60))) ++ JS.lit ":"
  ++ JS.padStart 2 48 (JS.ofZ (Z.of_N (seconds mod 60))).

Definition handle_connect : M unit :=
  n ← gets (fun s => voiceUserName (globals s));
  p ← gets (fun s => voiceUserPhone (globals s));
  emit (start_call n p).

Definition handle_call_started (session_id greeting : option jsstring) : M unit :=
  modify (set_voiceCallActive true);;
  (* Update UI *)
  modify (set_form_hidden true);;
  modify (set_active_hidden false);;
  modify (set_voice_transcript []);;
  (* Add greeting to transcript *)
  addVoiceTranscript (JS.lit "agent") greeting;;
  (* Start timer *)
  i ← setInterval;
  modify (set_voiceTimerInterval (Some i));;
  (* Initialize speech recognition *)
  initSpeechRecognition;;
  showToast (JS.lit "Call connected!") success.

Definition handle_transfer_call (session_id reason message : option jsstring)
    (now : Z) : M unit :=
  showToast (JS.or_else message (JS.lit "Connecting to live agent...")) info;;
  (* Store session info for WebRTC *)
  modify (set_transferSessionId session_id);;
  modify (set_transferReason reason);;
  (* Stop AI Speech Recognition - we'll use a new one for the human call *)
  r ← gets (fun s => voiceRecognition (globals s));
  match r with
  | Some r => vr_set_listening r false;; modify (set_voiceRecognition None)
  | None => mret tt
  end;;
  (* Update Voice UI to show "Live Agent" state *)
  modify (set_agent_status (JS.lit "Finding available agent..."));;
  (* Show transcript container for the human call *)
  showTransferTranscript;;
  (* Notify server to find an agent - include a simple room identifier *)
  emit (agent_transfer_room (roomName session_id now) (roomName session_id now)
          session_id reason).

Definition handle_agent_ready_for_call (agent_sid session_id agent_id : option jsstring)
  : M unit :=
  (* Ignore if we already have an active WebRTC connection (multiple agents responded) *)
  pc ← gets the_peerConnection;
  match pc with
  | Some _ => mret tt
  | None =>
      showToast (JS.lit "Agent connected! Starting voice call...") success;;
      modify (set_agent_status
        (JS.lit "Connected to " ++ JS.or_else agent_id (JS.lit "Agent")));;
      (* Store agent socket ID for signaling *)
      modify (set_agentSocketId agent_sid);;
      modify (set_transferSessionId session_id);;
      (* Start WebRTC connection as the caller (customer initiates) *)
      startWebRTCCall agent_sid session_id
  end.

Definition handle_webrtc_answer (answer : option N) : M unit :=
  pc ← gets the_peerConnection;
  match pc, answer with
  | Some p, Some ans => await (after_setRemoteDescription p ans)
  | _, _ => mret tt
  end.

Definition handle_webrtc_ice_candidate (candidate : option Candidate) : M unit :=
  match candidate with
  | Some c =>
      (* Check if peer connection exists and has remote description *)
      gets has_remoteDescription ≫= fun ready : bool =>
      if ready then
        pc ← gets the_peerConnection;
        match pc with
        | Some p => addIceCandidate p c
        | None => mret tt
        end
      else
        (* Queue the candidate for later *)
        a ← gets (fun s => pendingIceCandidates (window s));
        match a with
        | Some a =>
            modify (fun s =>
              set_arrays (alter (fun l => l ++ [c]) a (arrays (runtime s))) s)
        | None => throw TypeError
        end
  | None => mret tt
  end.

Definition handle_webrtc_hangup : M unit :=
  endWebRTCCall;;
  showToast (JS.lit "Agent ended the call") info.

Definition handle_call_ended (duration_seconds : option N) : M unit :=
  cleanupVoiceCall;;
  (* Show call duration toast *)
  showToast (JS.lit "Call ended. Duration: "
             ++ formatVoiceTime (default 0%N duration_seconds)) info.

Definition handle_no_agents_available (message : option jsstring) : M unit :=
  showToast (JS.or_else message (JS.lit "All agents are busy. Please wait...")) warning;;
  (* Update avatar status *)
  modify (set_agent_status (JS.lit "Waiting for agent...")).

Definition handle_disconnect : M unit :=
  act ← gets (fun s => voiceCallActive (globals s));
  when act (cleanupVoiceCall;; showToast (JS.lit "Call disconnected") warning).

(** The handler of each event name. [connected] only logs,
    [audio_response] only plays audio; the score toast, the feedback
    modal and the log refresh that [call_ended] schedules are
    presentation of another part of the page. *)
Definition on_socket (e : SocketEvent) : M unit :=
  match e with
  | on_connect => handle_connect
  | on_connected => mret tt
  | on_call_started sid greeting => handle_call_started sid greeting
  | on_agent_response text => addVoiceTranscript (JS.lit "agent") text
  | on_audio_response => mret tt
  | on_transfer_call sid reason message now =>
      handle_transfer_call sid reason message now
  | on_agent_ready_for_call a sid aid => handle_agent_ready_for_call a sid aid
  | on_webrtc_answer ans => handle_webrtc_answer ans
  | on_webrtc_ice_candidate c => handle_webrtc_ice_candidate c
  | on_webrtc_hangup => handle_webrtc_hangup
  | on_call_transcript sp tx => addTransferTranscriptEntry sp tx
  | on_call_ended d => handle_call_ended d
  | on_error message =>
      showToast (JS.lit "Error: " ++ JS.toStr message) error
  | on_no_agents_available message => handle_no_agents_available message
  | on_disconnect => handle_disconnect
  end.

(** *** Handlers set on a peer connection by [startWebRTCCall] *)

(** [onicecandidate] *)
Definition pc_onicecandidate (pc : PeerConnection) (c : option Candidate)
  : M unit :=
  match c with
  | Some c => emit (webrtc_ice_candidate (pc_sessionId pc) c (pc_agentSocketId pc))
  | None => mret tt
  end.

(** [onconnectionstatechange]: it reads the state of
    [window.peerConnection], not of the connection that fired. The two
    status texts start with U+1F7E2 and U+1F534. *)
Definition pc_onconnectionstatechange (pc : PeerConnection) : M unit :=
  cur ← gets the_peerConnection;
  match cur with
  | None => throw TypeError
  | Some q =>
      st ← gets (fun s => connectionState <$> pcs (runtime s) !! q);
      match st with
      | Some cs_connected =>
          modify (set_agent_status ([55357; 57314]%N ++ JS.lit " Connected"));;
          showToast (JS.lit "Voice call connected!") success;;
          (* Start speech recognition for transcription *)
          startTransferSpeechRecognition (pc_sessionId pc) (pc_agentSocketId pc)
      | Some cs_disconnected | Some cs_failed =>
          modify (set_agent_status ([55357; 56628]%N ++ JS.lit " Disconnected"));;
          endWebRTCCall
      | _ => mret tt
      end
  end.

(** ** The event loop *)

(** Everything that can make the page run code of the session: a click,
    an event of socket [k], a promise of pending task [t] settling, a
    recognition result, an event of peer connection [p], a timeout. *)
Inductive Event :=
| Click_startVoiceCall (nameInput phoneInput : jsstring)
| Click_endVoiceCall
| Click_toggleVoiceMute
| Click_endWebRTCCall
| FromSocket (k : nat) (e : SocketEvent)
| Settle (t : nat) (r : Settlement)
| VoiceResult (r : nat) (ev : SpeechEvent)
| TransferResult (t : nat) (ev : SpeechEvent)
| IceCandidate (p : nat) (c : option Candidate)
| ConnectionStateChange (p : nat) (st : ConnState)
| RemovalTimeout.

(** A socket delivers events from its creation until the script
    disconnects it. *)
Definition socket_live (s : State) (k : nat) : bool :=
  match sockets (runtime s) !! k with
  | Some so => negb (disconnected_by_us so)
  | None => false
  end.

(** What the socket library does to the socket before the handler runs. *)
Definition socket_bookkeeping (k : nat) (e : SocketEvent) : M unit :=
  match e with
  | on_connect => set_connected k true
  | on_disconnect => set_connected k false
  | _ => mret tt
  end.

Definition take_task (t : nat) : M unit :=
  modify (fun s => set_tasks (<[t := None]> (tasks (runtime s))) s).

(** One turn of the event loop. An event without a live source (no such
    socket, a settled task, a closed connection, the End Call button of
    a transcript box that is not shown) runs nothing. *)
Definition step (s : State) (e : Event) : State :=
  match e with
  | Click_startVoiceCall n p => exec (startVoiceCall n p) s
  | Click_endVoiceCall => exec endVoiceCall s
  | Click_toggleVoiceMute => exec toggleVoiceMute s
  | Click_endWebRTCCall =>
      match transfer_transcript (dom s) with
      | Some _ => exec endWebRTCCall s
      | None => s
      end
  | FromSocket k ev =>
      if socket_live s k
      then exec (socket_bookkeeping k ev;; on_socket ev) s
      else s
  | Settle t r =>
      match tasks (runtime s) !! t with
      | Some (Some task) => exec (take_task t;; resume task r) s
      | _ => s
      end
  | VoiceResult r ev =>
      match vrecogs (runtime s) !! r with
      | Some _ => exec (voice_onresult r ev) s
      | None => s
      end
  | TransferResult t ev =>
      match trecogs (runtime s) !! t with
      | Some tr => exec (transfer_onresult tr ev) s
      | None => s
      end
  | IceCandidate p c =>
      match pcs (runtime s) !! p with
      | Some pc => if pc_closed pc then s else exec (pc_onicecandidate pc c) s
      | None => s
      end
  | ConnectionStateChange p st =>
      match pcs (runtime s) !! p with
      | Some pc =>
          if pc_closed pc then s
          else exec (set_connectionState p st;; pc_onconnectionstatechange pc) s
      | None => s
      end
  | RemovalTimeout =>
      match removal_timers (runtime s) with
      | S n => exec (modify (set_removal_timers n);; remove_transfer_transcript) s
      | 0 => s
      end
  end.

Definition run (s : State) (tr : list Event) : State := foldl step s tr.

(** The page after loading, before any click. *)
Definition init (b : Browser) : State :=
  {| globals := mkGlobals None false None None false [] [];
     window := mkWindow None None None None None None None;
     dom := mkDom [] None false true false [] [];
     runtime := mkRuntime [] [] [] [] [] [] [] [] 0 [];
     browser := b |}.

Definition chrome : Browser := mkBrowser true true.
(** ** Other functions of the dashboard script *)

(** [formatDuration(seconds)] of the call log, for a whole number of
    seconds or a missing value. *)
Definition formatDuration (seconds : option N) : jsstring :=
  match seconds with
  | None | Some 0%N => JS.lit "0:00"          (* if (!seconds) return '0:00' *)
  | Some n =>
      JS.ofZ (Z.of_N (n / 60)) ++ JS.lit ":"
      ++ JS.padStart 2 48 (JS.ofZ (Z.of_N (n mod 60)))
  end.
End Dashboard.

(** ** The stand-alone voice page, [voice_dashboard/static/voice.js] *)

Module Voice.

Inductive Emission :=
| start_call
| user_message (text : jsstring)
| end_call (session_id : jsstring)
| agent_transfer_room (session_id : option jsstring) (room_name room_url : jsstring)
    (reason : option jsstring).

(** The module level variables, the buttons and status line the
    functions below write to, and what was sent on [socket]. *)
Record State := mkState {
  sessionId : option jsstring;
  isInCall : bool;
  isMuted : bool;
  timerInterval : bool;          (* [timerInterval] holds an interval id *)
  recognition : bool;            (* the recognition object exists *)
  isListening : bool;            (* set by [onstart], cleared by [onend] *)
  capturing : bool;              (* the recognizer is started and not stopped *)
  callBtn_hidden : bool;
  endBtn_hidden : bool;
  muteBtn_disabled : bool;
  muteBtn_muted : bool;
  status : jsstring * jsstring;  (* [updateStatus(status, text)] *)
  emitted : list Emission
}.

(** [endCall()] *)
Definition endCall (s : State) : State :=
  (* Stop speech recognition *)
  let capturing' :=
    if recognition s && isListening s then false else capturing s in
  (* Stop timer *)
  let timerInterval' := if timerInterval s then false else timerInterval s in
  (* Tell server to end call *)
  let emitted' :=
    match sessionId s with
    | Some sid => if JS.truthy sid then emitted s ++ [end_call sid] else emitted s
    | None => emitted s
    end in
  (* Update UI *)
  {| sessionId := None;
     isInCall := false;
     isMuted := false;
     timerInterval := timerInterval';
     recognition := recognition s;
     isListening := isListening s;
     capturing := capturing';
     callBtn_hidden := false;
     endBtn_hidden := true;
     muteBtn_disabled := true;
     muteBtn_muted := false;
     (* Update status *)
     status := (JS.lit "connected", JS.lit "Call Ended - Ready for new call");
     emitted := emitted' |}.

(** The room name of [handleCallTransfer]:
    [`bsmart${data.session_id}${Date.now()}`]. *)
Definition roomName (session_id : option jsstring) (now : Z) : jsstring :=
  JS.lit "bsmart" ++ JS.toStr session_id ++ JS.ofZ now.

(** How many [end_call] requests went out. *)
Definition end_calls (s : State) : nat :=
  length (List.filter (fun e => match e with end_call _ => true | _ => false end)
            (emitted s)).

(** *** The transcript, recognition results and the socket handlers *)

(** [formatDuration(seconds)] for a whole number of seconds. *)
Definition formatDuration (seconds : N) : jsstring :=
  JS.ofZ (Z.of_N (seconds / 60)) ++ JS.lit ":"
  ++ JS.padStart 2 48 (JS.ofZ (Z.of_N (seconds mod 60))).

(** A child of [#transcript]: the placeholder of the markup, an entry
    of [addTranscriptEntry], the summary of [handleCallEnded]. *)
Inductive Child :=
| placeholder
| entry (speaker text : jsstring)
| call_summary (duration : jsstring).

(** The page: the state above, the transcript element and the
    [active] class of the call timer. *)
Record Page := mkPage {
  core : State;
  transcript : list Child;
  timer_active : bool
}.

(** [updateStatus(status, text)] *)
Definition updateStatus (st text : jsstring) (s : State) : State :=
  {| sessionId := sessionId s;
     isInCall := isInCall s;
     isMuted := isMuted s;
     timerInterval := timerInterval s;
     recognition := recognition s;
     isListening := isListening s;
     capturing := capturing s;
     callBtn_hidden := callBtn_hidden s;
     endBtn_hidden := endBtn_hidden s;
     muteBtn_disabled := muteBtn_disabled s;
     muteBtn_muted := muteBtn_muted s;
     status := (st, text);
     emitted := emitted s |}.

(** [socket.emit(...)] *)
Definition emit (e : Emission) (s : State) : State :=
  {| sessionId := sessionId s;
     isInCall := isInCall s;
     isMuted := isMuted s;
     timerInterval := timerInterval s;
     recognition := recognition s;
     isListening := isListening s;
     capturing := capturing s;
     callBtn_hidden := callBtn_hidden s;
     endBtn_hidden := endBtn_hidden s;
     muteBtn_disabled := muteBtn_disabled s;
     muteBtn_muted := muteBtn_muted s;
     status := status s;
     emitted := emitted s ++ [e] |}.

(** [transcript.querySelector('.transcript-placeholder')] and its
    removal: the first one in document order. *)
Fixpoint remove_placeholder (cs : list Child) : list Child :=
  match cs with
  | [] => []
  | placeholder :: rest => rest
  | c :: rest => c :: remove_placeholder rest
  end.

(** [addTranscriptEntry(speaker, text)] *)
Definition addTranscriptEntry (speaker : jsstring) (text : option jsstring)
    (p : Page) : Page :=
  {| core := core p;
     transcript := remove_placeholder (transcript p) ++ [entry speaker (JS.toStr text)];
     timer_active := timer_active p |}.

(** [sendUserMessage(text)] *)
Definition sendUserMessage (text : jsstring) (p : Page) : Page :=
  if negb (JS.truthy text) || negb (isInCall (core p)) then p
  else
    (* Add to transcript *)
    let p1 := addTranscriptEntry (JS.lit "customer") (Some text) p in
    (* Send to server *)
    {| core := emit (user_message text) (core p1);
       transcript := transcript p1;
       timer_active := timer_active p1 |}.

(** The [for] loop of [recognition.onresult]: what [finalTranscript]
    holds after the results [rs], starting from [acc]. The local
    [interimTranscript] is written and never read. *)
Fixpoint finalTranscript_after (rs : list Dashboard.SpeechResult) (acc : jsstring)
  : jsstring :=
  match rs with
  | [] => acc
  | res :: rest =>
      finalTranscript_after rest
        (if Dashboard.isFinal res then acc ++ Dashboard.transcript res else acc)
  end.

(** [recognition.onresult] *)
Definition recognition_onresult (ev : Dashboard.SpeechEvent) (p : Page) : Page :=
  let finalTranscript :=
    finalTranscript_after
      (drop (Dashboard.resultIndex ev) (Dashboard.results ev)) [] in
  if JS.truthy finalTranscript then sendUserMessage (JS.trim finalTranscript) p
  else p.

(** The handlers that [initializeSocket] registers. *)
Definition on_connect (p : Page) : Page :=
  {| core := updateStatus (JS.lit "connected") (JS.lit "Connected - Ready to call")
               (core p);
     transcript := transcript p;
     timer_active := timer_active p |}.

Definition on_disconnect (p : Page) : Page :=
  let s := updateStatus (JS.lit "error") (JS.lit "Disconnected") (core p) in
  {| core := if isInCall s then endCall s else s;
     transcript := transcript p;
     timer_active := timer_active p |}.

Definition on_call_started (session_id greeting : option jsstring) (p : Page)
  : Page :=
  addTranscriptEntry (JS.lit "agent") greeting
    {| core :=
         {| sessionId := session_id;
            isInCall := isInCall (core p);
            isMuted := isMuted (core p);
            timerInterval := timerInterval (core p);
            recognition := recognition (core p);
            isListening := isListening (core p);
            capturing := capturing (core p);
            callBtn_hidden := callBtn_hidden (core p);
            endBtn_hidden := endBtn_hidden (core p);
            muteBtn_disabled := muteBtn_disabled (core p);
            muteBtn_muted := muteBtn_muted (core p);
            status := status (core p);
            emitted := emitted (core p) |};
       transcript := transcript p;
       timer_active := timer_active p |}.

Definition on_agent_response (text : option jsstring) (p : Page) : Page :=
  addTranscriptEntry (JS.lit "agent") text p.

(** [handleCallEnded(data)], the [call_ended] handler. *)
Definition handleCallEnded (duration_seconds : option N) (p : Page) : Page :=
  {| core := core p;
     transcript :=
       match duration_seconds with
       | Some (N.pos d) =>
           (* Add summary to transcript *)
           transcript p ++ [call_summary (formatDuration (N.pos d))]
       | _ => transcript p
       end;
     timer_active := false |}.

(** The End Call button. *)
Definition click_end (p : Page) : Page :=
  {| core := endCall (core p);
     transcript := transcript p;
     timer_active := timer_active p |}.

(** What makes the page run one of the handlers above. *)
Inductive Event :=
| Connect
| Disconnect
| CallStarted (session_id greeting : option jsstring)
| AgentResponse (text : option jsstring)
| CallEnded (duration_seconds : option N)
| Result (ev : Dashboard.SpeechEvent)
| ClickEnd.

Definition step (p : Page) (e : Event) : Page :=
  match e with
  | Connect => on_connect p
  | Disconnect => on_disconnect p
  | CallStarted session_id greeting => on_call_started session_id greeting p
  | AgentResponse text => on_agent_response text p
  | CallEnded d => handleCallEnded d p
  | Result ev => recognition_onresult ev p
  | ClickEnd => click_end p
  end.

Definition run (p : Page) (evs : list Event) : Page := foldl step p evs.

(** How many [call_started] events carry a usable session id. *)
Definition sessions_started (evs : list Event) : nat :=
  length (List.filter (fun e => match e with
                                | CallStarted (Some sid) _ => JS.truthy sid
                                | _ => false
                                end) evs).

(** The page knows a session that it can still end. *)
Definition session_open (s : State) : nat :=
  if JS.truthy_opt (sessionId s) then 1 else 0.

End Voice.

(** ** The feedback modal of the customer dashboard script *)

Module Feedback.

(** A rating as [parseInt] hands it over: a whole number, or [NaN]
    ([None]) when the attribute is missing or not numeric. *)
Abbreviation number := (option Z).

(** [a <= b] on numbers: false as soon as one side is [NaN]. *)
Definition number_le (a b : number) : bool :=
  match a, b with
  | Some x, Some y => (x <=? y)%Z
  | _, _ => false
  end.

(** [n === 0] *)
Definition number_is_zero (n : number) : bool :=
  match n with
  | Some x => (x =? 0)%Z
  | None => false
  end.

(** A [.star] element: [parseInt(star.dataset.rating)] and whether its
    class list holds [active]. *)
Record Star := mkStar { star_rating : number; star_active : bool }.

(** A [.tag] element: [tag.dataset.tag] and whether its class list
    holds [active]. *)
Record Tag := mkTag { tag_value : option jsstring; tag_active : bool }.

(** The body of a [POST /api/feedback]. *)
Record Request := mkRequest {
  call_id : option jsstring;
  rating : number;
  tags : list (option jsstring);
  comment : jsstring
}.

Record State := mkState {
  currentCallId : option jsstring;
  selectedRating : number;
  selectedTags : list (option jsstring);
  stars : list Star;                 (* [querySelectorAll('.star')] *)
  tag_elems : list Tag;              (* [querySelectorAll('.tag')] *)
  feedback_comment : jsstring;       (* value of [#feedback-comment] *)
  modal_hidden : bool;
  toasts : list Dashboard.Toast;
  posted : list Request;             (* requests handed to [fetch] *)
  in_flight : nat                    (* of which not yet answered *)
}.

(** [updateStars()] *)
Definition updateStars (s : State) : State :=
  {| currentCallId := currentCallId s;
     selectedRating := selectedRating s;
     selectedTags := selectedTags s;
     stars := map (fun star =>
                mkStar (star_rating star)
                  (number_le (star_rating star) (selectedRating s))) (stars s);
     tag_elems := tag_elems s;
     feedback_comment := feedback_comment s;
     modal_hidden := modal_hidden s;
     toasts := toasts s;
     posted := posted s;
     in_flight := in_flight s |}.

(** The click handler of the [i]-th star. *)
Definition click_star (i : nat) (s : State) : State :=
  match stars s !! i with
  | Some star =>
      updateStars
        {| currentCallId := currentCallId s;
           selectedRating := star_rating star;
           selectedTags := selectedTags s;
           stars := stars s;
           tag_elems := tag_elems s;
           feedback_comment := feedback_comment s;
           modal_hidden := modal_hidden s;
           toasts := toasts s;
           posted := posted s;
           in_flight := in_flight s |}
  | None => s
  end.

(** [selectedTags.includes(v)] *)
Definition includes (v : option jsstring) (l : list (option jsstring)) : bool :=
  existsb (fun t => bool_decide (t = v)) l.

(** The click handler of the [i]-th tag. *)
Definition click_tag (i : nat) (s : State) : State :=
  match tag_elems s !! i with
  | Some tag =>
      let tagValue := tag_value tag in
      {| currentCallId := currentCallId s;
         selectedRating := selectedRating s;
         selectedTags :=
           if includes tagValue (selectedTags s)
           then List.filter (fun t => negb (bool_decide (t = tagValue)))
                  (selectedTags s)
           else selectedTags s ++ [tagValue];
         stars := stars s;
         (* tag.classList.toggle('active') *)
         tag_elems := <[i := mkTag tagValue (negb (tag_active tag))]> (tag_elems s);
         feedback_comment := feedback_comment s;
         modal_hidden := modal_hidden s;
         toasts := toasts s;
         posted := posted s;
         in_flight := in_flight s |}
  | None => s
  end.

(** [showFeedbackModal(callId)] *)
Definition showFeedbackModal (callId : option jsstring) (s : State) : State :=
  let s1 := updateStars
    {| currentCallId := callId;
       selectedRating := Some 0%Z;
       selectedTags := [];
       stars := stars s;
       tag_elems := tag_elems s;
       feedback_comment := feedback_comment s;
       modal_hidden := modal_hidden s;
       toasts := toasts s;
       posted := posted s;
       in_flight := in_flight s |} in
  {| currentCallId := currentCallId s1;
     selectedRating := selectedRating s1;
     selectedTags := selectedTags s1;
     stars := stars s1;
     tag_elems := map (fun t => mkTag (tag_value t) false) (tag_elems s1);
     feedback_comment := [];
     modal_hidden := false;
     toasts := toasts s1;
     posted := posted s1;
     in_flight := in_flight s1 |}.

(** [closeFeedbackModal()] *)
Definition closeFeedbackModal (s : State) : State :=
  {| currentCallId := currentCallId s;
     selectedRating := selectedRating s;
     selectedTags := selectedTags s;
     stars := stars s;
     tag_elems := tag_elems s;
     feedback_comment := feedback_comment s;
     modal_hidden := true;
     toasts := toasts s;
     posted := posted s;
     in_flight := in_flight s |}.

(** [showToast(message, type)] *)
Definition showToast (message : jsstring) (type : Dashboard.ToastType) (s : State)
  : State :=
  {| currentCallId := currentCallId s;
     selectedRating := selectedRating s;
     selectedTags := selectedTags s;
     stars := stars s;
     tag_elems := tag_elems s;
     feedback_comment := feedback_comment s;
     modal_hidden := modal_hidden s;
     toasts := toasts s ++ [Dashboard.mkToast message type];
     posted := posted s;
     in_flight := in_flight s |}.

(** [submitFeedback()] up to [await fetch(...)]. *)
Definition submitFeedback (s : State) : State :=
  if number_is_zero (selectedRating s) then
    showToast (JS.lit "Please select a rating") Dashboard.error s
  else
    {| currentCallId := currentCallId s;
       selectedRating := selectedRating s;
       selectedTags := selectedTags s;
       stars := stars s;
       tag_elems := tag_elems s;
       feedback_comment := feedback_comment s;
       modal_hidden := modal_hidden s;
       toasts := toasts s;
       posted := posted s ++ [mkRequest (currentCallId s) (selectedRating s)
                                (selectedTags s) (feedback_comment s)];
       in_flight := S (in_flight s) |}.

(** How a request ends: a parsed answer with its [success] field, or a
    failure of [fetch] or of [response.json()]. *)
Inductive Answer := answered (success : bool) | failed.

(** ... and the rest of [submitFeedback]. The refresh of the call log
    is another part of the page. *)
Definition submitFeedback_settled (a : Answer) (s : State) : State :=
  match a with
  | answered true =>
      showToast (JS.lit "Thank you for your feedback!") Dashboard.success
        (closeFeedbackModal s)
  | answered false => s
  | failed => showToast (JS.lit "Failed to submit feedback") Dashboard.error s
  end.

(** What the user can do with the modal, and the answers coming in. *)
Inductive Event :=
| Open (callId : option jsstring)
| Close
| ClickStar (i : nat)
| ClickTag (i : nat)
| TypeComment (text : jsstring)
| Submit
| Settled (a : Answer).

Definition step (s : State) (e : Event) : State :=
  match e with
  | Open callId => showFeedbackModal callId s
  | Close => closeFeedbackModal s
  | ClickStar i => click_star i s
  | ClickTag i => click_tag i s
  | TypeComment text =>
      {| currentCallId := currentCallId s;
         selectedRating := selectedRating s;
         selectedTags := selectedTags s;
         stars := stars s;
         tag_elems := tag_elems s;
         feedback_comment := text;
         modal_hidden := modal_hidden s;
         toasts := toasts s;
         posted := posted s;
         in_flight := in_flight s |}
  | Submit => submitFeedback s
  | Settled a =>
      match in_flight s with
      | S n =>
          submitFeedback_settled a
            {| currentCallId := currentCallId s;
               selectedRating := selectedRating s;
               selectedTags := selectedTags s;
               stars := stars s;
               tag_elems := tag_elems s;
               feedback_comment := feedback_comment s;
               modal_hidden := modal_hidden s;
               toasts := toasts s;
               posted := posted s;
               in_flight := n |}
      | 0 => s
      end
  end.

Definition run (s : State) (evs : list Event) : State := foldl step s evs.

(** The page as loaded, with stars of these ratings and tags of these
    values: the globals as the script declares them; the markup is
    taken to hide the modal and to highlight nothing. *)
Definition init (ratings : list number) (values : list (option jsstring)) : State :=
  {| currentCallId := None;
     selectedRating := Some 0%Z;
     selectedTags := [];
     stars := map (fun r => mkStar r false) ratings;
     tag_elems := map (fun v => mkTag v false) values;
     feedback_comment := [];
     modal_hidden := true;
     toasts := [];
     posted := [];
     in_flight := 0 |}.

(** *** What the statements say about the modal *)

(** The highlighted tags are the selected ones, no tag is selected
    twice, and the highlighted stars are those up to the rating. *)
Definition shows_selection (s : State) : Prop :=
  (forall tag, In tag (tag_elems s) ->
     tag_active tag = true <-> In (tag_value tag) (selectedTags s))
  /\ NoDup (selectedTags s)
  /\ (forall star, In star (stars s) ->
        star_active star = number_le (star_rating star) (selectedRating s)).

(** A request that a page with these stars and tags may post: a rating
    of one of the stars that is not 0, and tags of the page, each once. *)
Definition acceptable (ratings : list number) (values : list (option jsstring))
    (r : Request) : Prop :=
  rating r <> Some 0%Z /\ In (rating r) ratings
  /\ NoDup (tags r) /\ (forall t, In t (tags r) -> In t values).

Definition is_star_click (e : Event) : bool :=
  match e with ClickStar _ => true | _ => false end.

(** What every state of a page with these stars and tags keeps. *)
Definition well_kept (ratings : list number) (values : list (option jsstring))
    (s : State) : Prop :=
  map star_rating (stars s) = ratings
  /\ map tag_value (tag_elems s) = values
  /\ NoDup (selectedTags s)
  /\ (forall t, In t (selectedTags s) -> In t values)
  /\ (selectedRating s = Some 0%Z \/ In (selectedRating s) ratings)
  /\ Forall (acceptable ratings values) (posted s).

End Feedback.

(** ** The chat of the customer dashboard script *)

Module Chat.

Inductive Sender := user | bot.

(** [addChatMessage] and [showTypingIndicator] hand markup to
    [innerHTML], and what a message becomes is up to the HTML parser.
    The model follows the parser for text only: a string without [<],
    which opens a tag, [&], which opens a character reference, and NUL
    and CR, which the parser drops or rewrites, comes out as a text
    node with that very string. *)
Definition is_text (c : N) : bool :=
  negb ((c =? 0) || (c =? 13) || (c =? 38) || (c =? 60))%N.

Definition plain (t : jsstring) : bool := forallb is_text t.

(** A child of [#chat-messages]: a message, with the two strings that
    [addChatMessage] puts into its markup and its class, or the element
    with id [typing-indicator]. *)
Inductive Child :=
| message (content : jsstring) (type : Sender) (time : jsstring)
| typing_indicator.

(** The text in [.message-content] of a message, where the model can
    tell. *)
Definition shown (content : jsstring) : option jsstring :=
  if plain content then Some content else None.

Record State := mkState {
  chat_input : jsstring;          (* value of [#chat-input] *)
  chat_messages : list Child;     (* children of [#chat-messages] *)
  posted : list jsstring;         (* [message] of each [POST /api/chat] *)
  in_flight : nat                 (* of which not yet answered *)
}.

(** [addChatMessage(content, type, timestamp = null)]; [now] is what
    [new Date().toLocaleTimeString(...)] gives at the call. *)
Definition addChatMessage (content : option jsstring) (type : Sender)
    (timestamp : option jsstring) (now : jsstring) (s : State) : State :=
  {| chat_input := chat_input s;
     chat_messages :=
       chat_messages s ++ [message (JS.toStr content) type (JS.or_else timestamp now)];
     posted := posted s;
     in_flight := in_flight s |}.

(** [showTypingIndicator()] *)
Definition showTypingIndicator (s : State) : State :=
  {| chat_input := chat_input s;
     chat_messages := chat_messages s ++ [typing_indicator];
     posted := posted s;
     in_flight := in_flight s |}.

(** [document.getElementById('typing-indicator')] and its removal: the
    first element with that id in document order. A message in front
    of the indicators whose markup is not plain text may hold such an
    element itself; there the model stops ([None]). *)
Fixpoint remove_indicator (cs : list Child) : option (list Child) :=
  match cs with
  | [] => Some []
  | typing_indicator :: rest => Some rest
  | message content type time :: rest =>
      if plain content && plain time
      then cons (message content type time) <$> remove_indicator rest
      else None
  end.

(** [removeTypingIndicator()] *)
Definition removeTypingIndicator (s : State) : option State :=
  cs ← remove_indicator (chat_messages s);
  Some {| chat_input := chat_input s;
          chat_messages := cs;
          posted := posted s;
          in_flight := in_flight s |}.

(** [sendMessage()] up to [await fetch(...)]. *)
Definition sendMessage (now : jsstring) (s : State) : State :=
  let message := JS.trim (chat_input s) in
  if negb (JS.truthy message) then s
  else
    (* Add user message *)
    let s1 := addChatMessage (Some message) user None now s in
    (* Show typing indicator *)
    let s2 := showTypingIndicator
      {| chat_input := [];
         chat_messages := chat_messages s1;
         posted := posted s1;
         in_flight := in_flight s1 |} in
    {| chat_input := chat_input s2;
       chat_messages := chat_messages s2;
       posted := posted s2 ++ [message];
       in_flight := S (in_flight s2) |}.

(** How a request ends: [fetch] or [response.json()] fails, or the body
    is JSON. Of a JSON value other than [null] the script reads
    [response] and [timestamp], each [undefined] ([None]) when the
    value has no such property; reading them of [null] throws. *)
Inductive Answer :=
| answered (response timestamp : option jsstring)
| answered_null
| failed.

(** The [catch] block of [sendMessage]. *)
Definition sendMessage_catch (now : jsstring) (s : State) : option State :=
  s1 ← removeTypingIndicator s;
  Some (addChatMessage
          (Some (JS.lit "Sorry, I encountered an error. Please try again."))
          bot None now s1).

(** ... and the rest of [sendMessage]. With the body [null] the
    indicator is removed, [data.response] throws, and the [catch] block
    removes an indicator once more. *)
Definition sendMessage_settled (a : Answer) (now : jsstring) (s : State)
  : option State :=
  match a with
  | answered response timestamp =>
      (* Remove typing indicator and add bot response *)
      s1 ← removeTypingIndicator s;
      Some (addChatMessage response bot timestamp now s1)
  | answered_null =>
      s1 ← removeTypingIndicator s;
      sendMessage_catch now s1
  | failed => sendMessage_catch now s
  end.

(** [sendQuickReply(message)] *)
Definition sendQuickReply (message now : jsstring) (s : State) : State :=
  sendMessage now
    {| chat_input := message;
       chat_messages := chat_messages s;
       posted := posted s;
       in_flight := in_flight s |}.

(** [handleChatKeypress(event)], with [event.key]. *)
Definition handleChatKeypress (key now : jsstring) (s : State) : State :=
  if bool_decide (key = JS.lit "Enter") then sendMessage now s else s.

(** What the customer does with the chat, and the answers coming in;
    each with the wall clock text of the moment. *)
Inductive Event :=
| Type_input (value : jsstring)
| Keypress (key : jsstring) (now : jsstring)
| QuickReply (message : jsstring) (now : jsstring)
| Settled (a : Answer) (now : jsstring).

Definition step (s : State) (e : Event) : option State :=
  match e with
  | Type_input value =>
      Some {| chat_input := value;
              chat_messages := chat_messages s;
              posted := posted s;
              in_flight := in_flight s |}
  | Keypress key now => Some (handleChatKeypress key now s)
  | QuickReply m now => Some (sendQuickReply m now s)
  | Settled a now =>
      match in_flight s with
      | S n =>
          sendMessage_settled a now
            {| chat_input := chat_input s;
               chat_messages := chat_messages s;
               posted := posted s;
               in_flight := n |}
      | 0 => Some s
      end
  end.

Fixpoint run (s : State) (evs : list Event) : option State :=
  match evs with
  | [] => Some s
  | e :: evs => s' ← step s e; run s' evs
  end.

(** *** What the statements say about the chat *)

(** How many typing indicators the chat shows. *)
Definition indicators (cs : list Child) : nat :=
  length (List.filter (fun c => match c with typing_indicator => true | _ => false end)
            cs).

(** The texts of the messages shown as the customer's, in order. *)
Definition shown_as_sent (cs : list Child) : list (option jsstring) :=
  omap (fun c => match c with
                 | message content user _ => Some (shown content)
                 | _ => None
                 end) cs.

(** A chat and events with plain text only: what is typed or comes
    with a quick reply, what the server answers, and the clock text. *)
Definition plain_child (c : Child) : bool :=
  match c with
  | message content _ time => plain content && plain time
  | typing_indicator => true
  end.

Definition plain_page (s : State) : Prop :=
  plain (chat_input s) = true /\ forallb plain_child (chat_messages s) = true.

Definition plain_event (e : Event) : bool :=
  match e with
  | Type_input value => plain value
  | Keypress _ now => plain now
  | QuickReply m now => plain m && plain now
  | Settled (answered response timestamp) now =>
      plain (JS.toStr response) && plain (JS.or_else timestamp now)
  | Settled _ now => plain now
  end.

(** An answer whose body is [null]. *)
Definition is_null_answer (e : Event) : bool :=
  match e with Settled answered_null _ => true | _ => false end.

End Chat.

(** ** Observations and scenarios used in the statements *)

Import Dashboard.

(** A call that reached the AI phase: valid form values, microphone
    granted, socket 0 connected, [call_started] received. *)
Definition ai_phase_trace : list Event :=
  [ Click_startVoiceCall (JS.lit "Asha") (JS.lit "9876543210");
    Settle 0 Fulfilled;
    FromSocket 0 on_connect;
    FromSocket 0 (on_call_started (Some (JS.lit "s1")) (Some (JS.lit "Hello"))) ].

(** ... that the backend then hands over: waiting for an agent. *)
Definition transferring_trace : list Event :=
  ai_phase_trace ++
  [ FromSocket 0 (on_transfer_call (Some (JS.lit "s1"))
      (Some (JS.lit "customer_request")) None 1700000000000) ].

(** ... and that one agent accepted, up to the offer being sent. *)
Definition negotiating_trace : list Event :=
  transferring_trace ++
  [ FromSocket 0 (on_agent_ready_for_call (Some (JS.lit "agentA"))
      (Some (JS.lit "s1")) None);
    Settle 1 Fulfilled; Settle 2 Fulfilled; Settle 3 Fulfilled ].

(** ... and that is connected to the agent. *)
Definition human_phase_trace : list Event :=
  negotiating_trace ++
  [ FromSocket 0 (on_webrtc_answer (Some 7%N)); Settle 4 Fulfilled;
    ConnectionStateChange 0 cs_connected ].

(** The texts of the final results of a recognition event, from
    [resultIndex] on, trimmed, the empty ones dropped. *)
Definition final_texts (ev : SpeechEvent) : list jsstring :=
  List.filter JS.truthy
    (map (fun res => JS.trim (transcript res))
       (List.filter isFinal (drop (resultIndex ev) (results ev)))).


(** What a step keeps of the AI phase transcript: the entries that were
    there are still there, in their places, and what is new comes after
    them. *)
Definition voice_entries_kept (s s' : State) : Prop :=
  voice_transcript (dom s) `prefix_of` voice_transcript (dom s').

(** The same for the human phase transcript, from when it is shown. *)
Definition transfer_entries_kept (s s' : State) : Prop :=
  match transfer_transcript (dom s) with
  | Some es =>
      exists es', transfer_transcript (dom s') = Some es' /\ es `prefix_of` es'
  | None => True
  end.



(** A second [call_started] in the AI phase, and the agent hanging up
    in the human phase. *)
Definition restarted_trace : list Event :=
  ai_phase_trace ++
  [ FromSocket 0 (on_call_started (Some (JS.lit "s2"))
                    (Some (JS.lit "Hello again"))) ].

Definition hung_up_trace : list Event :=
  human_phase_trace ++
  [ FromSocket 0 (on_call_transcript (Some (JS.lit "agent"))
                    (Some (JS.lit "Hi, this is Ravi")));
    FromSocket 0 on_webrtc_hangup ].


(** The room identifiers sent so far, in order. *)
Definition room_names (s : State) : list jsstring :=
  omap (fun ke => match snd ke with
                  | agent_transfer_room _ room_name _ _ => Some room_name
                  | _ => None
                  end) (emitted (runtime s)).

(** Two hand-over decisions for the same session that reach the page
    within the same millisecond. *)
Definition same_millisecond_trace : list Event :=
  ai_phase_trace ++
  [ FromSocket 0 (on_transfer_call (Some (JS.lit "s1"))
      (Some (JS.lit "customer_request")) None 1700000000000);
    FromSocket 0 (on_transfer_call (Some (JS.lit "s1"))
      (Some (JS.lit "escalation")) None 1700000000000) ].

(** Two agents accept the same hand-over, the second before the
    microphone request of the first acceptance has been answered. The
    first request is answered and the offer of the first connection is
    made, set and sent (tasks 1, 3, 4); then the second request is
    answered and the second connection goes the same way (tasks 2, 5,
    6). *)
Definition two_agents_trace : list Event :=
  transferring_trace ++
  [ FromSocket 0 (on_agent_ready_for_call (Some (JS.lit "agentA"))
      (Some (JS.lit "s1")) None);
    FromSocket 0 (on_agent_ready_for_call (Some (JS.lit "agentB"))
      (Some (JS.lit "s1")) None);
    Settle 1 Fulfilled; Settle 3 Fulfilled; Settle 4 Fulfilled;
    Settle 2 Fulfilled; Settle 5 Fulfilled; Settle 6 Fulfilled ].

(** The same two acceptances, the second after the connection of the
    first exists. *)
Definition two_agents_in_turn_trace : list Event :=
  transferring_trace ++
  [ FromSocket 0 (on_agent_ready_for_call (Some (JS.lit "agentA"))
      (Some (JS.lit "s1")) None);
    Settle 1 Fulfilled;
    FromSocket 0 (on_agent_ready_for_call (Some (JS.lit "agentB"))
      (Some (JS.lit "s1")) None);
    Settle 2 Fulfilled; Settle 3 Fulfilled ].

(** The agents that were sent an offer, in order. *)
Definition offer_targets (s : State) : list (option jsstring) :=
  omap (fun ke => match snd ke with
                  | webrtc_offer _ _ target_sid => Some target_sid
                  | _ => None
                  end) (emitted (runtime s)).

(** The streams whose tracks are still live. *)
Definition live_streams (s : State) : list nat :=
  omap (fun ix => if tracks_stopped (snd ix) then None else Some (fst ix))
    (imap pair (streams (runtime s))).

(** Candidates arriving one after the other on socket [k]. *)
Definition ice_events (k : nat) (cs : list Candidate) : list Event :=
  map (fun c => FromSocket k (on_webrtc_ice_candidate (Some c))) cs.

(** The flush of the queue as the event loop sees it: while the
    [addIceCandidate] promise of task [n] is pending, the candidates
    [late] arrive on socket [k]; then the promise settles with [o] and
    the loop goes on with task [n+1]. *)
Fixpoint flush_events (k n : nat) (steps : list (Settlement * list Candidate))
  : list Event :=
  match steps with
  | [] => []
  | (o, late) :: steps => ice_events k late ++ Settle n o :: flush_events k (S n) steps
  end.

(** What the connection is handed during such a flush: each queued
    candidate, followed by the candidates that arrived while its
    promise was pending. *)
Definition applied_in_flush (queued : list Candidate)
    (steps : list (Settlement * list Candidate)) : list Candidate :=
  concat (zip_with (fun c st => c :: snd st) queued steps).

(** The form values of some click passed the two input checks and are
    what [n] and [p] were made from. *)
Definition entered_valid (tr : list Event) (n p : jsstring) : Prop :=
  exists nameInput phoneInput,
    In (Click_startVoiceCall nameInput phoneInput) tr
    /\ n = JS.trim nameInput /\ n <> []
    /\ p = JS.trim phoneInput /\ p <> []
    /\ 10 <= length phoneInput.

(** The microphone request of some [startVoiceCall] was granted. *)
Definition permission_granted (b : Browser) (tr : list Event) : Prop :=
  exists tr1 t tr2,
    tr = tr1 ++ Settle t Fulfilled :: tr2
    /\ tasks (runtime (run (init b) tr1)) !! t
       = Some (Some after_startVoiceCall_getUserMedia).

(** Nothing that matters for starting a call is new in [s'] compared
    with [s]: same name and phone, as many sockets, no new pending
    microphone request of [startVoiceCall], no new [start_call]. *)
Definition start_frame (s s' : State) : Prop :=
  voiceUserName (globals s') = voiceUserName (globals s)
  /\ voiceUserPhone (globals s') = voiceUserPhone (globals s)
  /\ length (sockets (runtime s')) = length (sockets (runtime s))
  /\ (In (Some after_startVoiceCall_getUserMedia) (tasks (runtime s')) ->
      In (Some after_startVoiceCall_getUserMedia) (tasks (runtime s)))
  /\ (forall k n p, In (k, start_call n p) (emitted (runtime s')) ->
                    In (k, start_call n p) (emitted (runtime s))).

(** A handler body that keeps [start_frame], however it ends. *)
Definition framed {A} (m : M A) : Prop :=
  forall s, start_frame s (fst (m s)).

(** What holds of every state the page can reach by the events [tr]. *)
Definition start_inv (b : Browser) (tr : list Event) (s : State) : Prop :=
  (forall k n p, In (k, start_call n p) (emitted (runtime s)) ->
                 entered_valid tr n p /\ permission_granted b tr)
  /\ (sockets (runtime s) <> [] ->
      permission_granted b tr
      /\ entered_valid tr (voiceUserName (globals s)) (voiceUserPhone (globals s)))
  /\ (In (Some after_startVoiceCall_getUserMedia) (tasks (runtime s)) ->
      entered_valid tr (voiceUserName (globals s)) (voiceUserPhone (globals s))).

(** Which message an event can make the page send. *)
Definition may_send (e : Event) (m : Emission) : bool :=
  match e, m with
  | FromSocket _ on_connect, start_call _ _ => true
  | VoiceResult _ _, user_message _ => true
  | FromSocket _ (on_transfer_call _ _ _ _), agent_transfer_room _ _ _ _ => true
  | Settle _ Fulfilled, webrtc_offer _ _ _ => true
  | IceCandidate _ (Some _), webrtc_ice_candidate _ _ _ => true
  | TransferResult _ _, call_transcript _ _ _ _ => true
  | FromSocket _ on_webrtc_hangup, webrtc_hangup _ _
  | Click_endWebRTCCall, webrtc_hangup _ _
  | ConnectionStateChange _ _, webrtc_hangup _ _ => true
  | Click_endVoiceCall, end_call => true
  | _, _ => false
  end.

(** Two messages with the same event name. *)
Definition same_kind (m m' : Emission) : bool :=
  match m, m' with
  | start_call _ _, start_call _ _
  | user_message _, user_message _
  | agent_transfer_room _ _ _ _, agent_transfer_room _ _ _ _
  | webrtc_offer _ _ _, webrtc_offer _ _ _
  | webrtc_ice_candidate _ _ _, webrtc_ice_candidate _ _ _
  | webrtc_hangup _ _, webrtc_hangup _ _
  | call_transcript _ _ _ _, call_transcript _ _ _ _
  | end_call, end_call => true
  | _, _ => false
  end.

(** The two messages that carry recognized speech, and the two events
    that deliver it. *)
Definition is_speech_text (m : Emission) : bool :=
  match m with
  | user_message _ | call_transcript _ _ _ _ => true
  | _ => false
  end.

Definition is_speech_event (e : Event) : bool :=
  match e with VoiceResult _ _ | TransferResult _ _ => true | _ => false end.

(** How many messages with the event name of [m] were sent. *)
Definition sent_of_kind (m : Emission) (s : State) : nat :=
  length (List.filter (fun km => same_kind km.2 m) (emitted (runtime s))).

(** How many events of a trace can make the page send [m]. *)
Definition causes_of (m : Emission) (tr : list Event) : nat :=
  length (List.filter (fun e => may_send e m) tr).

(** A handler body that appends to the log of sent messages only
    messages that satisfy [Q], however it ends. *)
Definition sends {A} (Q : Emission -> Prop) (m : M A) : Prop :=
  forall s, exists new,
    emitted (runtime (fst (m s))) = emitted (runtime s) ++ new
    /\ Forall (fun km => Q km.2) new.

(** A handler body that leaves an observation of the state as it is,
    however it ends. *)
Definition preserves {A B} (obs : State -> B) (m : M A) : Prop :=
  forall s, obs (fst (m s)) = obs s.

(** A handler body that sends nothing, and one that sends at most one
    message. *)
Definition quiet {A} (m : M A) : Prop :=
  preserves (fun s => emitted (runtime s)) m.

Definition sends_at_most_one {A} (m : M A) : Prop :=
  forall s, exists new,
    emitted (runtime (fst (m s))) = emitted (runtime s) ++ new /\ length new <= 1.

(** A code unit that is a decimal digit. *)
Definition is_digit (c : N) : Prop := (48 <= c <= 57)%N.

(** What [voiceTimerInterval] holds: nothing, or a timer that is still
    armed or not. *)
Definition the_timer (s : State) : option bool :=
  i ← voiceTimerInterval (globals s);
  Some (default false (intervals (runtime s) !! i)).

(** The timers that are armed, whether a variable still names them or
    not. *)
Definition armed (s : State) (i : nat) : Prop :=
  intervals (runtime s) !! i = Some true.

(** The call flag, the timer variable and the two panels of the voice
    tab. *)
Definition call_panel (s : State) : bool * option bool * bool * bool :=
  (voiceCallActive (globals s), the_timer s,
   form_hidden (dom s), active_hidden (dom s)).

(** In a call: the flag is set, [voiceTimerInterval] holds an armed
    timer, the form is hidden and the call panel shown. Out of a call:
    the flag is clear, [voiceTimerInterval] is [null], the form is shown
    and the call panel hidden. *)
Definition panel_in_step (s : State) : Prop :=
  call_panel s = (true, Some true, true, false)
  \/ call_panel s = (false, None, false, true).

(** * Properties *)

(** Unfolds the plumbing of [M] and computes reads of written fields. *)
Ltac mred :=
  repeat (progress (unfold mbind, mret, M_bind, M_ret, gets, modify, throw,
                      when, try_catch, exec, setInterval, clearInterval in *;
                    cbn in *)).

Example trim_example :
  JS.trim (JS.lit "  hi there ") = JS.lit "hi there".
Proof. reflexivity. Qed.

Example ofZ_example : JS.ofZ 1700000000123 = JS.lit "1700000000123".
Proof. reflexivity. Qed.

Example formatVoiceTime_example : formatVoiceTime 75 = JS.lit "01:15".
Proof. reflexivity. Qed.

(** ** Facts about lists *)

Section ListFacts.
Context {A : Type}.

Lemma In_drop (x : A) (n : nat) (l : list A) : In x (drop n l) -> In x l.
Proof.
  revert l; induction n as [|n IH]; intros [|y l]; cbn; auto.
Qed.

Lemma not_NoDup_twice (l : list A) (x : A) : l = [x; x] -> ~ NoDup l.
Proof.
  intros -> H. inversion H as [|? ? Hn _]; subst. apply Hn. left.
Qed.

Lemma alter_lookup_insert (f : A -> A) (l : list A) (i : nat) (x : A) :
  l !! i = Some x -> alter f i l = <[i := f x]> l.
Proof.
  revert i; induction l as [|y l IH]; intros [|i] H; cbn in *; try discriminate.
  - injection H as ->. reflexivity.
  - f_equal. apply IH, H.
Qed.

Lemma drop_cons_inv (l : list A) (i : nat) (x : A) (rest : list A) :
  drop i l = x :: rest -> l !! i = Some x /\ drop (S i) l = rest.
Proof.
  revert i; induction l as [|y l IH]; intros [|i] H; cbn in *; try discriminate.
  - injection H as -> ->. split; [reflexivity | apply drop_0].
  - apply IH, H.
Qed.

Lemma drop_nil_inv (l : list A) (i : nat) : drop i l = [] -> l !! i = None.
Proof.
  revert i; induction l as [|y l IH]; intros [|i] H; cbn in *; try discriminate; auto.
Qed.

Lemma in_insert_None (l : list (option A)) (i : nat) (x : A) :
  In (Some x) (<[i := None]> l) -> In (Some x) l.
Proof.
  revert i; induction l as [|y l IH]; intros [|i]; cbn; auto.
  - intros [H|H]; [discriminate | auto].
  - intros [H|H]; eauto.
Qed.

Lemma lookup_In (l : list A) (i : nat) (x : A) : l !! i = Some x -> In x l.
Proof.
  revert i; induction l as [|y l IH]; intros [|i] H; cbn in *; try discriminate.
  - injection H as ->. auto.
  - eauto.
Qed.

End ListFacts.

(** ** Runs *)

Lemma run_app (s : State) (tr1 tr2 : list Event) :
  run s (tr1 ++ tr2) = run (run s tr1) tr2.
Proof. unfold run. apply foldl_app. Qed.

Lemma run_snoc (s : State) (tr : list Event) (e : Event) :
  run s (tr ++ [e]) = step (run s tr) e.
Proof. unfold run. apply foldl_snoc. Qed.

(** ** What must hold before a call is started *)

Lemma start_frame_refl (s : State) : start_frame s s.
Proof. unfold start_frame. auto. Qed.

Lemma start_frame_trans (s1 s2 s3 : State) :
  start_frame s1 s2 -> start_frame s2 s3 -> start_frame s1 s3.
Proof.
  intros (A1 & A2 & A3 & A4 & A5) (B1 & B2 & B3 & B4 & B5).
  unfold start_frame. repeat split; try congruence; auto.
Qed.

Lemma framed_ret {A} (a : A) : framed (mret a).
Proof. intros s. apply start_frame_refl. Qed.

Lemma framed_bind {A B} (m : M A) (f : A -> M B) :
  framed m -> (forall a, framed (f a)) -> framed (m ≫= f).
Proof.
  intros Hm Hf s. specialize (Hm s). unfold mbind, M_bind.
  destruct (m s) as [s' [a|e]]; cbn in *; [|exact Hm].
  eapply start_frame_trans; [exact Hm | apply Hf].
Qed.

Lemma framed_gets {A} (f : State -> A) : framed (gets f).
Proof. intros s. apply start_frame_refl. Qed.

Lemma framed_throw {A} (e : jsstring) : framed (throw (A:=A) e).
Proof. intros s. apply start_frame_refl. Qed.

Lemma framed_modify (f : State -> State) :
  (forall s, start_frame s (f s)) -> framed (modify f).
Proof. intros H s. apply H. Qed.

Lemma framed_when (b : bool) (m : M unit) : framed m -> framed (when b m).
Proof. intros H. destruct b; [exact H | apply framed_ret]. Qed.

Lemma framed_try_catch (m : M unit) (h : jsstring -> M unit) :
  framed m -> (forall e, framed (h e)) -> framed (try_catch m h).
Proof.
  intros Hm Hh s. specialize (Hm s). unfold try_catch.
  destruct (m s) as [s' [a|e]]; cbn in *; [exact Hm|].
  eapply start_frame_trans; [exact Hm | apply Hh].
Qed.

(** Writes that cannot break the frame. *)
Ltac frame_write :=
  intros ?; unfold start_frame; cbn;
  rewrite ?length_alter, ?length_insert;
  repeat split; auto;
  try (intros H; apply in_app_or in H as [H|[H|[]]]; [exact H | discriminate H]);
  try (intros ? ? ? H; apply in_app_or in H as [H|[H|[]]]; [exact H | discriminate H]).

Create HintDb handlers.
#[local] Hint Unfold
  showToast emit await update_pc pc_addTracks addIceCandidate
  apply_remoteDescription apply_localDescription set_connectionState
  pc_close stop_tracks new_stream setInterval clearInterval set_connected
  socket_disconnect
  vr_set_listening vr_set_finalTranscript tr_set_listening
  addVoiceTranscript showTransferTranscript addTransferTranscriptEntry
  initSpeechRecognition startTransferSpeechRecognition cleanupVoiceCall
  endVoiceCall endWebRTCCall remove_transfer_transcript toggleVoiceMute
  webrtc_error startWebRTCCall startWebRTCCall_got_stream
  startWebRTCCall_got_offer startWebRTCCall_send_offer
  reset_pendingIceCandidates flush_pendingIceCandidates answer_applied
  handle_call_started handle_transfer_call handle_agent_ready_for_call
  handle_webrtc_answer handle_webrtc_ice_candidate handle_webrtc_hangup
  handle_call_ended handle_no_agents_available handle_disconnect
  pc_onicecandidate pc_onconnectionstatechange socket_bookkeeping take_task
  : handlers.

(** The functions of the script, to be unfolded down to [emit]; in
    [writers_folded] down to the two functions that read the human
    phase transcript before they write it. *)
Create HintDb script.
Create HintDb writers_folded.
#[local] Hint Unfold
  showToast await update_pc pc_addTracks addIceCandidate
  apply_remoteDescription apply_localDescription set_connectionState
  pc_close stop_tracks new_stream setInterval clearInterval set_connected
  socket_disconnect
  vr_set_listening vr_set_finalTranscript tr_set_listening
  addVoiceTranscript
  initSpeechRecognition startTransferSpeechRecognition cleanupVoiceCall
  endVoiceCall endWebRTCCall remove_transfer_transcript toggleVoiceMute
  webrtc_error startWebRTCCall startWebRTCCall_got_stream
  startWebRTCCall_got_offer startWebRTCCall_send_offer
  reset_pendingIceCandidates flush_pendingIceCandidates answer_applied
  initVoiceCall startVoiceCall startVoiceCall_settled
  handle_connect handle_call_started handle_transfer_call
  handle_agent_ready_for_call handle_webrtc_answer handle_webrtc_ice_candidate
  handle_webrtc_hangup handle_call_ended handle_no_agents_available
  handle_disconnect pc_onicecandidate pc_onconnectionstatechange
  socket_bookkeeping take_task
  : script writers_folded.
#[local] Hint Unfold showTransferTranscript addTransferTranscriptEntry
  : script.

Ltac framed_step :=
  lazymatch goal with
  | |- framed (mret _) => apply framed_ret
  | |- framed (gets _) => apply framed_gets
  | |- framed (throw _) => apply framed_throw
  | |- framed (mbind _ _) => apply framed_bind; [|intros ?]
  | |- framed (when _ _) => apply framed_when
  | |- framed (try_catch _ _) => apply framed_try_catch; [|intros ?]
  | |- framed (modify _) => apply framed_modify; frame_write
  | |- framed (match ?x with _ => _ end) => destruct x
  | |- framed _ => progress autounfold with handlers
  end.

Ltac framed_tac := repeat framed_step.


Lemma framed_voice_onresult_loop (r : nat) (rs : list SpeechResult) :
  framed (voice_onresult_loop r rs).
Proof.
  induction rs as [|res rest IH]; cbn [voice_onresult_loop]; [apply framed_ret|].
  apply framed_bind; [|intros _; exact IH]. framed_tac.
Qed.

Lemma framed_transfer_onresult_loop (sid a : option jsstring)
    (rs : list SpeechResult) :
  framed (transfer_onresult_loop sid a rs).
Proof.
  induction rs as [|res rest IH]; cbn [transfer_onresult_loop]; [apply framed_ret|].
  apply framed_bind; [|intros _; exact IH]. framed_tac.
Qed.

Lemma framed_on_socket (k : nat) (ev : SocketEvent) :
  ev <> on_connect -> framed (socket_bookkeeping k ev;; on_socket ev).
Proof.
  intros Hne. destruct ev; try congruence; clear Hne; unfold on_socket; framed_tac.
Qed.

Lemma framed_resume (t : Task) (r : Settlement) :
  t <> after_startVoiceCall_getUserMedia -> framed (resume t r).
Proof.
  intros Hne. destruct t; try congruence; clear Hne; destruct r; unfold resume;
    framed_tac.
Qed.

Lemma framed_take_task (t : nat) : framed (take_task t).
Proof.
  intros s. unfold take_task, modify, start_frame. cbn.
  repeat split; auto. apply in_insert_None.
Qed.

Lemma entered_valid_mono (tr tr' : list Event) (n p : jsstring) :
  entered_valid tr n p -> entered_valid (tr ++ tr') n p.
Proof.
  intros (ni & pi & Hin & H). exists ni, pi. split; [|exact H].
  apply in_or_app. left. exact Hin.
Qed.

Lemma permission_granted_mono (b : Browser) (tr tr' : list Event) :
  permission_granted b tr -> permission_granted b (tr ++ tr').
Proof.
  intros (tr1 & t & tr2 & -> & H). exists tr1, t, (tr2 ++ tr').
  split; [|exact H]. rewrite <- app_assoc. reflexivity.
Qed.

Lemma start_inv_frame (b : Browser) (tr : list Event) (e : Event) (s s' : State) :
  start_inv b tr s -> start_frame s s' -> start_inv b (tr ++ [e]) s'.
Proof.
  intros (I1 & I2 & I3) (F1 & F2 & F3 & F4 & F5). unfold start_inv.
  rewrite F1, F2. repeat split.
  - apply entered_valid_mono. eapply I1, F5, H.
  - apply permission_granted_mono. eapply I1, F5, H.
  - apply permission_granted_mono, I2.
    intros E. apply H. apply length_zero_iff_nil. rewrite F3, E. reflexivity.
  - apply entered_valid_mono, I2.
    intros E. apply H. apply length_zero_iff_nil. rewrite F3, E. reflexivity.
  - intros H. apply entered_valid_mono, I3, F4, H.
Qed.

Lemma start_inv_framed {A} (b : Browser) (tr : list Event) (e : Event)
    (s : State) (m : M A) :
  start_inv b tr s -> framed m -> start_inv b (tr ++ [e]) (exec m s).
Proof. intros HI Hm. eapply start_inv_frame; [exact HI | apply Hm]. Qed.

Lemma truthy_nonempty (x : jsstring) : JS.truthy x = true -> x <> [].
Proof. destruct x; [discriminate | discriminate]. Qed.

Lemma start_inv_click (b : Browser) (tr : list Event) (s : State)
    (ni pi : jsstring) :
  start_inv b tr s ->
  start_inv b (tr ++ [Click_startVoiceCall ni pi]) (exec (startVoiceCall ni pi) s).
Proof.
  intros HI. unfold startVoiceCall.
  destruct (JS.truthy (JS.trim ni)) eqn:Hn; cbn [negb];
    [|apply start_inv_framed; [exact HI | framed_tac]].
  destruct (JS.truthy (JS.trim pi)) eqn:Hp; cbn [negb orb];
    [|apply start_inv_framed; [exact HI | framed_tac]].
  destruct (bool_decide (length pi < 10)) eqn:Hl;
    [apply start_inv_framed; [exact HI | framed_tac]|].
  apply bool_decide_eq_false in Hl.
  assert (V : entered_valid (tr ++ [Click_startVoiceCall ni pi])
                (JS.trim ni) (JS.trim pi)).
  { exists ni, pi. split; [apply in_or_app; right; left; reflexivity|].
    repeat split; auto using truthy_nonempty. lia. }
  destruct HI as (I1 & I2 & I3).
  unfold await. mred.
  destruct (has_mediaDevices (browser s)); mred; repeat split; auto.
  all: try (intros; apply entered_valid_mono; eapply I1; eassumption).
  all: try (intros; apply permission_granted_mono; eapply I1; eassumption).
  all: try (intros; apply permission_granted_mono, I2; assumption).
Qed.

Lemma socket_live_nonempty (s : State) (k : nat) :
  socket_live s k = true -> sockets (runtime s) <> [].
Proof.
  unfold socket_live. intros H E. rewrite E in H. discriminate.
Qed.

Lemma start_inv_connect (b : Browser) (tr : list Event) (s : State) (k : nat) :
  socket_live s k = true ->
  start_inv b tr s ->
  start_inv b (tr ++ [FromSocket k on_connect])
    (exec (socket_bookkeeping k on_connect;; on_socket on_connect) s).
Proof.
  intros Hlive (I1 & I2 & I3).
  destruct (I2 (socket_live_nonempty s k Hlive)) as [G V].
  unfold on_socket, socket_bookkeeping, set_connected, handle_connect, emit,
    the_voiceSocket.
  mred. destruct (voiceSocket (globals s)) as [k'|]; mred; repeat split;
    eauto using entered_valid_mono, permission_granted_mono.
  all: try (intros; apply entered_valid_mono; eapply I1; eassumption).
  all: try (intros; apply permission_granted_mono; eapply I1; eassumption).
  cbn in H. apply in_app_or in H as [H|[H|[]]].
  - apply entered_valid_mono. eapply I1, H.
  - injection H as _ <- <-. apply entered_valid_mono, V.
Qed.

Lemma start_inv_granted (b : Browser) (tr : list Event) (t : nat) :
  let s := run (init b) tr in
  tasks (runtime s) !! t = Some (Some after_startVoiceCall_getUserMedia) ->
  start_inv b tr s ->
  start_inv b (tr ++ [Settle t Fulfilled])
    (exec (take_task t;; resume after_startVoiceCall_getUserMedia Fulfilled) s).
Proof.
  intros s Ht (I1 & I2 & I3).
  assert (G : permission_granted b (tr ++ [Settle t Fulfilled])).
  { exists tr, t, []. split; [reflexivity | exact Ht]. }
  assert (V : entered_valid (tr ++ [Settle t Fulfilled])
                (voiceUserName (globals s)) (voiceUserPhone (globals s))).
  { apply entered_valid_mono, I3. eapply lookup_In, Ht. }
  clearbody s.
  unfold resume, startVoiceCall_settled, take_task, new_stream, initVoiceCall,
    reset_pendingIceCandidates.
  mred. repeat split; auto.
  cbn in H. apply entered_valid_mono. eapply I1, H.
Qed.

Lemma start_inv_step (b : Browser) (tr : list Event) (e : Event) :
  start_inv b tr (run (init b) tr) ->
  start_inv b (tr ++ [e]) (step (run (init b) tr) e).
Proof.
  intros HI. set (s := run (init b) tr) in *.
  assert (Hstay : start_inv b (tr ++ [e]) s)
    by (eapply start_inv_frame; [exact HI | apply start_frame_refl]).
  destruct e as [ni pi| | | |k ev|t r|r ev|t ev|p c|p st|]; unfold step.
  - apply start_inv_click, HI.
  - apply start_inv_framed; [exact HI | framed_tac].
  - apply start_inv_framed; [exact HI | framed_tac].
  - destruct (transfer_transcript (dom s)); [|exact Hstay].
    apply start_inv_framed; [exact HI | framed_tac].
  - destruct (socket_live s k) eqn:Hlive; [|exact Hstay].
    destruct ev;
      try (apply start_inv_framed; [exact HI | apply framed_on_socket; discriminate]).
    apply start_inv_connect; assumption.
  - destruct (tasks (runtime s) !! t) as [[task|]|] eqn:Ht; try exact Hstay.
    destruct task;
      try (apply start_inv_framed; [exact HI|];
           apply framed_bind; [apply framed_take_task | intros _];
           apply framed_resume; discriminate).
    destruct r.
    + apply start_inv_granted; assumption.
    + apply start_inv_framed; [exact HI|].
      apply framed_bind; [apply framed_take_task | intros _].
      unfold resume, startVoiceCall_settled. framed_tac.
  - destruct (vrecogs (runtime s) !! r); [|exact Hstay].
    apply start_inv_framed; [exact HI | apply framed_voice_onresult_loop].
  - destruct (trecogs (runtime s) !! t); [|exact Hstay].
    apply start_inv_framed; [exact HI | apply framed_transfer_onresult_loop].
  - destruct (pcs (runtime s) !! p) as [pc|]; [|exact Hstay].
    destruct (pc_closed pc); [exact Hstay|].
    apply start_inv_framed; [exact HI | framed_tac].
  - destruct (pcs (runtime s) !! p) as [pc|]; [|exact Hstay].
    destruct (pc_closed pc); [exact Hstay|].
    apply start_inv_framed; [exact HI | framed_tac].
  - destruct (removal_timers (runtime s)); [exact Hstay|].
    apply start_inv_framed; [exact HI | framed_tac].
Qed.

Lemma start_inv_run (b : Browser) (tr : list Event) :
  start_inv b tr (run (init b) tr).
Proof.
  induction tr as [|e tr IH] using rev_ind.
  - unfold start_inv. cbn. repeat split; try contradiction; intros [].
  - rewrite run_snoc. apply start_inv_step, IH.
Qed.

(** C10. A [start_call] request is only sent after all three checks
    have passed. Whatever the events since the page was loaded: every
    [start_call] that went out carries the trimmed name and the trimmed
    phone number of some click on the start button whose name is not
    empty after trimming and whose phone number is not empty after
    trimming and at least 10 characters long as entered, and by then
    the microphone request of a [startVoiceCall] had been granted; and
    a socket exists only if such a grant and such a click have
    happened. So when a check fails no socket is created and nothing
    is sent. *)
Theorem start_call_only_after_all_checks (b : Browser) (tr : list Event) :
  let s := run (init b) tr in
  (forall k n p,
      In (k, start_call n p) (emitted (runtime s)) ->
      entered_valid tr n p /\ permission_granted b tr)
  /\ (sockets (runtime s) <> [] ->
      permission_granted b tr /\ exists n p, entered_valid tr n p).
Proof.
  intros s. destruct (start_inv_run b tr) as (I1 & I2 & _).
  split; [exact I1|]. intros H. destruct (I2 H) as [G V]. eauto.
Qed.

(** The theorem at the start of the call of [ai_phase_trace]. *)
Lemma start_call_only_after_all_checks_witness :
  In (0, start_call (JS.lit "Asha") (JS.lit "9876543210"))
    (emitted (runtime (run (init chrome) ai_phase_trace)))
  /\ entered_valid ai_phase_trace (JS.lit "Asha") (JS.lit "9876543210")
  /\ permission_granted chrome ai_phase_trace.
Proof.
  assert (H : In (0, start_call (JS.lit "Asha") (JS.lit "9876543210"))
                (emitted (runtime (run (init chrome) ai_phase_trace))))
    by (vm_compute; left; reflexivity).
  split; [exact H|].
  exact (proj1 (start_call_only_after_all_checks chrome ai_phase_trace) _ _ _ H).
Defined.

(** A failed check stops the start: a blank name, a nine character
    phone number, a refused microphone. The later grant and connect
    events find no pending request and no socket. *)
Example failed_checks_create_no_socket :
  let later := [Settle 0 Fulfilled; FromSocket 0 on_connect] in
  let blank_name :=
    run (init chrome)
      (Click_startVoiceCall (JS.lit "   ") (JS.lit "9876543210") :: later) in
  let short_phone :=
    run (init chrome)
      (Click_startVoiceCall (JS.lit "Asha") (JS.lit "987654321") :: later) in
  let refused :=
    run (init chrome)
      [Click_startVoiceCall (JS.lit "Asha") (JS.lit "9876543210");
       Settle 0 (Rejected (JS.lit "NotAllowedError")); FromSocket 0 on_connect] in
  (sockets (runtime blank_name) = [] /\ emitted (runtime blank_name) = [])
  /\ (sockets (runtime short_phone) = [] /\ emitted (runtime short_phone) = [])
  /\ (sockets (runtime refused) = [] /\ emitted (runtime refused) = []).
Proof. vm_compute. repeat split. Qed.

(** ** Only final recognition results leave the page *)

(** The loop of the AI phase: what it sends, what it writes, and that
    it leaves the socket alone. *)
Lemma voice_onresult_loop_spec (r : nat) (rs : list SpeechResult) :
  forall s : State,
    let s' := exec (voice_onresult_loop r rs) s in
    let texts :=
      List.filter JS.truthy
        (map (fun res => JS.trim (transcript res)) (List.filter isFinal rs)) in
    emitted (runtime s') =
      emitted (runtime s) ++
      match voiceSocket (globals s) with
      | Some k =>
          if voiceSocket_connected s
          then map (fun t => (k, user_message t)) texts else []
      | None => []
      end
    /\ voice_transcript (dom s') =
       voice_transcript (dom s) ++
       (if voiceSocket_connected s
        then map (mkEntry (JS.lit "customer")) texts else [])
    /\ transfer_transcript (dom s') = transfer_transcript (dom s)
    /\ globals s' = globals s
    /\ sockets (runtime s') = sockets (runtime s).
Proof.
  induction rs as [|res rest IH]; intros s.
  - cbn. 
    destruct (voiceSocket (globals s)), (voiceSocket_connected s); repeat split;
      cbn; rewrite ?app_nil_r; reflexivity.
  - cbn [voice_onresult_loop List.filter].
    destruct (isFinal res) eqn:Hfinal.
    + cbn [map List.filter].
      unfold vr_set_finalTranscript, addVoiceTranscript, emit, the_voiceSocket.
      mred.
      change (voiceSocket_connected (set_vrecogs _ s)) with (voiceSocket_connected s).
      destruct (voiceSocket_connected s) eqn:Hc;
        destruct (JS.truthy (JS.trim (transcript res))) eqn:Ht; mred.
      * destruct (voiceSocket (globals s)) as [k|] eqn:Hk;
          [|unfold voiceSocket_connected in Hc; rewrite Hk in Hc; discriminate].
        mred.
        match goal with |- context [voice_onresult_loop r rest ?x] =>
          specialize (IH x) end.
        mred.
        change (voiceSocket_connected _) with (voiceSocket_connected s) in IH.
        rewrite Hk, Hc in IH. destruct IH as (I1 & I2 & I3 & I4 & I5).
        rewrite I1, I2, I3, I4, I5, <- !app_assoc. repeat split.
      * match goal with |- context [voice_onresult_loop r rest ?x] =>
          specialize (IH x) end.
        mred.
        change (voiceSocket_connected _) with (voiceSocket_connected s) in IH.
        rewrite Hc in IH. exact IH.
      * match goal with |- context [voice_onresult_loop r rest ?x] =>
          specialize (IH x) end.
        mred.
        change (voiceSocket_connected _) with (voiceSocket_connected s) in IH.
        rewrite Hc in IH. destruct IH as (I1 & I2 & I3 & I4 & I5).
        rewrite I1, I2, I3, I4, I5.
        destruct (voiceSocket (globals s)); repeat split.
      * match goal with |- context [voice_onresult_loop r rest ?x] =>
          specialize (IH x) end.
        mred.
        change (voiceSocket_connected _) with (voiceSocket_connected s) in IH.
        rewrite Hc in IH. exact IH.
    + mred. apply IH.
Qed.

(** The loop of the human phase. Without a socket the first [emit]
    throws: the entry written just before it stays, nothing is sent
    and the loop is left. *)
Lemma transfer_onresult_loop_spec (sid a : option jsstring)
    (rs : list SpeechResult) :
  forall s : State,
    let s' := exec (transfer_onresult_loop sid a rs) s in
    let texts :=
      List.filter JS.truthy
        (map (fun res => JS.trim (transcript res)) (List.filter isFinal rs)) in
    emitted (runtime s') =
      emitted (runtime s) ++
      match voiceSocket (globals s) with
      | Some k => map (fun t => (k, call_transcript sid t (JS.lit "customer") a)) texts
      | None => []
      end
    /\ transfer_transcript (dom s') =
       (fun es => es ++ map (mkEntry (JS.lit "customer"))
                    (match voiceSocket (globals s) with
                     | Some _ => texts
                     | None => take 1 texts
                     end))
         <$> transfer_transcript (dom s)
    /\ voice_transcript (dom s') = voice_transcript (dom s)
    /\ globals s' = globals s.
Proof.
  induction rs as [|res rest IH]; intros s.
  - cbn.
    destruct (voiceSocket (globals s)), (transfer_transcript (dom s));
      cbn; rewrite ?app_nil_r; repeat split.
  - cbn [transfer_onresult_loop List.filter].
    destruct (isFinal res) eqn:Hfinal; [|mred; apply IH].
    cbn [map List.filter].
    destruct (JS.truthy (JS.trim (transcript res))) eqn:Ht; [|mred; apply IH].
    unfold addTransferTranscriptEntry, emit, the_voiceSocket. mred.
    destruct (transfer_transcript (dom s)) as [es|] eqn:Hes; mred;
      destruct (voiceSocket (globals s)) as [k|] eqn:Hk; mred.
    + match goal with |- context [transfer_onresult_loop sid a rest ?x] =>
        specialize (IH x) end.
      mred. rewrite ?Hk, ?Hes in IH. destruct IH as (I1 & I2 & I3 & I4).
      rewrite I1, I2, I3, I4, <- ?app_assoc. repeat split.
    + rewrite ?Hes, ?app_nil_r. repeat split.
    + match goal with |- context [transfer_onresult_loop sid a rest ?x] =>
        specialize (IH x) end.
      mred. rewrite ?Hk, ?Hes in IH. destruct IH as (I1 & I2 & I3 & I4).
      rewrite I1, I2, I3, I4, <- ?app_assoc. repeat split.
    + rewrite ?Hes, ?app_nil_r. repeat split.
Qed.

(** Every text of [final_texts] is the trimmed transcript of a result
    of the event that is marked final. *)
Lemma final_texts_final (ev : SpeechEvent) :
  Forall (fun t => exists res, In res (results ev) /\ isFinal res = true
                               /\ t = JS.trim (transcript res))
    (final_texts ev).
Proof.
  apply List.Forall_forall. intros t Ht. unfold final_texts in Ht.
  apply List.filter_In in Ht as [Ht _].
  apply List.in_map_iff in Ht as (res & <- & Hres).
  apply List.filter_In in Hres as [Hres Hfinal].
  exists res. split; [eapply In_drop; exact Hres | split; [exact Hfinal | reflexivity]].
Qed.

(** C5. A recognition result event sends and records final results
    only. In the AI phase the handler emits one [user_message] and
    writes one customer entry per text of [final_texts], in order, when
    the socket is connected, and nothing otherwise; in the human phase
    it emits one [call_transcript] and writes one customer entry per
    text of [final_texts] (without a socket the first [emit] throws:
    nothing is sent and at most the first entry is written). Every
    text of [final_texts] comes from a result marked final, so the text
    of an interim result is never emitted or written. *)
Theorem only_final_results_are_sent (s : State) (r : nat) (t : TransferRecog)
    (ev : SpeechEvent) :
  let ai := exec (voice_onresult r ev) s in
  let human := exec (transfer_onresult t ev) s in
  emitted (runtime ai) =
    emitted (runtime s) ++
    match voiceSocket (globals s) with
    | Some k =>
        if voiceSocket_connected s
        then map (fun x => (k, user_message x)) (final_texts ev) else []
    | None => []
    end
  /\ voice_transcript (dom ai) =
     voice_transcript (dom s) ++
     (if voiceSocket_connected s
      then map (mkEntry (JS.lit "customer")) (final_texts ev) else [])
  /\ transfer_transcript (dom ai) = transfer_transcript (dom s)
  /\ emitted (runtime human) =
     emitted (runtime s) ++
     match voiceSocket (globals s) with
     | Some k =>
         map (fun x => (k, call_transcript (tr_sessionId t) x (JS.lit "customer")
                             (tr_agentSocketId t))) (final_texts ev)
     | None => []
     end
  /\ transfer_transcript (dom human) =
     (fun es => es ++ map (mkEntry (JS.lit "customer"))
                  (match voiceSocket (globals s) with
                   | Some _ => final_texts ev
                   | None => take 1 (final_texts ev)
                   end))
       <$> transfer_transcript (dom s)
  /\ voice_transcript (dom human) = voice_transcript (dom s)
  /\ Forall (fun x => exists res, In res (results ev) /\ isFinal res = true
                                  /\ x = JS.trim (transcript res))
       (final_texts ev).
Proof.
  cbv zeta.
  destruct (voice_onresult_loop_spec r (drop (resultIndex ev) (results ev)) s)
    as (A1 & A2 & A3 & _).
  destruct (transfer_onresult_loop_spec (tr_sessionId t) (tr_agentSocketId t)
              (drop (resultIndex ev) (results ev)) s) as (B1 & B2 & B3 & _).
  repeat split; try assumption. apply final_texts_final.
Qed.

Example interim_only_sends_nothing :
  final_texts (mkSpeechEvent 0 [mkResult (JS.lit "hel") false;
                                mkResult (JS.lit "hello wor") false]) = [].
Proof. reflexivity. Qed.

Example final_is_sent_trimmed :
  final_texts (mkSpeechEvent 1 [mkResult (JS.lit "old ") true;
                                mkResult (JS.lit " swap battery ") true;
                                mkResult (JS.lit "plea") false])
  = [JS.lit "swap battery"].
Proof. reflexivity. Qed.

(** ** Handler bodies that leave an observation alone *)

Section Preserves.
Context {B : Type} (obs : State -> B).

Lemma preserves_ret {A} (a : A) : preserves obs (mret a).
Proof. intros s. reflexivity. Qed.

Lemma preserves_gets {A} (f : State -> A) : preserves obs (gets f).
Proof. intros s. reflexivity. Qed.

Lemma preserves_throw {A} (e : jsstring) : preserves obs (throw (A:=A) e).
Proof. intros s. reflexivity. Qed.

Lemma preserves_modify (f : State -> State) :
  (forall s, obs (f s) = obs s) -> preserves obs (modify f).
Proof. intros H s. apply H. Qed.

Lemma preserves_bind {A C} (m : M A) (f : A -> M C) :
  preserves obs m -> (forall a, preserves obs (f a)) -> preserves obs (m ≫= f).
Proof.
  intros Hm Hf s. specialize (Hm s). unfold mbind, M_bind.
  destruct (m s) as [s' [a|e]]; cbn in *; [|exact Hm].
  rewrite Hf. exact Hm.
Qed.

Lemma preserves_try_catch (m : M unit) (h : jsstring -> M unit) :
  preserves obs m -> (forall e, preserves obs (h e)) -> preserves obs (try_catch m h).
Proof.
  intros Hm Hh s. specialize (Hm s). unfold try_catch.
  destruct (m s) as [s' [a|e]]; cbn in *; [exact Hm|].
  rewrite Hh. exact Hm.
Qed.

Lemma preserves_when (b : bool) (m : M unit) :
  preserves obs m -> preserves obs (when b m).
Proof. intros H. destruct b; [exact H | apply preserves_ret]. Qed.

End Preserves.

Ltac preserves_step :=
  lazymatch goal with
  | |- preserves _ (mret _) => apply preserves_ret
  | |- preserves _ (gets _) => apply preserves_gets
  | |- preserves _ (throw _) => apply preserves_throw
  | |- preserves _ (mbind _ _) => apply preserves_bind; [|intros ?]
  | |- preserves _ (when _ _) => apply preserves_when
  | |- preserves _ (try_catch _ _) => apply preserves_try_catch; [|intros ?]
  | |- preserves _ (modify _) => apply preserves_modify; intros ?; reflexivity
  | |- preserves _ (match ?x with _ => _ end) => destruct x
  | |- preserves _ (emit _) => unfold emit
  | |- preserves _ _ => progress autounfold with script
  end.

Ltac preserves_tac := repeat preserves_step.

(** ** Transcripts *)





(** In the session of [transferring_trace], a reply of the AI and a
    line relayed from the agent end up in different sequences. *)
Example ai_and_human_entries_apart :
  let s := run (init chrome)
             (transferring_trace ++
              [ FromSocket 0 (on_agent_response (Some (JS.lit "One moment")));
                FromSocket 0 (on_call_transcript (Some (JS.lit "agent"))
                                (Some (JS.lit "Hi, this is Ravi"))) ]) in
  voice_transcript (dom s)
  = [mkEntry (JS.lit "agent") (JS.lit "Hello");
     mkEntry (JS.lit "agent") (JS.lit "One moment")]
  /\ transfer_transcript (dom s)
     = Some [mkEntry (JS.lit "agent") (JS.lit "Hi, this is Ravi")].
Proof. vm_compute. split; reflexivity. Qed.


Lemma removal_timeout_drops_transfer_transcript (s : State) (n : nat) :
  removal_timers (runtime s) = S n ->
  transfer_transcript (dom (step s RemovalTimeout)) = None.
Proof. intros H. unfold step. rewrite H. reflexivity. Qed.


(** Both removals happen while the call is on: [voiceCallActive] is
    set before and after. *)
Example entries_removed_in_a_running_call :
  let restart := FromSocket 0 (on_call_started (Some (JS.lit "s2"))
                                 (Some (JS.lit "Hello again"))) in
  let ai := run (init chrome) ai_phase_trace in
  let hung_up := run (init chrome) hung_up_trace in
  (voiceCallActive (globals ai) = true
   /\ voiceCallActive (globals (step ai restart)) = true
   /\ voice_transcript (dom ai) = [mkEntry (JS.lit "agent") (JS.lit "Hello")]
   /\ voice_transcript (dom (step ai restart))
      = [mkEntry (JS.lit "agent") (JS.lit "Hello again")])
  /\ (voiceCallActive (globals hung_up) = true
      /\ voiceCallActive (globals (step hung_up RemovalTimeout)) = true
      /\ transfer_transcript (dom hung_up)
         = Some [mkEntry (JS.lit "agent") (JS.lit "Hi, this is Ravi")]
      /\ transfer_transcript (dom (step hung_up RemovalTimeout)) = None).
Proof. vm_compute. repeat split. Qed.

(** *** What every event keeps *)

#[local] Instance voice_entries_kept_refl : Reflexive voice_entries_kept.
Proof. intros s. unfold voice_entries_kept. reflexivity. Qed.

#[local] Instance voice_entries_kept_trans : Transitive voice_entries_kept.
Proof. intros s1 s2 s3. unfold voice_entries_kept. apply transitivity. Qed.

#[local] Instance transfer_entries_kept_refl : Reflexive transfer_entries_kept.
Proof.
  intros s. unfold transfer_entries_kept.
  destruct (transfer_transcript (dom s)); eauto.
Qed.

#[local] Instance transfer_entries_kept_trans : Transitive transfer_entries_kept.
Proof.
  intros s1 s2 s3. unfold transfer_entries_kept.
  destruct (transfer_transcript (dom s1)) as [e1|]; [|trivial].
  intros (e2 & -> & H12) (e3 & -> & H23). exists e3. split; [reflexivity|].
  etrans; eassumption.
Qed.

Section Relates.
Context (R : State -> State -> Prop) `{!Reflexive R} `{!Transitive R}.








End Relates.














(** ** Room identifiers *)

Lemma lit_inj (a b : string) : JS.lit a = JS.lit b -> a = b.
Proof.
  unfold JS.lit. intros H.
  rewrite <- (string_of_list_ascii_of_string a), <- (string_of_list_ascii_of_string b).
  f_equal. revert H.
  generalize (list_ascii_of_string a) (list_ascii_of_string b).
  induction l as [|x l IH]; intros [|y l']; cbn; intros H; try discriminate; auto.
  injection H as H1 H2. f_equal; [|auto].
  rewrite <- (ascii_N_embedding x), <- (ascii_N_embedding y). congruence.
Qed.

Lemma to_int_not_nil (z : Z) :
  Z.to_int z <> Decimal.Pos Decimal.Nil /\ Z.to_int z <> Decimal.Neg Decimal.Nil.
Proof.
  destruct z; cbn; split; try discriminate; intros [= H];
    exact (DecimalPos.Unsigned.to_uint_nonnil _ H).
Qed.

Lemma ofZ_inj (a b : Z) : JS.ofZ a = JS.ofZ b -> a = b.
Proof.
  unfold JS.ofZ. intros H%lit_inj.
  apply DecimalZ.to_int_inj.
  destruct (to_int_not_nil a) as [A1 A2], (to_int_not_nil b) as [B1 B2].
  pose proof (NilZero.isi _ A1 A2) as Ea. pose proof (NilZero.isi _ B1 B2) as Eb.
  rewrite H in Ea. congruence.
Qed.

Lemma string_of_uint_no_underscore (d : Decimal.uint) :
  ~ In 95%N (JS.lit (NilEmpty.string_of_uint d)).
Proof.
  unfold JS.lit. induction d; cbn;
    [intros [] | intros [H|H]; [discriminate | auto] ..].
Qed.

Lemma ofZ_no_underscore (n : Z) : ~ In 95%N (JS.ofZ n).
Proof.
  unfold JS.ofZ, NilZero.string_of_int, NilZero.string_of_uint.
  destruct (Z.to_int n) as [d|d].
  - destruct d; try apply string_of_uint_no_underscore.
    unfold JS.lit; cbn. intros [H|[]]; discriminate.
  - assert (H : forall s, ~ In 95%N (JS.lit s) -> ~ In 95%N (JS.lit (String "-" s))).
    { intros s Hs [H|H]; [discriminate | exact (Hs H)]. }
    apply H. destruct d; try apply string_of_uint_no_underscore.
    unfold JS.lit; cbn. intros [H'|[]]; discriminate.
Qed.

(** The text after the last separator determines the split. *)
Lemma split_at_last (x : N) (a a' d d' : jsstring) :
  ~ In x d -> ~ In x d' ->
  a ++ x :: d = a' ++ x :: d' -> a = a' /\ d = d'.
Proof.
  intros Hd Hd'. revert a'.
  induction a as [|y a IH]; intros [|y' a'] H; cbn in H.
  - injection H as ->. auto.
  - injection H as <- ->. exfalso. apply Hd, in_or_app. right. left. reflexivity.
  - injection H as -> <-. exfalso. apply Hd', in_or_app. right. left. reflexivity.
  - injection H as -> H. destruct (IH _ H) as [-> ->]. auto.
Qed.

Lemma roomName_inj (sid sid' : option jsstring) (t t' : Z) :
  roomName sid t = roomName sid' t' <-> JS.toStr sid = JS.toStr sid' /\ t = t'.
Proof.
  split.
  - unfold roomName. intros H. apply app_inv_head in H.
    change (JS.lit "_") with [95%N] in H. cbn [app] in H.
    apply split_at_last in H as [H1 H2]; auto using ofZ_no_underscore.
    split; [exact H1 | apply ofZ_inj, H2].
  - intros [H ->]. unfold roomName. rewrite H. reflexivity.
Qed.

Lemma voice_roomName_inj (sid : option jsstring) (t t' : Z) :
  Voice.roomName sid t = Voice.roomName sid t' <-> t = t'.
Proof.
  split.
  - unfold Voice.roomName. intros H. do 2 apply app_inv_head in H.
    apply ofZ_inj, H.
  - intros ->. reflexivity.
Qed.

(** What the [transfer_call] handler adds to the room identifiers sent. *)
Lemma handle_transfer_call_room_names (s : State)
    (sid reason message : option jsstring) (now : Z) :
  room_names (exec (handle_transfer_call sid reason message now) s) =
  room_names s ++
  match voiceSocket (globals s) with
  | Some _ => [roomName sid now]
  | None => []
  end.
Proof.
  unfold handle_transfer_call, showToast, vr_set_listening, showTransferTranscript,
    emit, the_voiceSocket, room_names.
  mred.
  destruct (voiceRecognition (globals s)); mred;
    destruct (transfer_transcript (dom s)); mred;
    destruct (voiceSocket (globals s)); mred;
    rewrite ?omap_app, ?app_nil_r; reflexivity.
Qed.

(** C7 fails on the code. The identifier is made of the session id and
    of the millisecond clock and of nothing else, so it is not unique
    per attempt: two hand-over attempts for one session that reach the
    page within one millisecond ask for the same room. *)
Theorem same_millisecond_same_room :
  ~ NoDup (room_names (run (init chrome) same_millisecond_trace)).
Proof.
  apply (not_NoDup_twice _ (roomName (Some (JS.lit "s1")) 1700000000000)).
  vm_compute. reflexivity.
Qed.

(** ** First accept wins *)

(** Once [window.peerConnection] is set, an [agent_ready_for_call]
    event is ignored. *)
Lemma agent_ready_ignored_with_connection (s : State) (p : nat)
    (agent_sid session_id agent_id : option jsstring) :
  peerConnection (window s) = Some p ->
  exec (handle_agent_ready_for_call agent_sid session_id agent_id) s = s.
Proof.
  intros H. unfold handle_agent_ready_for_call, the_peerConnection. mred.
  rewrite H. reflexivity.
Qed.

(** Until then it is not: the guard reads [window.peerConnection],
    which [startWebRTCCall] sets only after its microphone request has
    been answered, so an acceptance that arrives in between starts a
    second [startWebRTCCall]. *)
Lemma agent_ready_accepted_without_connection (s : State)
    (agent_sid session_id agent_id : option jsstring) :
  peerConnection (window s) = None ->
  has_mediaDevices (browser s) = true ->
  let s' := exec (handle_agent_ready_for_call agent_sid session_id agent_id) s in
  tasks (runtime s') =
    tasks (runtime s) ++ [Some (after_startWebRTCCall_getUserMedia agent_sid session_id)]
  /\ agentSocketId (window s') = agent_sid.
Proof.
  intros H Hmd. unfold handle_agent_ready_for_call, the_peerConnection,
    startWebRTCCall, showToast, await.
  mred. rewrite H. mred. rewrite Hmd. mred. split; reflexivity.
Qed.

(** C1 fails on the code. Two [agent_ready_for_call] events for one
    session, the second arriving while the microphone request of the
    first is pending: two peer connections are created, the recorded
    agent address is the second one, and an offer goes to each agent.
    When the second event arrives after the first connection exists it
    is ignored, as the comment on the guard intends. *)
Theorem second_accept_during_setup_opens_second_connection :
  let raced := run (init chrome) two_agents_trace in
  let in_turn := run (init chrome) two_agents_in_turn_trace in
  length (pcs (runtime raced)) = 2
  /\ pc_agentSocketId <$> pcs (runtime raced)
     = [Some (JS.lit "agentA"); Some (JS.lit "agentB")]
  /\ pc_closed <$> pcs (runtime raced) = [false; false]
  /\ agentSocketId (window raced) = Some (JS.lit "agentB")
  /\ peerConnection (window raced) = Some 1
  /\ offer_targets raced = [Some (JS.lit "agentA"); Some (JS.lit "agentB")]
  /\ live_streams raced = [0; 1; 2]
  /\ length (pcs (runtime in_turn)) = 1
  /\ agentSocketId (window in_turn) = Some (JS.lit "agentA")
  /\ offer_targets in_turn = [Some (JS.lit "agentA")].
Proof. vm_compute. repeat split. Qed.

(** ** Candidates that arrive before the answer *)

Lemma set_arrays_same (s : State) : set_arrays (arrays (runtime s)) s = s.
Proof. destruct s as [g w d [] b]. reflexivity. Qed.

Lemma set_pcs_same (s : State) : set_pcs (pcs (runtime s)) s = s.
Proof. destruct s as [g w d [] b]. reflexivity. Qed.

Lemma with_candidates_nil (pc : PeerConnection) : with_candidates pc [] = pc.
Proof. destruct pc. unfold with_candidates. cbn. rewrite app_nil_r. reflexivity. Qed.

Lemma with_candidates_app (pc : PeerConnection) (l1 l2 : list Candidate) :
  with_candidates (with_candidates pc l1) l2 = with_candidates pc (l1 ++ l2).
Proof. destruct pc. unfold with_candidates. cbn. rewrite <- app_assoc. reflexivity. Qed.

Section Flush.

(** The socket [k] of the session, its peer connection [p] and its
    queue array [a]. *)
Variables (k p a : nat).

(** A candidate that arrives while the connection has no remote
    description goes to the end of the queue. *)
Lemma ice_candidate_queued (s : State) (pc : PeerConnection)
    (q : list Candidate) (c : Candidate) :
  socket_live s k = true ->
  peerConnection (window s) = Some p ->
  pcs (runtime s) !! p = Some pc ->
  remoteDescription pc = None ->
  pendingIceCandidates (window s) = Some a ->
  arrays (runtime s) !! a = Some q ->
  step s (FromSocket k (on_webrtc_ice_candidate (Some c))) =
  set_arrays (<[a := q ++ [c]]> (arrays (runtime s))) s.
Proof.
  intros Hlive Hp Hpc Hrd Ha Hq. unfold step. rewrite Hlive.
  unfold on_socket, socket_bookkeeping, handle_webrtc_ice_candidate,
    has_remoteDescription. mred.
  rewrite Hp, Hpc, Hrd. mred. rewrite Ha. mred.
  rewrite (alter_lookup_insert _ _ _ _ Hq). reflexivity.
Qed.

Lemma ice_events_queued (pc : PeerConnection) (cs : list Candidate) :
  forall (s : State) (q : list Candidate),
  socket_live s k = true ->
  peerConnection (window s) = Some p ->
  pcs (runtime s) !! p = Some pc ->
  remoteDescription pc = None ->
  pendingIceCandidates (window s) = Some a ->
  arrays (runtime s) !! a = Some q ->
  run s (ice_events k cs) =
  set_arrays (<[a := q ++ cs]> (arrays (runtime s))) s.
Proof.
  induction cs as [|c cs IH]; intros s q Hlive Hp Hpc Hrd Ha Hq.
  - cbn. rewrite app_nil_r, list_insert_id by exact Hq.
    symmetry. apply set_arrays_same.
  - cbn [ice_events map run foldl].
    rewrite (ice_candidate_queued s pc q c) by assumption.
    fold (ice_events k cs).
    fold (run (set_arrays (<[a:=q ++ [c]]> (arrays (runtime s))) s) (ice_events k cs)).
    rewrite (IH _ (q ++ [c])); try assumption.
    + cbn. rewrite list_insert_insert_eq, <- app_assoc. reflexivity.
    + cbn. apply list_lookup_insert_eq. eapply lookup_lt_Some, Hq.
Qed.

(** A candidate that arrives once the remote description is set is
    handed to the connection at once. *)
Lemma ice_candidate_direct (s : State) (pc : PeerConnection) (c : Candidate) :
  socket_live s k = true ->
  peerConnection (window s) = Some p ->
  pcs (runtime s) !! p = Some pc ->
  is_Some (remoteDescription pc) ->
  step s (FromSocket k (on_webrtc_ice_candidate (Some c))) =
  set_pcs (<[p := with_candidates pc [c]]> (pcs (runtime s))) s.
Proof.
  intros Hlive Hp Hpc Hrd. unfold step. rewrite Hlive.
  unfold on_socket, socket_bookkeeping, handle_webrtc_ice_candidate,
    has_remoteDescription, addIceCandidate, the_peerConnection. mred.
  rewrite Hp, Hpc. rewrite (bool_decide_eq_true_2 _ Hrd). mred. rewrite Hp. mred.
  rewrite (alter_lookup_insert _ _ _ _ Hpc). reflexivity.
Qed.

Lemma ice_events_direct (cs : list Candidate) :
  forall (s : State) (pc : PeerConnection),
  socket_live s k = true ->
  peerConnection (window s) = Some p ->
  pcs (runtime s) !! p = Some pc ->
  is_Some (remoteDescription pc) ->
  run s (ice_events k cs) =
  set_pcs (<[p := with_candidates pc cs]> (pcs (runtime s))) s.
Proof.
  induction cs as [|c cs IH]; intros s pc Hlive Hp Hpc Hrd.
  - cbn. rewrite with_candidates_nil, list_insert_id by exact Hpc.
    symmetry. apply set_pcs_same.
  - cbn [ice_events map run foldl].
    rewrite (ice_candidate_direct s pc c) by assumption.
    fold (ice_events k cs).
    fold (run (set_pcs (<[p:=with_candidates pc [c]]> (pcs (runtime s))) s) (ice_events k cs)).
    rewrite (IH _ (with_candidates pc [c])); try assumption.
    + cbn. rewrite list_insert_insert_eq, with_candidates_app. reflexivity.
    + cbn. apply list_lookup_insert_eq. eapply lookup_lt_Some, Hpc.
Qed.

(** The flush loop from index [i] on, with candidates arriving while
    it waits. *)
Lemma flush_run (rest : list Candidate) :
  forall (i : nat) (s : State) (steps : list (Settlement * list Candidate))
         (pc0 : PeerConnection) (arr : list Candidate),
  socket_live s k = true ->
  peerConnection (window s) = Some p ->
  pcs (runtime s) !! p = Some pc0 ->
  is_Some (remoteDescription pc0) ->
  arrays (runtime s) !! a = Some arr ->
  drop i arr = rest ->
  length steps = length rest ->
  let s' := run (exec (flush_pendingIceCandidates a i) s)
              (flush_events k (length (tasks (runtime s))) steps) in
  pcs (runtime s') !! p = Some (with_candidates pc0 (applied_in_flush rest steps))
  /\ exists a', pendingIceCandidates (window s') = Some a'
                /\ arrays (runtime s') !! a' = Some [].
Proof.
  induction rest as [|c rest IH];
    intros i s steps pc0 arr Hlive Hp Hpc Hrd Harr Hdrop Hlen s'.
  - destruct steps; [|discriminate]. subst s'. cbn [flush_events run foldl].
    apply drop_nil_inv in Hdrop.
    unfold flush_pendingIceCandidates, reset_pendingIceCandidates. mred.
    rewrite Harr. cbn. rewrite Hdrop. mred.
    unfold applied_in_flush. cbn. rewrite with_candidates_nil. split; [exact Hpc|].
    eexists. split; [reflexivity|]. apply list_lookup_middle. reflexivity.
  - destruct steps as [|[o late] steps]; [discriminate|]. injection Hlen as Hlen.
    apply drop_cons_inv in Hdrop as [Hi Hdrop]. subst s'.
    cbn [flush_events]. rewrite run_app.
    set (n := length (tasks (runtime s))).
    assert (E1 : exec (flush_pendingIceCandidates a i) s =
                 set_tasks (tasks (runtime s) ++ [Some (after_queued_addIceCandidate a (S i))])
                   (set_pcs (<[p := with_candidates pc0 [c]]> (pcs (runtime s))) s)).
    { unfold flush_pendingIceCandidates, addIceCandidate, await, the_peerConnection.
      mred. rewrite Harr. cbn. rewrite Hi. mred. rewrite Hp. mred.
      rewrite (alter_lookup_insert _ _ _ _ Hpc). reflexivity. }
    rewrite E1. clear E1.
    match goal with |- context [run ?x (ice_events k late)] => set (s1 := x) end.
    assert (Hpc1 : pcs (runtime s1) !! p = Some (with_candidates pc0 [c])).
    { subst s1. cbn. apply list_lookup_insert_eq. eapply lookup_lt_Some, Hpc. }
    rewrite (ice_events_direct late s1 (with_candidates pc0 [c]));
      [|exact Hlive|exact Hp|exact Hpc1|exact Hrd].
    rewrite with_candidates_app.
    match goal with |- context [run ?x (Settle n o :: _)] => set (s1' := x) end.
    cbn [run foldl].
    assert (E2 : step s1' (Settle n o) =
                 exec (flush_pendingIceCandidates a (S i))
                   (set_tasks (<[n := None]> (tasks (runtime s1'))) s1')).
    { unfold step. subst s1' s1. cbn [tasks runtime set_tasks set_pcs upd_runtime].
      rewrite list_lookup_middle by reflexivity.
      unfold take_task. mred. destruct o; reflexivity. }
    rewrite E2. clear E2.
    match goal with |- context [exec (flush_pendingIceCandidates a (S i)) ?x] =>
      set (s2 := x) end.
    assert (Hn : S n = length (tasks (runtime s2))).
    { subst s2 s1' s1. cbn. rewrite length_insert, length_app. cbn. subst n. lia. }
    rewrite Hn.
    fold (run (exec (flush_pendingIceCandidates a (S i)) s2)
              (flush_events k (length (tasks (runtime s2))) steps)).
    specialize (IH (S i) s2 steps (with_candidates pc0 ([c] ++ late)) arr).
    rewrite with_candidates_app in IH.
    unfold applied_in_flush in *. cbn [zip_with concat snd].
    apply IH; try assumption.
    subst s2 s1' s1. cbn. rewrite list_insert_insert_eq.
    apply list_lookup_insert_eq. eapply lookup_lt_Some, Hpc.
Qed.

End Flush.

(** C2. Candidates that arrive before the remote description is set
    are queued and flushed in order, none is lost. In a session whose
    connection [p] has no remote description and whose queue holds
    [q], let the candidates [before] arrive, then the [webrtc_answer],
    then the candidates [during] while [setRemoteDescription] is still
    pending; let that promise be fulfilled, and let the
    [addIceCandidate] promises of the flush settle one after the other,
    each fulfilled or rejected, possibly with further candidates
    arriving in between ([steps]). Then: when the description is
    applied the queue holds [q ++ before ++ during] and the connection
    has been handed nothing; at the end the connection has the remote
    description and was handed, after what it had, each queued
    candidate exactly once and in arrival order, each followed by the
    candidates that arrived while its promise was pending
    ([applied_in_flush]), which is the queue itself when none arrived;
    and the queue is empty. *)
Theorem queued_candidates_flushed_in_order (s : State) (k p a : nat)
    (pc : PeerConnection) (q before during : list Candidate) (answer : N)
    (steps : list (Settlement * list Candidate)) :
  socket_live s k = true ->
  peerConnection (window s) = Some p ->
  pcs (runtime s) !! p = Some pc ->
  remoteDescription pc = None ->
  pendingIceCandidates (window s) = Some a ->
  arrays (runtime s) !! a = Some q ->
  length steps = length (q ++ before ++ during) ->
  let n := length (tasks (runtime s)) in
  let s1 := run s (ice_events k before
                   ++ FromSocket k (on_webrtc_answer (Some answer))
                   :: ice_events k during) in
  let s2 := run s1 (Settle n Fulfilled :: flush_events k (S n) steps) in
  arrays (runtime s1) !! a = Some (q ++ before ++ during)
  /\ pcs (runtime s1) = pcs (runtime s)
  /\ pcs (runtime s2) !! p =
     Some (with_candidates (with_remoteDescription pc answer)
             (applied_in_flush (q ++ before ++ during) steps))
  /\ (exists a', pendingIceCandidates (window s2) = Some a'
                 /\ arrays (runtime s2) !! a' = Some [])
  /\ (Forall (fun st => snd st = []) steps ->
      applied_in_flush (q ++ before ++ during) steps = q ++ before ++ during).
Proof.
  intros Hlive Hp Hpc Hrd Ha Hq Hlen n s1 s2.
  set (sA := set_arrays (<[a := q ++ before]> (arrays (runtime s))) s).
  set (sB := set_tasks (tasks (runtime sA) ++ [Some (after_setRemoteDescription p answer)]) sA).
  set (sC := set_arrays (<[a := (q ++ before) ++ during]> (arrays (runtime sB))) sB).
  assert (Hlt : a < length (arrays (runtime s))) by (eapply lookup_lt_Some, Hq).
  assert (HqA : arrays (runtime sA) !! a = Some (q ++ before))
    by (subst sA; cbn; apply list_lookup_insert_eq, Hlt).
  assert (Hs1 : s1 = sC).
  { subst s1. rewrite run_app.
    rewrite (ice_events_queued k p a pc before s q) by assumption.
    fold sA. cbn [run foldl].
    assert (E : step sA (FromSocket k (on_webrtc_answer (Some answer))) = sB).
    { unfold step. change (socket_live sA k) with (socket_live s k). rewrite Hlive.
      unfold on_socket, socket_bookkeeping, handle_webrtc_answer, the_peerConnection, await.
      mred. rewrite Hp. reflexivity. }
    rewrite E. fold (run sB (ice_events k during)).
    apply (ice_events_queued k p a pc during sB (q ++ before)); assumption. }
  assert (Hlook : arrays (runtime s1) !! a = Some (q ++ before ++ during)).
  { rewrite Hs1. subst sC sB sA. cbn. rewrite list_insert_insert_eq, <- app_assoc.
    apply list_lookup_insert_eq, Hlt. }
  split; [exact Hlook|]. split; [rewrite Hs1; reflexivity|].
  assert (Hp1 : peerConnection (window s1) = Some p) by (rewrite Hs1; exact Hp).
  assert (Hpc1 : pcs (runtime s1) !! p = Some pc) by (rewrite Hs1; exact Hpc).
  assert (Ha1 : pendingIceCandidates (window s1) = Some a) by (rewrite Hs1; exact Ha).
  assert (Hlive1 : socket_live s1 k = true) by (rewrite Hs1; exact Hlive).
  assert (Ht1 : tasks (runtime s1) =
                tasks (runtime s) ++ [Some (after_setRemoteDescription p answer)])
    by (rewrite Hs1; reflexivity).
  subst s2. clearbody s1. subst n.
  generalize dependent (tasks (runtime s)). intros ts Ht1.
  clear sA sB sC HqA Hs1 Hlive Hp Hpc Ha Hq Hlt s.
  set (n := length ts).
  cbn [run foldl].
  assert (E2 : step s1 (Settle n Fulfilled) =
               exec (answer_applied p answer)
                 (set_tasks (<[n := None]> (tasks (runtime s1))) s1)).
  { unfold step. rewrite Ht1.
    rewrite list_lookup_middle by reflexivity. rewrite <- Ht1. reflexivity. }
  rewrite E2. clear E2.
  match goal with |- context [exec (answer_applied p answer) ?x] => set (sb := x) end.
  set (sc := set_pcs (<[p := with_remoteDescription pc answer]> (pcs (runtime sb))) sb).
  assert (Hpcc : pcs (runtime sc) !! p = Some (with_remoteDescription pc answer)).
  { subst sc sb. cbn. apply list_lookup_insert_eq. eapply lookup_lt_Some, Hpc1. }
  assert (Hnc : length (tasks (runtime sc)) = S n).
  { subst sc sb. cbn. rewrite length_insert, Ht1, length_app. cbn. lia. }
  assert (E3 : exec (answer_applied p answer) sb =
               if bool_decide (0 < length (q ++ before ++ during))
               then exec (flush_pendingIceCandidates a 0) sc else sc).
  { unfold answer_applied, apply_remoteDescription. mred.
    subst sb. cbn. rewrite Ha1. mred. rewrite Hlook. cbn.
    rewrite (alter_lookup_insert _ _ _ _ Hpc1).
    destruct (bool_decide (0 < length (q ++ before ++ during))); reflexivity. }
  rewrite E3. clear E3.
  assert (Hno_late : Forall (fun st : Settlement * list Candidate => snd st = []) steps ->
            applied_in_flush (q ++ before ++ during) steps = q ++ before ++ during).
  { intros Hall. clear -Hall Hlen. revert Hlen.
    generalize (q ++ before ++ during). intros l. revert l.
    unfold applied_in_flush.
    induction Hall as [|[o late] steps Hl _ IH]; intros [|c l] Hlen;
      try discriminate; cbn in *; [reflexivity|].
    subst late. f_equal. apply IH. injection Hlen as Hlen. exact Hlen. }
  destruct (q ++ before ++ during) as [|c0 rest] eqn:Hqc.
  - destruct steps; [|discriminate]. cbn [flush_events foldl length bool_decide].
    rewrite bool_decide_eq_false_2 by (cbn; lia).
    unfold applied_in_flush. cbn. rewrite with_candidates_nil.
    split; [exact Hpcc|]. split; [|intros _; reflexivity].
    exists a. split; [exact Ha1 | exact Hlook].
  - rewrite bool_decide_eq_true_2 by (cbn; lia). rewrite <- Hnc.
    fold (run (exec (flush_pendingIceCandidates a 0) sc)
              (flush_events k (length (tasks (runtime sc))) steps)).
    destruct (flush_run k p a (c0 :: rest) 0 sc steps
                (with_remoteDescription pc answer) (c0 :: rest)) as [R1 R2];
      try assumption; try reflexivity.
    + cbn. eauto.
    + split; [exact R1|]. split; [exact R2 | exact Hno_late].
Qed.

(** The theorem in the session of [negotiating_trace]: two candidates
    arrive before the answer and one while the description is being
    set; the second [addIceCandidate] is rejected and its rejection
    caught, and a fourth candidate arrives while it is pending. *)
Lemma queued_candidates_flushed_in_order_witness :
  let s := run (init chrome) negotiating_trace in
  let pc := mkPC (Some (JS.lit "agentA")) (Some (JS.lit "s1")) [1]
              (Some (LocalOffer 0)) None cs_new [] false in
  let steps := [(Fulfilled, []); (Rejected (JS.lit "OperationError"), [ice 14]);
                (Fulfilled, [])] in
  let n := length (tasks (runtime s)) in
  let s1 := run s (ice_events 0 [ice 11; ice 12]
                   ++ FromSocket 0 (on_webrtc_answer (Some 7%N))
                   :: ice_events 0 [ice 13]) in
  let s2 := run s1 (Settle n Fulfilled :: flush_events 0 (S n) steps) in
  pcs (runtime s) !! 0 = Some pc
  /\ pcs (runtime s2) !! 0 =
     Some (with_candidates (with_remoteDescription pc 7)
             (applied_in_flush ([] ++ [ice 11; ice 12] ++ [ice 13]) steps)).
Proof.
  intros s pc steps n s1 s2.
  assert (Hpc : pcs (runtime s) !! 0 = Some pc) by (vm_compute; reflexivity).
  split; [exact Hpc|].
  refine (proj1 (proj2 (proj2
    (queued_candidates_flushed_in_order s 0 0 0 pc [] [ice 11; ice 12] [ice 13]
       7 steps _ _ Hpc _ _ _ _)))).
  - vm_compute; reflexivity.
  - vm_compute; reflexivity.
  - reflexivity.
  - vm_compute; reflexivity.
  - vm_compute; reflexivity.
  - reflexivity.
Defined.

Example queued_candidates_applied_in_order :
  let s := run (init chrome) negotiating_trace in
  let s2 := run s
    [ FromSocket 0 (on_webrtc_ice_candidate (Some (ice 11)));
      FromSocket 0 (on_webrtc_ice_candidate (Some (ice 12)));
      FromSocket 0 (on_webrtc_answer (Some 7%N));
      FromSocket 0 (on_webrtc_ice_candidate (Some (ice 13)));
      Settle 4 Fulfilled;
      Settle 5 Fulfilled;
      FromSocket 0 (on_webrtc_ice_candidate (Some (ice 14)));
      Settle 6 (Rejected (JS.lit "OperationError"));
      Settle 7 Fulfilled;
      Settle 8 Fulfilled ] in
  candidates <$> pcs (runtime s2) !! 0 = Some [ice 11; ice 12; ice 14; ice 13]
  /\ (arrays (runtime s2) !!.) <$> pendingIceCandidates (window s2)
     = Some (Some []).
Proof. vm_compute. split; reflexivity. Qed.

(** ** Dispatch failure while waiting for an agent *)

(** The handler of [no_agents_available] writes a toast and the status
    line and nothing else. *)
Lemma handle_no_agents_available_exec (s : State) (message : option jsstring) :
  exec (handle_no_agents_available message) s =
  set_agent_status (JS.lit "Waiting for agent...")
    (set_toasts
       (toasts (dom s) ++
        [mkToast (JS.or_else message (JS.lit "All agents are busy. Please wait..."))
           warning]) s).
Proof. reflexivity. Qed.

(** C9. In a session that waits for an agent, a [no_agents_available]
    event shows a warning toast (the message of the event, or "All
    agents are busy. Please wait...") and sets the status line to
    "Waiting for agent..."; it ends nothing and tears nothing down: the
    variables of the call, the [window] properties of the transfer, the
    sockets, connections, streams, pending tasks, what was emitted and
    both transcripts are as before. *)
Theorem no_agents_available_keeps_waiting
    (s : State) (k : nat) (message : option jsstring) :
  socket_live s k = true ->
  let s' := step s (FromSocket k (on_no_agents_available message)) in
  toasts (dom s') =
    toasts (dom s) ++
    [mkToast (JS.or_else message (JS.lit "All agents are busy. Please wait..."))
       warning]
  /\ agent_status (dom s') = JS.lit "Waiting for agent..."
  /\ globals s' = globals s
  /\ window s' = window s
  /\ runtime s' = runtime s
  /\ voice_transcript (dom s') = voice_transcript (dom s)
  /\ transfer_transcript (dom s') = transfer_transcript (dom s)
  /\ form_hidden (dom s') = form_hidden (dom s)
  /\ active_hidden (dom s') = active_hidden (dom s).
Proof.
  intros Hlive s'. subst s'. unfold step. rewrite Hlive.
  change (exec (socket_bookkeeping k (on_no_agents_available message);;
                on_socket (on_no_agents_available message)) s)
    with (exec (handle_no_agents_available message) s).
  rewrite handle_no_agents_available_exec. cbn. repeat split.
Qed.

(** The theorem at the session of [transferring_trace]: the call stays
    active, the socket stays, nothing new is emitted. *)
Lemma no_agents_available_keeps_waiting_witness :
  let s := run (init chrome) transferring_trace in
  socket_live s 0 = true
  /\ voiceCallActive (globals (step s (FromSocket 0 (on_no_agents_available None))))
     = true
  /\ runtime (step s (FromSocket 0 (on_no_agents_available None))) = runtime s.
Proof.
  intros s.
  pose proof (no_agents_available_keeps_waiting s 0 None eq_refl) as H.
  cbv zeta in H. destruct H as (_ & _ & Hg & _ & Hr & _).
  split; [reflexivity|]. split; [rewrite Hg; reflexivity | exact Hr].
Defined.

(** ** Unexpected disconnect *)

(** What [cleanupVoiceCall] leaves behind. *)
Lemma cleanupVoiceCall_post (s : State) :
  let s' := exec cleanupVoiceCall s in
  voiceCallActive (globals s') = false
  /\ voiceRecognition (globals s') = None
  /\ voiceTimerInterval (globals s') = None
  /\ voiceSocket (globals s') = None
  /\ voiceIsMuted (globals s') = false
  /\ form_hidden (dom s') = false
  /\ active_hidden (dom s') = true
  /\ toasts (dom s') = toasts (dom s)
  /\ emitted (runtime s') = emitted (runtime s)
  /\ (forall k, voiceSocket (globals s) = Some k ->
        sockets (runtime s') !! k
        = (fun _ => mkSocket false true) <$> sockets (runtime s) !! k).
Proof.
  destruct s as [[vs vca vti vr vm vn vp] w d rt b].
  unfold cleanupVoiceCall, the_voiceSocket, vr_set_listening, socket_disconnect.
  destruct vr, vti, vs; mred; repeat split; try congruence;
    intros k' [= <-]; apply list_lookup_alter_eq.
Qed.

(** [cleanupVoiceCall] never throws. *)
Lemma cleanupVoiceCall_completes (s : State) :
  snd (cleanupVoiceCall s) = Normal tt.
Proof.
  destruct s as [[vs vca vti vr vm vn vp] w d rt b].
  unfold cleanupVoiceCall, the_voiceSocket, vr_set_listening, socket_disconnect.
  destruct vr, vti, vs; reflexivity.
Qed.

(** What the [disconnect] handler does to the voice tab. While
    [voiceCallActive] is set it runs [cleanupVoiceCall] (flag cleared,
    recognition of the AI phase stopped, [voiceTimerInterval] cleared,
    socket dropped, call form shown again) and shows one warning toast;
    otherwise only the socket's own [connected] flag goes down. In
    neither case does the handler throw. *)
Lemma disconnect_resets_voice_tab (s : State) (k : nat) :
  socket_live s k = true ->
  let s' := step s (FromSocket k on_disconnect) in
  if voiceCallActive (globals s) then
    voiceCallActive (globals s') = false
    /\ voiceRecognition (globals s') = None
    /\ voiceTimerInterval (globals s') = None
    /\ voiceSocket (globals s') = None
    /\ form_hidden (dom s') = false
    /\ active_hidden (dom s') = true
    /\ toasts (dom s') =
       toasts (dom s) ++ [mkToast (JS.lit "Call disconnected") warning]
    /\ emitted (runtime s') = emitted (runtime s)
    /\ snd ((socket_bookkeeping k on_disconnect;; on_socket on_disconnect) s)
       = Normal tt
  else
    s' = exec (set_connected k false) s
    /\ globals s' = globals s /\ window s' = window s /\ dom s' = dom s.
Proof.
  intros Hlive s'. subst s'. unfold step. rewrite Hlive.
  destruct (voiceCallActive (globals s)) eqn:Hact.
  - change (exec (socket_bookkeeping k on_disconnect;; on_socket on_disconnect) s)
      with (exec handle_disconnect (exec (set_connected k false) s)).
    set (s1 := exec (set_connected k false) s).
    assert (Hact1 : voiceCallActive (globals s1) = true) by exact Hact.
    assert (Ht : toasts (dom s1) = toasts (dom s)) by reflexivity.
    assert (He : emitted (runtime s1) = emitted (runtime s)) by reflexivity.
    clearbody s1.
    assert (Hd : exec handle_disconnect s1
                 = exec (showToast (JS.lit "Call disconnected") warning)
                     (exec cleanupVoiceCall s1)).
    { unfold handle_disconnect. mred. rewrite Hact1. mred.
      destruct (cleanupVoiceCall s1) as [s2 [[]|e]] eqn:E; [reflexivity|].
      exfalso. revert E. clear.
      destruct s1 as [[vs vca vti vr vm vn vp] w d rt b].
      unfold cleanupVoiceCall, the_voiceSocket, vr_set_listening, socket_disconnect.
      destruct vr, vti, vs; mred; discriminate. }
    rewrite Hd.
    destruct (cleanupVoiceCall_post s1) as (H1 & H2 & H3 & H4 & _ & H6 & H7 & H8 & H9 & _).
    unfold showToast. mred. rewrite H8, H9, Ht, He. repeat split; try assumption.
    unfold socket_bookkeeping, on_socket, handle_disconnect, set_connected. mred.
    rewrite Hact. mred.
    match goal with |- context [cleanupVoiceCall ?x] =>
      pose proof (cleanupVoiceCall_completes x) as Hc;
      destruct (cleanupVoiceCall x) as [s2 [[]|e]] end; [reflexivity|discriminate].
  - assert (E : exec (socket_bookkeeping k on_disconnect;; on_socket on_disconnect) s
               = exec (set_connected k false) s).
    { unfold on_socket, handle_disconnect, socket_bookkeeping, set_connected.
      mred. rewrite Hact. reflexivity. }
    rewrite E. repeat split.
Qed.

(** What the [disconnect] handler never touches: the properties kept
    on [window], the peer connections, the streams and the recognition
    of the human phase. *)
Lemma disconnect_leaves_webrtc_alone (s : State) (k : nat) :
  let s' := step s (FromSocket k on_disconnect) in
  window s' = window s
  /\ pcs (runtime s') = pcs (runtime s)
  /\ streams (runtime s') = streams (runtime s)
  /\ trecogs (runtime s') = trecogs (runtime s).
Proof.
  cbv zeta.
  assert (H : (fun s => (window s, pcs (runtime s), streams (runtime s),
                         trecogs (runtime s)))
                (step s (FromSocket k on_disconnect))
              = (window s, pcs (runtime s), streams (runtime s), trecogs (runtime s))).
  { unfold step. destruct (socket_live s k); [|reflexivity].
    unfold exec.
    apply (preserves_bind (fun s => (window s, pcs (runtime s),
             streams (runtime s), trecogs (runtime s)))); [|intros _];
      unfold on_socket; preserves_tac. }
  cbv beta in H. inversion H. auto.
Qed.

(** C8 fails on the code in the human phase. When the socket
    disconnects while the customer talks to the agent, the handler does
    not throw, clears [voiceCallActive], closes and drops the socket and
    shows the warning toast, but the call with the agent is not cleaned
    up: [cleanupVoiceCall] does not run [endWebRTCCall], so the handler
    leaves [window], the peer connections, the streams and the
    recognition of the human phase as they were (in every state). In
    the session of [human_phase_trace] the peer connection stays open
    and connected, both microphone streams stay live, the transcript box
    with its End Call button stays on the page, and the recognition
    goes on listening; its next final result is written to the box and
    then throws at [voiceSocket.emit], the socket being [null], so the
    agent never hears of it. After a second [call_started] the timer of
    the first is still armed when the call has been cleaned up. *)
Theorem disconnect_leaves_agent_call_running :
  (forall (s : State) (k : nat),
     let s' := step s (FromSocket k on_disconnect) in
     window s' = window s
     /\ pcs (runtime s') = pcs (runtime s)
     /\ streams (runtime s') = streams (runtime s)
     /\ trecogs (runtime s') = trecogs (runtime s))
  /\ (let human := run (init chrome) human_phase_trace in
      let s' := step human (FromSocket 0 on_disconnect) in
      let said := mkSpeechEvent 0 [mkResult (JS.lit "are you there") true] in
      (socket_live human 0 = true /\ voiceCallActive (globals human) = true)
      /\ (voiceCallActive (globals s') = false
          /\ voiceSocket (globals s') = None
          /\ sockets (runtime s') !! 0 = Some (mkSocket false true)
          /\ list.last (toasts (dom s'))
             = Some (mkToast (JS.lit "Call disconnected") warning)
          /\ snd ((socket_bookkeeping 0 on_disconnect;; on_socket on_disconnect)
                    human) = Normal tt)
      /\ (peerConnection (window s') = Some 0
          /\ pc_closed <$> pcs (runtime s') !! 0 = Some false
          /\ connectionState <$> pcs (runtime s') !! 0 = Some cs_connected
          /\ localStream (window s') = Some 1
          /\ live_streams s' = [0; 1]
          /\ transfer_transcript (dom s') = Some []
          /\ transferRecognition (window s') = Some 0
          /\ tr_listening <$> trecogs (runtime s') !! 0 = Some true)
      /\ ((fun tr => snd (transfer_onresult tr said s'))
            <$> trecogs (runtime s') !! 0 = Some (Thrown TypeError)
          /\ transfer_transcript (dom (step s' (TransferResult 0 said)))
             = Some [mkEntry (JS.lit "customer") (JS.lit "are you there")]
          /\ emitted (runtime (step s' (TransferResult 0 said)))
             = emitted (runtime s')))
  /\ (let s' := step (run (init chrome) restarted_trace)
                  (FromSocket 0 on_disconnect) in
      voiceCallActive (globals s') = false
      /\ voiceTimerInterval (globals s') = None
      /\ intervals (runtime s') = [true; false]).
Proof.
  split; [exact disconnect_leaves_webrtc_alone|].
  split; vm_compute; repeat split.
Qed.

(** ** Ending a call twice *)

(** After [endVoiceCall] there is no socket, so a second [endVoiceCall]
    sends nothing and finds everything already reset. *)
Lemma endVoiceCall_twice (s : State) :
  exec endVoiceCall (exec endVoiceCall s) = exec endVoiceCall s.
Proof.
  destruct s as [[vs vca vti vr vm vn vp] w d rt b].
  unfold endVoiceCall, cleanupVoiceCall, voiceSocket_connected, emit,
    the_voiceSocket, vr_set_listening, socket_disconnect.
  mred. destruct vs as [k|]; mred.
  - destruct (sockets rt !! k) as [[c dd]|]; mred;
      [destruct c; mred|]; destruct vr, vti; reflexivity.
  - destruct vr, vti; reflexivity.
Qed.

(** What one [endVoiceCall] sends: [end_call] on the socket of the
    call if that socket is connected, nothing otherwise. *)
Lemma endVoiceCall_emitted (s : State) :
  emitted (runtime (exec endVoiceCall s)) =
  emitted (runtime s) ++
  match voiceSocket (globals s) with
  | Some k => if voiceSocket_connected s then [(k, end_call)] else []
  | None => []
  end.
Proof.
  destruct s as [[vs vca vti vr vm vn vp] w d rt b].
  unfold endVoiceCall, cleanupVoiceCall, voiceSocket_connected, emit,
    the_voiceSocket, vr_set_listening, socket_disconnect.
  mred. destruct vs as [k|]; mred.
  - destruct (sockets rt !! k) as [[c dd]|]; mred;
      [destruct c; mred|]; destruct vr, vti; mred;
      rewrite ?app_nil_r; reflexivity.
  - destruct vr, vti; mred; rewrite app_nil_r; reflexivity.
Qed.

Lemma voice_endCall_twice (v : Voice.State) :
  Voice.endCall (Voice.endCall v) = Voice.endCall v.
Proof.
  destruct v as [sid inc mu ti re li ca cb eb md mm st em].
  unfold Voice.endCall; cbn.
  destruct ti, re, li; reflexivity.
Qed.

Lemma voice_endCall_end_calls (v : Voice.State) :
  Voice.end_calls (Voice.endCall v) =
  Voice.end_calls v + (if JS.truthy_opt (Voice.sessionId v) then 1 else 0).
Proof.
  destruct v as [sid inc mu ti re li ca cb eb md mm st em].
  unfold Voice.end_calls, Voice.endCall; cbn.
  destruct sid as [[|c sid]|]; cbn; rewrite ?Nat.add_0_r; try reflexivity.
  rewrite List.filter_app, length_app. reflexivity.
Qed.

(** C4. Ending a call is idempotent in both clients. On the dashboard,
    [endVoiceCall] run twice leaves exactly the state that one run
    leaves, what was emitted included: one [end_call] if the socket was
    connected and none otherwise, so the second run sends no second
    [end_call] and asks the backend for no second [call_ended]. On the
    voice page, [endCall] run twice leaves exactly the state that one
    run leaves, and the two runs together send one [end_call] if a
    session id was known and none otherwise. *)
Theorem end_call_idempotent (s : State) (v : Voice.State) :
  exec endVoiceCall (exec endVoiceCall s) = exec endVoiceCall s
  /\ emitted (runtime (exec endVoiceCall (exec endVoiceCall s))) =
     emitted (runtime s) ++
     match voiceSocket (globals s) with
     | Some k => if voiceSocket_connected s then [(k, end_call)] else []
     | None => []
     end
  /\ voiceCallActive (globals (exec endVoiceCall s)) = false
  /\ voiceSocket (globals (exec endVoiceCall s)) = None
  /\ Voice.endCall (Voice.endCall v) = Voice.endCall v
  /\ Voice.end_calls (Voice.endCall (Voice.endCall v)) =
     Voice.end_calls v + (if JS.truthy_opt (Voice.sessionId v) then 1 else 0)
  /\ Voice.isInCall (Voice.endCall v) = false
  /\ Voice.sessionId (Voice.endCall v) = None.
Proof.
  rewrite endVoiceCall_twice, voice_endCall_twice.
  split; [reflexivity|]. split; [apply endVoiceCall_emitted|].
  assert (Hpost : voiceCallActive (globals (exec endVoiceCall s)) = false
                  /\ voiceSocket (globals (exec endVoiceCall s)) = None).
  { clear v. destruct s as [[vs vca vti vr vm vn vp] w d rt b].
    unfold endVoiceCall, cleanupVoiceCall, voiceSocket_connected, emit,
      the_voiceSocket, vr_set_listening, socket_disconnect.
    mred. destruct vs as [k|]; mred.
    - destruct (sockets rt !! k) as [[c dd]|]; mred;
        [destruct c; mred|]; destruct vr, vti; split; reflexivity.
    - destruct vr, vti; split; reflexivity. }
  destruct Hpost as [H1 H2].
  repeat split; try assumption. apply voice_endCall_end_calls.
Qed.

(** ** Releasing the microphone *)

(** C6 fails on the code. The stream that [startVoiceCall] obtains with
    the microphone permission is dropped without stopping its tracks,
    and [cleanupVoiceCall] does not run [endWebRTCCall]: after a normal
    end ([endVoiceCall]), after [call_ended] and after a disconnect in
    the human phase both the first stream and the stream of the WebRTC
    call are still live and the peer connection is still open; after
    the agent hangs up ([endWebRTCCall]) the stream of the WebRTC call
    is stopped and the first one is still live. *)
Theorem microphone_left_open_on_exit :
  let ai := run (init chrome) ai_phase_trace in
  let human := run (init chrome) human_phase_trace in
  live_streams (step ai Click_endVoiceCall) = [0]
  /\ live_streams (step human Click_endVoiceCall) = [0; 1]
  /\ live_streams (step human (FromSocket 0 (on_call_ended (Some 42%N)))) = [0; 1]
  /\ live_streams (step human (FromSocket 0 on_disconnect)) = [0; 1]
  /\ live_streams (step human (FromSocket 0 on_webrtc_hangup)) = [0]
  /\ voiceCallActive (globals (step human Click_endVoiceCall)) = false
  /\ localStream (window (step human Click_endVoiceCall)) = Some 1
  /\ pc_closed <$> pcs (runtime (step human Click_endVoiceCall)) !! 0 = Some false.
Proof. vm_compute. repeat split. Qed.


(** * More of the two scripts *)

(** ** Every message has a cause *)

Section Sends.
Context (Q : Emission -> Prop).

Lemma sends_ret {A} (a : A) : sends Q (mret a).
Proof. intros s. exists []. rewrite app_nil_r. auto. Qed.

Lemma sends_gets {A} (f : State -> A) : sends Q (gets f).
Proof. intros s. exists []. rewrite app_nil_r. auto. Qed.

Lemma sends_throw {A} (e : jsstring) : sends Q (throw (A:=A) e).
Proof. intros s. exists []. rewrite app_nil_r. auto. Qed.

Lemma sends_modify (f : State -> State) :
  (forall s, emitted (runtime (f s)) = emitted (runtime s)) -> sends Q (modify f).
Proof. intros H s. exists []. rewrite app_nil_r. cbn. auto. Qed.

Lemma sends_bind {A B} (m : M A) (f : A -> M B) :
  sends Q m -> (forall a, sends Q (f a)) -> sends Q (m ≫= f).
Proof.
  intros Hm Hf s. destruct (Hm s) as (l1 & E1 & F1). unfold mbind, M_bind.
  destruct (m s) as [s' [a|e]]; cbn in *; [|eauto].
  destruct (Hf a s') as (l2 & E2 & F2). exists (l1 ++ l2).
  rewrite E2, E1, app_assoc. split; [reflexivity|]. apply Forall_app; auto.
Qed.

Lemma sends_try_catch (m : M unit) (h : jsstring -> M unit) :
  sends Q m -> (forall e, sends Q (h e)) -> sends Q (try_catch m h).
Proof.
  intros Hm Hh s. destruct (Hm s) as (l1 & E1 & F1). unfold try_catch.
  destruct (m s) as [s' [a|e]]; cbn in *; [eauto|].
  destruct (Hh e s') as (l2 & E2 & F2). exists (l1 ++ l2).
  rewrite E2, E1, app_assoc. split; [reflexivity|]. apply Forall_app; auto.
Qed.

Lemma sends_when (b : bool) (m : M unit) : sends Q m -> sends Q (when b m).
Proof. intros H. destruct b; [exact H | apply sends_ret]. Qed.

Lemma sends_emit (e : Emission) : Q e -> sends Q (emit e).
Proof.
  intros He s. unfold emit, the_voiceSocket. mred.
  destruct (voiceSocket (globals s)) as [k|]; cbn.
  - exists [(k, e)]. split; [reflexivity|]. repeat constructor. exact He.
  - exists []. rewrite app_nil_r. auto.
Qed.

End Sends.

Ltac sends_step :=
  lazymatch goal with
  | |- sends _ (mret _) => apply sends_ret
  | |- sends _ (gets _) => apply sends_gets
  | |- sends _ (throw _) => apply sends_throw
  | |- sends _ (emit _) => apply sends_emit; reflexivity
  | |- sends _ (mbind _ _) => apply sends_bind; [|intros ?]
  | |- sends _ (when _ _) => apply sends_when
  | |- sends _ (try_catch _ _) => apply sends_try_catch; [|intros ?]
  | |- sends _ (modify _) => apply sends_modify; intros ?; reflexivity
  | |- sends _ (match ?x with _ => _ end) => destruct x
  | |- sends _ _ => progress autounfold with script
  end.

Ltac sends_tac := repeat sends_step.

Ltac sends_nothing :=
  exists []; rewrite app_nil_r; split; [reflexivity | constructor].

Lemma sends_voice_onresult_loop (r0 : nat) (ev0 : SpeechEvent)
    (r : nat) (rs : list SpeechResult) :
  sends (fun m => may_send (VoiceResult r0 ev0) m = true) (voice_onresult_loop r rs).
Proof.
  induction rs as [|res rest IH]; cbn [voice_onresult_loop]; [apply sends_ret|].
  apply sends_bind; [|intros _; exact IH]. sends_tac.
Qed.

Lemma sends_transfer_onresult_loop (t0 : nat) (ev0 : SpeechEvent)
    (sid a : option jsstring) (rs : list SpeechResult) :
  sends (fun m => may_send (TransferResult t0 ev0) m = true)
    (transfer_onresult_loop sid a rs).
Proof.
  induction rs as [|res rest IH]; cbn [transfer_onresult_loop]; [apply sends_ret|].
  apply sends_bind; [|intros _; exact IH]. sends_tac.
Qed.

(** One turn of the event loop only appends to the log, and only
    messages that the event can cause. *)
Lemma step_sends (s : State) (e : Event) :
  exists new,
    emitted (runtime (step s e)) = emitted (runtime s) ++ new
    /\ Forall (fun km => may_send e km.2 = true) new.
Proof.
  assert (X : forall m : M unit, sends (fun m => may_send e m = true) m ->
     exists new, emitted (runtime (exec m s)) = emitted (runtime s) ++ new
                 /\ Forall (fun km => may_send e km.2 = true) new)
    by (intros m H; apply H).
  destruct e as [n p| | | |k ev|t r|r ev|t ev|p c|p st|]; cbn [step].
  - apply X. sends_tac.
  - apply X. sends_tac.
  - apply X. sends_tac.
  - destruct (transfer_transcript (dom s)); [|sends_nothing]. apply X. sends_tac.
  - destruct (socket_live s k); [|sends_nothing]. apply X.
    destruct ev; unfold on_socket; sends_tac.
  - destruct (tasks (runtime s) !! t) as [[task|]|]; try solve [sends_nothing].
    apply X. apply sends_bind; [sends_tac|intros _].
    destruct task, r; unfold resume; sends_tac.
  - destruct (vrecogs (runtime s) !! r); [|sends_nothing]. apply X.
    apply sends_voice_onresult_loop.
  - destruct (trecogs (runtime s) !! t); [|sends_nothing]. apply X.
    apply sends_transfer_onresult_loop.
  - destruct (pcs (runtime s) !! p) as [pc|]; [|sends_nothing].
    destruct (pc_closed pc); [sends_nothing|]. apply X.
    destruct c; sends_tac.
  - destruct (pcs (runtime s) !! p) as [pc|]; [|sends_nothing].
    destruct (pc_closed pc); [sends_nothing|]. apply X. sends_tac.
  - destruct (removal_timers (runtime s)); [sends_nothing|]. apply X. sends_tac.
Qed.

Lemma run_sends (s : State) (tr : list Event) (km : nat * Emission) :
  In km (emitted (runtime (run s tr))) ->
  In km (emitted (runtime s)) \/ exists e, In e tr /\ may_send e km.2 = true.
Proof.
  revert s. induction tr as [|e tr IH]; intros s H; [left; exact H|].
  cbn [run foldl] in H. apply IH in H as [H|(e' & Hin & He')].
  - destruct (step_sends s e) as (new & E & F). rewrite E in H.
    apply in_app_or in H as [H|H]; [left; exact H|].
    right. exists e. split; [left; reflexivity|].
    exact (proj1 (List.Forall_forall _ _) F km H).
  - right. exists e'. split; [right; exact Hin | exact He'].
Qed.

(** X1. Whatever the page has sent since it was loaded answers an event
    of the trace that can cause that message: [start_call] a connect,
    [user_message] a result of the AI-phase recognizer,
    [agent_transfer_room] a [transfer_call], [webrtc_offer] a fulfilled
    promise, [webrtc_ice_candidate] a candidate of a connection,
    [call_transcript] a result of the human-phase recognizer,
    [webrtc_hangup] the agent's hangup, the End button of the
    transcript box or a connection state change, [end_call] the End
    Call button. *)
Theorem every_message_answers_an_event (b : Browser) (tr : list Event)
    (k : nat) (m : Emission) :
  In (k, m) (emitted (runtime (run (init b) tr))) ->
  exists e, In e tr /\ may_send e m = true.
Proof.
  intros H. apply run_sends in H as [[]|H]. exact H.
Qed.

Lemma every_message_answers_an_event_witness :
  exists e, In e ai_phase_trace
            /\ may_send e (start_call (JS.lit "Asha") (JS.lit "9876543210")) = true.
Proof.
  apply (every_message_answers_an_event chrome ai_phase_trace 0).
  vm_compute. left. reflexivity.
Defined.

(** *** At most one message for each cause *)

Ltac quiet_tac := unfold quiet; preserves_tac.

Lemma one_of_quiet {A} (m : M A) : quiet m -> sends_at_most_one m.
Proof.
  unfold quiet, preserves. intros H s. exists []. rewrite app_nil_r, H. cbn. auto.
Qed.

Lemma one_emit (e : Emission) : sends_at_most_one (emit e).
Proof.
  intros s. unfold emit, the_voiceSocket. mred.
  destruct (voiceSocket (globals s)) as [k|]; cbn.
  - exists [(k, e)]. auto.
  - exists []. rewrite app_nil_r. cbn. auto.
Qed.

Lemma one_bind_l {A B} (m : M A) (f : A -> M B) :
  quiet m -> (forall a, sends_at_most_one (f a)) -> sends_at_most_one (m ≫= f).
Proof.
  unfold quiet, preserves.
  intros Hm Hf s. specialize (Hm s). unfold mbind, M_bind.
  destruct (m s) as [s' [a|e]]; cbn in *.
  - destruct (Hf a s') as (new & E & L). exists new. rewrite E, Hm. auto.
  - exists []. rewrite app_nil_r, Hm. cbn. auto.
Qed.

Lemma one_bind_r {A B} (m : M A) (f : A -> M B) :
  sends_at_most_one m -> (forall a, quiet (f a)) -> sends_at_most_one (m ≫= f).
Proof.
  unfold quiet, preserves.
  intros Hm Hf s. destruct (Hm s) as (new & E & L). unfold mbind, M_bind.
  destruct (m s) as [s' [a|e]]; cbn in *.
  - exists new. rewrite Hf. auto.
  - exists new. auto.
Qed.

Lemma one_try_catch_l (m : M unit) (h : jsstring -> M unit) :
  quiet m -> (forall e, sends_at_most_one (h e)) -> sends_at_most_one (try_catch m h).
Proof.
  unfold quiet, preserves.
  intros Hm Hh s. specialize (Hm s). unfold try_catch.
  destruct (m s) as [s' [a|e]]; cbn in *.
  - exists []. rewrite app_nil_r, Hm. cbn. auto.
  - destruct (Hh e s') as (new & E & L). exists new. rewrite E, Hm. auto.
Qed.

Lemma one_try_catch_r (m : M unit) (h : jsstring -> M unit) :
  sends_at_most_one m -> (forall e, quiet (h e)) -> sends_at_most_one (try_catch m h).
Proof.
  unfold quiet, preserves.
  intros Hm Hh s. destruct (Hm s) as (new & E & L). unfold try_catch.
  destruct (m s) as [s' [a|e]]; cbn in *.
  - exists new. auto.
  - exists new. rewrite Hh. auto.
Qed.

Lemma one_when (b : bool) (m : M unit) :
  sends_at_most_one m -> sends_at_most_one (when b m).
Proof. intros H. destruct b; [exact H | apply one_of_quiet, preserves_ret]. Qed.

(** The message of a handler body is sent either before or after a
    part that sends nothing. *)
Ltac one_tac :=
  lazymatch goal with
  | |- sends_at_most_one (emit _) => apply one_emit
  | |- sends_at_most_one (mbind _ _) =>
      first [ apply one_bind_l; [solve [quiet_tac] | intros ?; one_tac]
            | apply one_bind_r; [one_tac | intros ?; solve [quiet_tac]] ]
  | |- sends_at_most_one (when _ _) => apply one_when; one_tac
  | |- sends_at_most_one (try_catch _ _) =>
      first [ apply one_try_catch_l; [solve [quiet_tac] | intros ?; one_tac]
            | apply one_try_catch_r; [one_tac | intros ?; solve [quiet_tac]] ]
  | |- sends_at_most_one (match ?x with _ => _ end) => destruct x; one_tac
  | |- sends_at_most_one _ =>
      first [ apply one_of_quiet; solve [quiet_tac]
            | progress autounfold with script; one_tac ]
  end.

Lemma step_sends_at_most_one (s : State) (e : Event) :
  is_speech_event e = false ->
  exists new, emitted (runtime (step s e)) = emitted (runtime s) ++ new
              /\ length new <= 1.
Proof.
  intros He.
  assert (X : forall m : M unit, sends_at_most_one m ->
     exists new, emitted (runtime (exec m s)) = emitted (runtime s) ++ new
                 /\ length new <= 1)
    by (intros m H; apply H).
  assert (N : exists new : list (nat * Emission),
     emitted (runtime s) = emitted (runtime s) ++ new /\ length new <= 1)
    by (exists []; rewrite app_nil_r; cbn; auto).
  destruct e as [n p| | | |k ev|t r|r ev|t ev|p c|p st|]; try discriminate; cbn [step].
  - apply X. one_tac.
  - apply X. one_tac.
  - apply X. one_tac.
  - destruct (transfer_transcript (dom s)); [|exact N]. apply X. one_tac.
  - destruct (socket_live s k); [|exact N]. apply X.
    destruct ev; unfold on_socket; one_tac.
  - destruct (tasks (runtime s) !! t) as [[task|]|]; try exact N.
    apply X. apply one_bind_l; [quiet_tac|intros _].
    destruct task, r; unfold resume; one_tac.
  - destruct (pcs (runtime s) !! p) as [pc|]; [|exact N].
    destruct (pc_closed pc); [exact N|]. apply X.
    destruct c; one_tac.
  - destruct (pcs (runtime s) !! p) as [pc|]; [|exact N].
    destruct (pc_closed pc); [exact N|]. apply X. one_tac.
  - destruct (removal_timers (runtime s)); [exact N|]. apply X. one_tac.
Qed.

Lemma may_send_same_kind (e : Event) (m m0 : Emission) :
  may_send e m = true -> same_kind m m0 = true -> may_send e m0 = true.
Proof.
  destruct m, m0; try discriminate; intros H _; exact H.
Qed.

Lemma speech_event_sends_speech (e : Event) (m m0 : Emission) :
  is_speech_event e = true -> may_send e m = true ->
  is_speech_text m0 = false -> same_kind m m0 = false.
Proof.
  destruct e; try discriminate; destruct m; try discriminate;
    destruct m0; try discriminate; reflexivity.
Qed.

Lemma step_sent_of_kind (s : State) (e : Event) (m0 : Emission) :
  is_speech_text m0 = false ->
  sent_of_kind m0 (step s e) <= sent_of_kind m0 s + causes_of m0 [e].
Proof.
  intros Hm0. unfold sent_of_kind, causes_of.
  destruct (step_sends s e) as (new & E & F). rewrite E, List.filter_app, length_app.
  apply Nat.add_le_mono_l.
  destruct (is_speech_event e) eqn:He.
  - replace (List.filter _ new) with (@nil (nat * Emission)); [cbn; lia|].
    symmetry. clear E. induction F as [|km new Hkm F IH]; [reflexivity|].
    cbn. rewrite (speech_event_sends_speech e km.2 m0 He Hkm Hm0). exact IH.
  - destruct (step_sends_at_most_one s e He) as (new' & E' & L).
    rewrite E in E'. apply app_inv_head in E'. subst new'.
    destruct new as [|km [|? ?]]; cbn in L; [cbn; lia| |lia].
    cbn. destruct (same_kind km.2 m0) eqn:K; [|cbn; lia].
    pose proof (List.Forall_inv F) as Hkm.
    rewrite (may_send_same_kind e km.2 m0 Hkm K). reflexivity.
Qed.

Lemma causes_of_cons (m0 : Emission) (e : Event) (tr : list Event) :
  causes_of m0 (e :: tr) = causes_of m0 [e] + causes_of m0 tr.
Proof. unfold causes_of. cbn. destruct (may_send e m0); reflexivity. Qed.

Lemma run_sent_of_kind (s : State) (tr : list Event) (m0 : Emission) :
  is_speech_text m0 = false ->
  sent_of_kind m0 (run s tr) <= sent_of_kind m0 s + causes_of m0 tr.
Proof.
  intros Hm0. revert s. induction tr as [|e tr IH]; intros s; [cbn; lia|].
  cbn [run foldl]. specialize (IH (step s e)). unfold run in IH.
  pose proof (step_sent_of_kind s e m0 Hm0). rewrite causes_of_cons. lia.
Qed.

(** X2. Apart from the two messages that carry recognized speech, the
    page has never sent more messages of one event name than the trace
    holds events that can cause it: at most one [start_call] for each
    connect, one [agent_transfer_room] for each [transfer_call], one
    [webrtc_offer] for each fulfilled promise, one [end_call] for each
    click on End Call, and so on. *)
Theorem one_request_per_cause (b : Browser) (tr : list Event) (m : Emission) :
  is_speech_text m = false ->
  sent_of_kind m (run (init b) tr) <= causes_of m tr.
Proof.
  intros H. apply (run_sent_of_kind (init b) tr m H).
Qed.

Lemma one_request_per_cause_witness :
  sent_of_kind (agent_transfer_room [] [] None None)
    (run (init chrome) human_phase_trace) <= 1.
Proof.
  apply (one_request_per_cause chrome human_phase_trace
           (agent_transfer_room [] [] None None)).
  reflexivity.
Defined.

(** ** Ending the call with the agent *)

Lemma alter_snoc {A} (f : A -> A) (l : list A) (x : A) :
  alter f (length l) (l ++ [x]) = l ++ [f x].
Proof.
  replace (length l) with (length l + 0) by lia. rewrite alter_app_r. reflexivity.
Qed.

Lemma insert_snoc {A} (l : list A) (x y : A) :
  <[length l := y]> (l ++ [x]) = l ++ [y].
Proof.
  replace (length l) with (length l + 0) by lia. rewrite insert_app_r. reflexivity.
Qed.

Lemma exec_bind_normal {A B} (m : M A) (f : A -> M B) (s s1 : State) (a : A) :
  m s = (s1, Normal a) -> exec (m ≫= f) s = exec (f a) s1.
Proof. intros H. unfold exec, mbind, M_bind. rewrite H. reflexivity. Qed.

(** X3. [endWebRTCCall] lets go of everything the call to the agent
    holds, whether or not the hangup can be sent afterwards: the three
    globals are cleared, the tracks of the local stream are stopped,
    the connection is closed and the recognizer of the human phase is
    stopped. *)
Theorem endWebRTCCall_releases (s : State) :
  let s' := exec endWebRTCCall s in
  peerConnection (window s') = None
  /\ localStream (window s') = None
  /\ transferRecognition (window s') = None
  /\ (forall st, localStream (window s) = Some st ->
        st < length (streams (runtime s)) ->
        streams (runtime s') !! st = Some (mkStream true))
  /\ (forall p pc, peerConnection (window s) = Some p ->
        pcs (runtime s) !! p = Some pc ->
        pc_closed <$> pcs (runtime s') !! p = Some true)
  /\ (forall t tr, transferRecognition (window s) = Some t ->
        trecogs (runtime s) !! t = Some tr ->
        tr_listening <$> trecogs (runtime s') !! t = Some false).
Proof.
  destruct s as [g w d r b]. destruct w as [pc ls pend ag sid reason trec].
  destruct g as [vs act ti vr mu un up].
  unfold endWebRTCCall, emit, the_voiceSocket, the_peerConnection.
  destruct ls as [st|], pc as [p|], trec as [t|], ag as [[|? ?]|], sid as [[|? ?]|],
    vs as [k|];
    mred; repeat split; try discriminate; intros;
    repeat match goal with H : Some _ = Some _ |- _ => injection H as <- end;
    rewrite ?list_lookup_insert_eq by assumption; try reflexivity;
    rewrite list_lookup_alter, decide_True by reflexivity;
    match goal with H : _ !! _ = Some _ |- _ => rewrite H end; reflexivity.
Qed.

Lemma endWebRTCCall_releases_witness :
  let s := run (init chrome) human_phase_trace in
  localStream (window s) = Some 1
  /\ streams (runtime s) !! 1 = Some (mkStream false)
  /\ streams (runtime (exec endWebRTCCall s)) !! 1 = Some (mkStream true).
Proof.
  intros s.
  assert (Hl : localStream (window s) = Some 1) by (vm_compute; reflexivity).
  assert (Hn : 1 < length (streams (runtime s))) by (vm_compute; lia).
  split; [exact Hl|]. split; [vm_compute; reflexivity|].
  exact (proj1 (proj2 (proj2 (proj2 (endWebRTCCall_releases s)))) 1 Hl Hn).
Defined.

(** X4. When the socket of the dashboard is already gone
    ([voiceSocket] is [null]) and the agent and the session are known,
    [endWebRTCCall] fails at the hangup message with a [TypeError]:
    nothing is sent and the removal of the transcript box is never
    scheduled, so the box stays. *)
Theorem hangup_without_socket_fails_before_cleanup (s : State) (a sid : jsstring) :
  voiceSocket (globals s) = None ->
  agentSocketId (window s) = Some a -> a <> [] ->
  transferSessionId (window s) = Some sid -> sid <> [] ->
  snd (endWebRTCCall s) = Thrown TypeError
  /\ removal_timers (runtime (exec endWebRTCCall s)) = removal_timers (runtime s)
  /\ transfer_transcript (dom (exec endWebRTCCall s)) = transfer_transcript (dom s)
  /\ emitted (runtime (exec endWebRTCCall s)) = emitted (runtime s).
Proof.
  destruct s as [g w d r b]. destruct w as [pc ls pend ag ts reason trec].
  destruct g as [vs act ti vr mu un up]. cbn.
  intros -> -> Ha -> Hs.
  destruct a as [|a0 a]; [congruence|]. destruct sid as [|c0 sid]; [congruence|].
  unfold endWebRTCCall, emit, the_voiceSocket, the_peerConnection.
  destruct ls as [st|], pc as [p|], trec as [t|]; mred; repeat split; reflexivity.
Qed.

Lemma hangup_without_socket_fails_before_cleanup_witness :
  let s := run (init chrome) (human_phase_trace ++ [Click_endVoiceCall]) in
  transfer_transcript (dom s) <> None
  /\ snd (endWebRTCCall s) = Thrown TypeError
  /\ removal_timers (runtime (exec endWebRTCCall s)) = removal_timers (runtime s).
Proof.
  split; [vm_compute; discriminate|].
  pose proof (hangup_without_socket_fails_before_cleanup
    (run (init chrome) (human_phase_trace ++ [Click_endVoiceCall]))
    (JS.lit "agentA") (JS.lit "s1")) as H.
  refine ((fun H' => conj (proj1 H') (proj1 (proj2 H'))) (H _ _ _ _ _));
    vm_compute; (reflexivity || (intro; discriminate)).
Defined.



(** What [endWebRTCCall] leaves alone. *)
Lemma endWebRTCCall_keeps_tasks (s : State) :
  tasks (runtime (exec endWebRTCCall s)) = tasks (runtime s)
  /\ voiceSocket (globals (exec endWebRTCCall s)) = voiceSocket (globals s)
  /\ length (pcs (runtime (exec endWebRTCCall s))) = length (pcs (runtime s))
  /\ length (streams (runtime (exec endWebRTCCall s))) = length (streams (runtime s))
  /\ peerConnection (window (exec endWebRTCCall s)) = None.
Proof.
  destruct s as [g w d r b]. destruct w as [pc ls pend ag ts reason trec].
  destruct g as [vs act ti vr mu un up].
  unfold endWebRTCCall, emit, the_voiceSocket, the_peerConnection.
  destruct ls as [st|], pc as [p|], trec as [t|], ag as [[|? ?]|], ts as [[|? ?]|],
    vs as [k|]; mred; rewrite ?length_alter, ?length_insert; auto.
Qed.

(** X6. A microphone request of [startWebRTCCall] that is pending when
    the call to the agent is ended is not cancelled: when it is
    granted afterwards, the rest of [startWebRTCCall] runs, and the
    page holds a new live stream and a new open connection. *)
Theorem hangup_does_not_cancel_pending_microphone
    (s : State) (t : nat) (a sid : option jsstring) :
  tasks (runtime s) !! t = Some (Some (after_startWebRTCCall_getUserMedia a sid)) ->
  let s' := step (exec endWebRTCCall s) (Settle t Fulfilled) in
  peerConnection (window s') = Some (length (pcs (runtime s)))
  /\ localStream (window s') = Some (length (streams (runtime s)))
  /\ streams (runtime s') !! length (streams (runtime s)) = Some (mkStream false)
  /\ pc_closed <$> pcs (runtime s') !! length (pcs (runtime s)) = Some false.
Proof.
  intros Ht. destruct (endWebRTCCall_keeps_tasks s) as (E1 & _ & E3 & E4 & _).
  cbv zeta. unfold step. rewrite E1, Ht.
  remember (exec endWebRTCCall s) as s1 eqn:Es1. clear Es1 E1.
  rewrite <- E3, <- E4. clear.
  destruct s1 as [g w d r b]. unfold take_task, resume, startWebRTCCall_got_stream,
    new_stream, pc_addTracks, update_pc, await. mred.
  repeat split.
  - rewrite (lookup_app_r (streams r) _ (length (streams r))) by lia.
    rewrite Nat.sub_diag. reflexivity.
  - rewrite list_lookup_alter, decide_True by reflexivity.
    rewrite (lookup_app_r (pcs r) _ (length (pcs r))) by lia.
    rewrite Nat.sub_diag. reflexivity.
Qed.

Lemma hangup_does_not_cancel_pending_microphone_witness :
  let s := run (init chrome) (transferring_trace ++
             [FromSocket 0 (on_agent_ready_for_call (Some (JS.lit "agentA"))
                (Some (JS.lit "s1")) None)]) in
  let s' := step (exec endWebRTCCall s) (Settle 1 Fulfilled) in
  peerConnection (window s') = Some 0
  /\ localStream (window s') = Some 1
  /\ streams (runtime s') !! 1 = Some (mkStream false).
Proof.
  pose proof (hangup_does_not_cancel_pending_microphone
    (run (init chrome) (transferring_trace ++
       [FromSocket 0 (on_agent_ready_for_call (Some (JS.lit "agentA"))
          (Some (JS.lit "s1")) None)]))
    1 (Some (JS.lit "agentA")) (Some (JS.lit "s1"))) as H.
  refine ((fun H' => conj (proj1 H') (conj (proj1 (proj2 H')) (proj1 (proj2 (proj2 H')))))
            (H _)).
  vm_compute. reflexivity.
Defined.

(** ** An agent accepts and the microphone cannot be had *)

(** X7. When an agent accepts while no connection exists, and the page
    has no [mediaDevices] or the microphone request is refused, then no
    connection is made, nothing is sent to the agent, no step of the
    negotiation stays pending, and the customer sees the success toast
    followed by an error toast. The agent id is stored all the same. *)
Theorem accept_without_microphone
    (s : State) (k : nat) (agent_sid session_id agent_id : option jsstring)
    (reason : jsstring) :
  socket_live s k = true ->
  peerConnection (window s) = None ->
  let accept := FromSocket k (on_agent_ready_for_call agent_sid session_id agent_id) in
  let s' := if has_mediaDevices (browser s)
            then run s [accept; Settle (length (tasks (runtime s))) (Rejected reason)]
            else step s accept in
  peerConnection (window s') = None
  /\ pcs (runtime s') = pcs (runtime s)
  /\ emitted (runtime s') = emitted (runtime s)
  /\ agentSocketId (window s') = agent_sid
  /\ tasks (runtime s')
     = (if has_mediaDevices (browser s) then tasks (runtime s) ++ [None]
        else tasks (runtime s))
  /\ toasts (dom s') = toasts (dom s)
       ++ [mkToast (JS.lit "Agent connected! Starting voice call...") success;
           mkToast (if has_mediaDevices (browser s)
                    then JS.lit "Error accessing microphone: " ++ reason
                    else JS.lit "Microphone access requires a secure connection (localhost or HTTPS)")
             error].
Proof.
  intros Hlive Hpc. cbv zeta.
  destruct s as [g w d r b]. destruct w as [pc ls pend ag ts rs trec].
  destruct b as [md sr]. cbn in Hpc. subst pc.
  destruct md; cbn [has_mediaDevices browser].
  - unfold run. cbn [foldl]. unfold step. rewrite Hlive.
    unfold socket_bookkeeping, on_socket, handle_agent_ready_for_call,
      the_peerConnection, showToast, startWebRTCCall, await. mred.
    rewrite (lookup_app_r (tasks r) _ (length (tasks r))) by lia.
    rewrite Nat.sub_diag. cbn.
    unfold take_task, webrtc_error, showToast. mred.
    repeat split.
    + apply insert_snoc.
    + rewrite <- app_assoc. reflexivity.
  - unfold step. rewrite Hlive.
    unfold socket_bookkeeping, on_socket, handle_agent_ready_for_call,
      the_peerConnection, showToast, startWebRTCCall, await. mred.
    repeat split. rewrite <- app_assoc. reflexivity.
Qed.

Lemma accept_without_microphone_witness :
  let s := run (init chrome) transferring_trace in
  let s' := run s [FromSocket 0 (on_agent_ready_for_call (Some (JS.lit "agentA"))
                     (Some (JS.lit "s1")) None);
                   Settle 1 (Rejected (JS.lit "Permission denied"))] in
  peerConnection (window s') = None /\ emitted (runtime s') = emitted (runtime s).
Proof.
  intros s.
  assert (Hl : socket_live s 0 = true) by (vm_compute; reflexivity).
  assert (Hp : peerConnection (window s) = None) by (vm_compute; reflexivity).
  assert (Hm : has_mediaDevices (browser s) = true) by (vm_compute; reflexivity).
  assert (Ht : length (tasks (runtime s)) = 1) by (vm_compute; reflexivity).
  pose proof (accept_without_microphone s 0
    (Some (JS.lit "agentA")) (Some (JS.lit "s1")) None (JS.lit "Permission denied")
    Hl Hp) as H.
  cbv zeta in H. rewrite Hm, Ht in H. destruct H as (H1 & _ & H3 & _).
  split; [exact H1 | exact H3].
Defined.

(** ** A repeated [call_started] *)

(** X8. A second [call_started] is handled like the first: the
    transcript is cleared down to the new greeting and a second
    recognizer is made and started, while the first one is neither
    stopped nor reachable from [voiceRecognition] any more. *)
Theorem second_call_started_starts_over (s : State)
    (sid g sid' g' : option jsstring) :
  has_SpeechRecognition (browser s) = true ->
  let s2 := exec (handle_call_started sid' g') (exec (handle_call_started sid g) s) in
  let n := length (vrecogs (runtime s)) in
  voice_transcript (dom s2) = [mkEntry (JS.lit "agent") (JS.toStr g')]
  /\ voiceRecognition (globals s2) = Some (S n)
  /\ vrecogs (runtime s2) = vrecogs (runtime s) ++ [mkVR [] true; mkVR [] true].
Proof.
  destruct s as [g0 w d r b]. destruct b as [md sr]. cbn. intros ->.
  unfold handle_call_started, addVoiceTranscript, initSpeechRecognition, showToast,
    vr_set_listening. mred.
  rewrite !alter_snoc. cbn.
  rewrite <- app_assoc, length_app, Nat.add_1_r. cbn. auto.
Qed.

Lemma second_call_started_starts_over_witness :
  let s := run (init chrome) (take 3 ai_phase_trace) in
  let hello := handle_call_started (Some (JS.lit "s1")) (Some (JS.lit "Hello")) in
  voiceRecognition (globals (exec hello (exec hello s))) = Some 1
  /\ vrecogs (runtime (exec hello (exec hello s))) = [mkVR [] true; mkVR [] true].
Proof.
  intros s hello.
  assert (Hs : has_SpeechRecognition (browser s) = true) by (vm_compute; reflexivity).
  assert (Hv : vrecogs (runtime s) = []) by (vm_compute; reflexivity).
  pose proof (second_call_started_starts_over s
    (Some (JS.lit "s1")) (Some (JS.lit "Hello"))
    (Some (JS.lit "s1")) (Some (JS.lit "Hello")) Hs) as H.
  cbv zeta in H. rewrite Hv in H. destruct H as (_ & H2 & H3).
  split; [exact H2 | exact H3].
Defined.

(** ** Speech while the socket is down *)

Lemma voice_onresult_loop_offline (r : nat) (rs : list SpeechResult) (s : State) :
  voiceSocket_connected s = false ->
  let s' := exec (voice_onresult_loop r rs) s in
  emitted (runtime s') = emitted (runtime s)
  /\ dom s' = dom s
  /\ voiceSocket_connected s' = false.
Proof.
  revert s. induction rs as [|res rest IH]; intros s Hoff; [mred; auto|].
  cbn [voice_onresult_loop]. cbv zeta.
  destruct (isFinal res) eqn:Hf.
  - set (s1 := set_vrecogs (alter (fun v => mkVR (transcript res) (vr_listening v)) r
                 (vrecogs (runtime s))) s).
    assert (Hoff1 : voiceSocket_connected s1 = false) by exact Hoff.
    rewrite (exec_bind_normal _ _ s s1 tt).
    + destruct (IH s1 Hoff1) as (E1 & E2 & E3). rewrite E1, E2, E3. auto.
    + unfold vr_set_finalTranscript, mbind, M_bind, modify, gets. fold s1.
      rewrite Hoff1. reflexivity.
  - rewrite (exec_bind_normal _ _ s s tt) by reflexivity. apply IH, Hoff.
Qed.

(** X9. While the socket of the call is missing or not connected, the
    [onresult] handler of the AI phase drops what the customer says:
    nothing is sent, nothing is added to the transcript and nothing is
    kept for later. *)
Theorem speech_is_dropped_while_socket_is_down
    (s : State) (r : nat) (ev : SpeechEvent) :
  voiceSocket_connected s = false ->
  emitted (runtime (exec (voice_onresult r ev) s)) = emitted (runtime s)
  /\ voice_transcript (dom (exec (voice_onresult r ev) s)) = voice_transcript (dom s).
Proof.
  intros H. destruct (voice_onresult_loop_offline r
    (drop (resultIndex ev) (results ev)) s H) as (E1 & E2 & _).
  unfold voice_onresult. rewrite E1, E2. auto.
Qed.

Lemma speech_is_dropped_while_socket_is_down_witness :
  let s := step (run (init chrome) ai_phase_trace) (FromSocket 0 on_disconnect) in
  let ev := mkSpeechEvent 0 [mkResult (JS.lit "my battery is low") true] in
  emitted (runtime (exec (voice_onresult 0 ev) s)) = emitted (runtime s)
  /\ voice_transcript (dom (exec (voice_onresult 0 ev) s)) = voice_transcript (dom s).
Proof.
  apply (speech_is_dropped_while_socket_is_down
    (step (run (init chrome) ai_phase_trace) (FromSocket 0 on_disconnect)) 0
    (mkSpeechEvent 0 [mkResult (JS.lit "my battery is low") true])).
  vm_compute. reflexivity.
Defined.

(** ** Mute *)

(** X10. [toggleVoiceMute] flips the mute flag and the button with it,
    and acts on the recognizer of the AI phase only: the streams, the
    connections, the recognizer of the human phase and the globals of
    the call to the agent are left as they are, and nothing is sent.
    The audio that goes to the agent is not muted. *)
Theorem mute_leaves_the_agent_call_alone (s : State) :
  let s' := exec toggleVoiceMute s in
  voiceIsMuted (globals s') = negb (voiceIsMuted (globals s))
  /\ mute_muted (dom s') = negb (voiceIsMuted (globals s))
  /\ window s' = window s
  /\ streams (runtime s') = streams (runtime s)
  /\ pcs (runtime s') = pcs (runtime s)
  /\ trecogs (runtime s') = trecogs (runtime s)
  /\ emitted (runtime s') = emitted (runtime s).
Proof.
  destruct s as [g w d r b]. destruct g as [vs act ti vr mu un up].
  unfold toggleVoiceMute, vr_set_listening, showToast.
  destruct mu, vr as [i|], act; mred; repeat split; reflexivity.
Qed.

(** ** The call panel *)

Lemma panel_voice_onresult_loop (r : nat) (rs : list SpeechResult) :
  preserves call_panel (voice_onresult_loop r rs).
Proof.
  induction rs as [|res rest IH]; cbn [voice_onresult_loop]; [apply preserves_ret|].
  apply preserves_bind; [|intros _; exact IH]. preserves_tac.
Qed.

Lemma panel_transfer_onresult_loop (sid a : option jsstring) (rs : list SpeechResult) :
  preserves call_panel (transfer_onresult_loop sid a rs).
Proof.
  induction rs as [|res rest IH]; cbn [transfer_onresult_loop]; [apply preserves_ret|].
  apply preserves_bind; [|intros _; exact IH]. preserves_tac.
Qed.

Lemma panel_cleanupVoiceCall (s : State) :
  call_panel (exec cleanupVoiceCall s) = (false, None, false, true).
Proof.
  destruct s as [[vs vca vti vr vm vn vp] w d rt b].
  unfold cleanupVoiceCall, the_voiceSocket, vr_set_listening, socket_disconnect.
  destruct vr, vti, vs; reflexivity.
Qed.

Lemma exec_cleanup_then {A} (f : unit -> M A) (s : State) :
  exec (cleanupVoiceCall ≫= f) s = exec (f tt) (exec cleanupVoiceCall s).
Proof.
  pose proof (cleanupVoiceCall_completes s) as H.
  unfold exec, mbind, M_bind. destruct (cleanupVoiceCall s) as [s' c].
  cbn in H. subst c. reflexivity.
Qed.

Lemma exec_gets_bind {A B} (g : State -> A) (f : A -> M B) (s : State) :
  exec (gets g ≫= f) s = exec (f (g s)) s.
Proof. reflexivity. Qed.

Lemma exec_bind_then {A B} (m : M A) (f : A -> M B) (s : State) :
  (exists a, exec (m ≫= f) s = exec (f a) (exec m s))
  \/ exec (m ≫= f) s = exec m s.
Proof.
  unfold exec, mbind, M_bind. destruct (m s) as [s' [a|e]]; cbn; eauto.
Qed.

(** After [cleanupVoiceCall] and a part that leaves the panel alone,
    the page is out of a call. *)
Lemma panel_cleanup_then (f : unit -> M unit) (s : State) :
  preserves call_panel (f tt) ->
  call_panel (exec (cleanupVoiceCall ≫= f) s) = (false, None, false, true).
Proof.
  intros Hf. rewrite exec_cleanup_then. unfold exec. rewrite Hf.
  apply panel_cleanupVoiceCall.
Qed.

Lemma panel_step (s : State) (e : Event) :
  panel_in_step s -> panel_in_step (step s e).
Proof.
  intros H.
  assert (X : forall m : M unit, preserves call_panel m -> panel_in_step (exec m s))
    by (intros m Hm; unfold panel_in_step, exec; rewrite Hm; exact H).
  destruct e as [n p| | | |k ev|t r|r ev|t ev|p c|p st|]; cbn [step].
  - apply X. preserves_tac.
  - unfold endVoiceCall. rewrite exec_gets_bind.
    destruct (exec_bind_then (when (voiceSocket_connected s) (emit end_call))
                (fun _ => cleanupVoiceCall) s) as [(a & E)|E]; rewrite E.
    + right. apply panel_cleanupVoiceCall.
    + apply X. preserves_tac.
  - apply X. preserves_tac.
  - destruct (transfer_transcript (dom s)); [|exact H]. apply X. preserves_tac.
  - destruct (socket_live s k); [|exact H].
    destruct ev; unfold on_socket;
      try solve [apply X; preserves_tac].
    + (* call_started *)
      left. destruct s as [g w d rt b].
      unfold socket_bookkeeping, handle_call_started, addVoiceTranscript,
        initSpeechRecognition, showToast, vr_set_listening. mred.
      destruct (has_SpeechRecognition b); mred;
        unfold call_panel, the_timer; cbn;
        rewrite ?length_alter, lookup_app_r, Nat.sub_diag by reflexivity;
        reflexivity.
    + (* call_ended *)
      right. unfold socket_bookkeeping, handle_call_ended.
      rewrite (exec_bind_normal _ _ s s tt) by reflexivity.
      apply panel_cleanup_then. preserves_tac.
    + (* disconnect *)
      unfold socket_bookkeeping, handle_disconnect.
      destruct (exec_bind_then (set_connected k false)
        (fun _ => act ← gets (fun s => voiceCallActive (globals s));
                  when act (cleanupVoiceCall;; showToast (JS.lit "Call disconnected") warning))
        s) as [(a & E)|E]; rewrite E; [|apply X; preserves_tac].
      set (s1 := exec (set_connected k false) s).
      assert (H1 : panel_in_step s1) by (apply X; preserves_tac).
      rewrite exec_gets_bind. destruct (voiceCallActive (globals s1)); cbn [when].
      * right. apply panel_cleanup_then. preserves_tac.
      * exact H1.
  - destruct (tasks (runtime s) !! t) as [[task|]|]; try exact H.
    apply X. apply preserves_bind; [preserves_tac|intros _].
    destruct task, r; unfold resume; preserves_tac.
  - destruct (vrecogs (runtime s) !! r); [|exact H]. apply X.
    apply panel_voice_onresult_loop.
  - destruct (trecogs (runtime s) !! t); [|exact H]. apply X.
    apply panel_transfer_onresult_loop.
  - destruct (pcs (runtime s) !! p) as [pc|]; [|exact H].
    destruct (pc_closed pc); [exact H|]. apply X. destruct c; preserves_tac.
  - destruct (pcs (runtime s) !! p) as [pc|]; [|exact H].
    destruct (pc_closed pc); [exact H|]. apply X. preserves_tac.
  - destruct (removal_timers (runtime s)); [exact H|]. apply X. preserves_tac.
Qed.

(** X11. The voice tab follows the call: in every state the page can
    reach, either the call flag is set, [voiceTimerInterval] holds a
    timer that is armed, the form is hidden and the call panel is shown,
    or the flag is clear, [voiceTimerInterval] is [null], the form is
    shown and the call panel is hidden. [call_started] is the only
    handler that brings about the first, [cleanupVoiceCall] the only
    function that brings about the second, and neither can be left half
    way. This is about the timer the variable names; a timer whose id
    was overwritten is another matter, see below. *)
Theorem call_panel_follows_the_call (b : Browser) (tr : list Event) :
  panel_in_step (run (init b) tr).
Proof.
  assert (H : panel_in_step (init b)) by (right; reflexivity).
  revert H. generalize (init b). induction tr as [|e tr IH]; intros s H; [exact H|].
  cbn [run foldl]. apply IH, panel_step, H.
Qed.

(** *** A timer whose id was overwritten *)

(** Timer [i] is armed and [voiceTimerInterval] does not name it. *)
Lemma cleanupVoiceCall_keeps_unnamed_timer (s : State) (i : nat) :
  armed s i -> voiceTimerInterval (globals s) <> Some i ->
  armed (exec cleanupVoiceCall s) i
  /\ voiceTimerInterval (globals (exec cleanupVoiceCall s)) <> Some i.
Proof.
  destruct s as [[vs vca vti vr vm vn vp] w d rt b].
  unfold cleanupVoiceCall, the_voiceSocket, vr_set_listening, socket_disconnect,
    armed.
  intros Ha Hn.
  destruct vr, vti as [j|], vs; mred; (split; [|discriminate]);
    try exact Ha; rewrite list_lookup_insert_ne by congruence; exact Ha.
Qed.

Lemma unnamed_timer_step (s : State) (e : Event) (i : nat) :
  armed s i /\ voiceTimerInterval (globals s) <> Some i ->
  armed (step s e) i /\ voiceTimerInterval (globals (step s e)) <> Some i.
Proof.
  intros H.
  pose (obs := fun s : State => (intervals (runtime s), voiceTimerInterval (globals s))).
  assert (X : forall m : M unit, preserves obs m ->
              armed (exec m s) i /\ voiceTimerInterval (globals (exec m s)) <> Some i).
  { intros m Hm. specialize (Hm s). unfold obs in Hm. unfold armed, exec.
    inversion Hm as [[E1 E2]]. rewrite E1, E2. exact H. }
  assert (Y : forall (f : unit -> M unit) (s1 : State),
              armed s1 i /\ voiceTimerInterval (globals s1) <> Some i ->
              preserves obs (f tt) ->
              armed (exec (cleanupVoiceCall ≫= f) s1) i
              /\ voiceTimerInterval (globals (exec (cleanupVoiceCall ≫= f) s1)) <> Some i).
  { intros f s1 [Ha Hn] Hf. rewrite exec_cleanup_then.
    destruct (cleanupVoiceCall_keeps_unnamed_timer s1 i Ha Hn) as [Ha' Hn'].
    revert Ha' Hn'. generalize (exec cleanupVoiceCall s1). intros s2 Ha' Hn'.
    specialize (Hf s2). unfold obs in Hf.
    unfold armed, exec. inversion Hf as [[E1 E2]]. rewrite E1, E2.
    split; assumption. }
  destruct e as [n p| | | |k ev|t r|r ev|t ev|p c|p st|]; cbn [step].
  - apply X. preserves_tac.
  - unfold endVoiceCall. rewrite exec_gets_bind.
    destruct (exec_bind_then (when (voiceSocket_connected s) (emit end_call))
                (fun _ => cleanupVoiceCall) s) as [(a & E)|E]; rewrite E.
    + assert (H1 : armed (exec (when (voiceSocket_connected s) (emit end_call)) s) i
                   /\ voiceTimerInterval (globals
                        (exec (when (voiceSocket_connected s) (emit end_call)) s))
                      <> Some i) by (apply X; preserves_tac).
      destruct H1 as [Ha Hn].
      apply cleanupVoiceCall_keeps_unnamed_timer; assumption.
    + apply X. preserves_tac.
  - apply X. preserves_tac.
  - destruct (transfer_transcript (dom s)); [|exact H]. apply X. preserves_tac.
  - destruct (socket_live s k); [|exact H].
    destruct ev; unfold on_socket;
      try solve [apply X; preserves_tac].
    + (* call_started *)
      destruct H as [Ha Hn]. destruct s as [g w d rt b].
      unfold armed in *. cbn in Ha.
      unfold socket_bookkeeping, handle_call_started, addVoiceTranscript,
        initSpeechRecognition, showToast, vr_set_listening. mred.
      assert (Hlt : i < length (intervals rt)) by (eapply lookup_lt_Some; exact Ha).
      destruct (has_SpeechRecognition b); mred;
        (split; [rewrite lookup_app_l by exact Hlt; exact Ha
                | intros [= E]; lia]).
    + (* call_ended *)
      unfold socket_bookkeeping, handle_call_ended.
      rewrite (exec_bind_normal _ _ s s tt) by reflexivity.
      apply Y; [exact H | preserves_tac].
    + (* disconnect *)
      unfold socket_bookkeeping, handle_disconnect.
      destruct (exec_bind_then (set_connected k false)
        (fun _ => act ← gets (fun s => voiceCallActive (globals s));
                  when act (cleanupVoiceCall;; showToast (JS.lit "Call disconnected") warning))
        s) as [(a & E)|E]; rewrite E; [|apply X; preserves_tac].
      set (s1 := exec (set_connected k false) s).
      assert (H1 : armed s1 i /\ voiceTimerInterval (globals s1) <> Some i)
        by (apply X; preserves_tac).
      rewrite exec_gets_bind. destruct (voiceCallActive (globals s1)); cbn [when].
      * apply Y; [exact H1 | preserves_tac].
      * exact H1.
  - destruct (tasks (runtime s) !! t) as [[task|]|]; try exact H.
    apply X. apply preserves_bind; [preserves_tac|intros _].
    destruct task, r; unfold resume; preserves_tac.
  - destruct (vrecogs (runtime s) !! r); [|exact H]. apply X.
    unfold voice_onresult. generalize (drop (resultIndex ev) (results ev)).
    intros rs. induction rs as [|res rest IH]; cbn [voice_onresult_loop];
      [apply preserves_ret|].
    apply preserves_bind; [|intros _; exact IH]. preserves_tac.
  - destruct (trecogs (runtime s) !! t) as [tr|]; [|exact H]. apply X.
    unfold transfer_onresult. generalize (drop (resultIndex ev) (results ev)).
    intros rs. induction rs as [|res rest IH]; cbn [transfer_onresult_loop];
      [apply preserves_ret|].
    apply preserves_bind; [|intros _; exact IH]. preserves_tac.
  - destruct (pcs (runtime s) !! p) as [pc|]; [|exact H].
    destruct (pc_closed pc); [exact H|]. apply X. destruct c; preserves_tac.
  - destruct (pcs (runtime s) !! p) as [pc|]; [|exact H].
    destruct (pc_closed pc); [exact H|]. apply X. preserves_tac.
  - destruct (removal_timers (runtime s)); [exact H|]. apply X. preserves_tac.
Qed.

(** X23. The timer of a call that a further [call_started] restarts is
    never cleared. [call_started] assigns the new timer to
    [voiceTimerInterval] without [clearInterval] for the one the
    variable held, and [cleanupVoiceCall] clears only the timer the
    variable holds: whatever the page does afterwards, ending the call
    included, the first timer stays armed and goes on rewriting the
    timer text every second. *)
Theorem restarted_call_leaves_a_timer_armed (s : State) (k i : nat)
    (session_id greeting : option jsstring) (tr : list Event) :
  socket_live s k = true ->
  voiceTimerInterval (globals s) = Some i ->
  armed s i ->
  armed (run (step s (FromSocket k (on_call_started session_id greeting))) tr) i.
Proof.
  intros Hlive Hv Ha.
  assert (H : armed (step s (FromSocket k (on_call_started session_id greeting))) i
              /\ voiceTimerInterval
                   (globals (step s (FromSocket k (on_call_started session_id greeting))))
                 <> Some i).
  { unfold step. rewrite Hlive. destruct s as [g w d rt b].
    unfold armed in *. cbn in Ha.
    unfold socket_bookkeeping, on_socket, handle_call_started, addVoiceTranscript,
      initSpeechRecognition, showToast, vr_set_listening. mred.
    assert (Hlt : i < length (intervals rt)) by (eapply lookup_lt_Some; exact Ha).
    destruct (has_SpeechRecognition b); mred;
      (split; [rewrite lookup_app_l by exact Hlt; exact Ha
              | intros [= E]; lia]). }
  revert H. generalize (step s (FromSocket k (on_call_started session_id greeting))).
  induction tr as [|e tr IH]; intros s1 H; [exact (proj1 H)|].
  cbn [run foldl]. apply IH, unnamed_timer_step, H.
Qed.

(** The call of [ai_phase_trace], restarted and then ended by the
    customer: the first timer is still armed. *)
Lemma restarted_call_leaves_a_timer_armed_witness :
  armed
    (run (step (run (init chrome) ai_phase_trace)
            (FromSocket 0 (on_call_started (Some (JS.lit "s2"))
                             (Some (JS.lit "Hello again")))))
       [Click_endVoiceCall]) 0.
Proof.
  apply (restarted_call_leaves_a_timer_armed
           (run (init chrome) ai_phase_trace) 0 0
           (Some (JS.lit "s2")) (Some (JS.lit "Hello again"))
           [Click_endVoiceCall]);
    vm_compute; reflexivity.
Defined.

(** ** Durations as text *)

Lemma lit_cons (c : ascii) (s : string) :
  JS.lit (String c s) = N_of_ascii c :: JS.lit s.
Proof. reflexivity. Qed.

Lemma digits_of_uint (d : uint) : Forall is_digit (JS.lit (NilEmpty.string_of_uint d)).
Proof.
  induction d; cbn [NilEmpty.string_of_uint]; rewrite ?lit_cons;
    constructor; try exact IHd; unfold is_digit; cbn; lia.
Qed.

(** The decimal numeral behind the text of a natural number. *)
Lemma uint_of_N (x : N) :
  exists d, d <> Nil
    /\ JS.ofZ (Z.of_N x) = JS.lit (NilEmpty.string_of_uint d)
    /\ Z.of_uint d = Z.of_N x.
Proof.
  destruct x as [|p].
  - exists (D0 Nil). repeat split. discriminate.
  - exists (Pos.to_uint p). split; [apply Unsigned.to_uint_nonnil|]. split.
    + unfold JS.ofZ. cbn [Z.of_N Z.to_int NilZero.string_of_int].
      unfold NilZero.string_of_uint.
      destruct (Pos.to_uint p) eqn:E; try reflexivity.
      exfalso. apply (Unsigned.to_uint_nonnil p E).
    + exact (DecimalZ.of_to (Z.pos p)).
Qed.

(** ... and behind that text padded to two digits: a leading zero does
    not change the number. *)
Lemma uint_of_padded (x : N) :
  exists d, JS.padStart 2 48 (JS.ofZ (Z.of_N x)) = JS.lit (NilEmpty.string_of_uint d)
    /\ Z.of_uint d = Z.of_N x.
Proof.
  destruct (uint_of_N x) as (d & Hd & -> & Hv). unfold JS.padStart.
  assert (Hlen : 1 <= length (JS.lit (NilEmpty.string_of_uint d)))
    by (destruct d; try congruence; cbn [NilEmpty.string_of_uint];
        rewrite lit_cons; cbn [length]; lia).
  destruct (decide (length (JS.lit (NilEmpty.string_of_uint d)) = 1)) as [E|E].
  - exists (D0 d). rewrite E. split; [reflexivity | exact Hv].
  - exists d. replace (2 - _) with 0 by lia. split; [reflexivity | exact Hv].
Qed.

Lemma uint_inj (d e : uint) :
  JS.lit (NilEmpty.string_of_uint d) = JS.lit (NilEmpty.string_of_uint e) -> d = e.
Proof.
  intros H. apply lit_inj in H.
  pose proof (NilEmpty.usu d) as Hd. rewrite H, NilEmpty.usu in Hd. congruence.
Qed.

Lemma padded_inj (x y : N) :
  JS.padStart 2 48 (JS.ofZ (Z.of_N x)) = JS.padStart 2 48 (JS.ofZ (Z.of_N y)) -> x = y.
Proof.
  destruct (uint_of_padded x) as (d & -> & Hd), (uint_of_padded y) as (e & -> & He).
  intros H. apply uint_inj in H. subst e. lia.
Qed.

Lemma digits_ofZ (x : N) : Forall is_digit (JS.ofZ (Z.of_N x)).
Proof. destruct (uint_of_N x) as (d & _ & -> & _). apply digits_of_uint. Qed.

Lemma digits_padded (x : N) : Forall is_digit (JS.padStart 2 48 (JS.ofZ (Z.of_N x))).
Proof. destruct (uint_of_padded x) as (d & -> & _). apply digits_of_uint. Qed.

(** Digits on both sides of a colon can be read back. *)
Lemma split_at_colon (a a' b b' : jsstring) :
  Forall is_digit a -> Forall is_digit a' ->
  a ++ JS.lit ":" ++ b = a' ++ JS.lit ":" ++ b' -> a = a' /\ b = b'.
Proof.
  change (JS.lit ":") with [58%N]. intros Ha. revert a'.
  induction Ha as [|c a Hc Ha IH]; intros a' Ha' H; destruct Ha' as [|c' a' Hc' Ha'];
    cbn in H.
  - injection H as ->. auto.
  - injection H as <- _. unfold is_digit in Hc'. lia.
  - injection H as -> _. unfold is_digit in Hc. lia.
  - injection H as -> H. destruct (IH a' Ha' H) as (-> & ->). auto.
Qed.

Lemma divmod_60 (x y : N) :
  (x / 60 = y / 60 -> x mod 60 = y mod 60 -> x = y)%N.
Proof.
  intros Hq Hr. rewrite (N.div_mod x 60), (N.div_mod y 60) by lia. congruence.
Qed.

Lemma padded_small (x : N) :
  (x < 100)%N -> length (JS.padStart 2 48 (JS.ofZ (Z.of_N x))) = 2.
Proof.
  intros H. rewrite <- (N2Nat.id x).
  assert (Hn : N.to_nat x < 100) by lia. revert Hn. generalize (N.to_nat x). clear.
  intros n Hn.
  do 100 (destruct n as [|n]; [vm_compute; reflexivity|]). lia.
Qed.

Lemma ofZ_small (x : N) : (x < 10)%N -> length (JS.ofZ (Z.of_N x)) = 1.
Proof.
  intros H. rewrite <- (N2Nat.id x).
  assert (Hn : N.to_nat x < 10) by lia. revert Hn. generalize (N.to_nat x). clear.
  intros n Hn.
  do 10 (destruct n as [|n]; [vm_compute; reflexivity|]). lia.
Qed.

(** X12. The text of the call timer tells the duration: two different
    numbers of seconds (whole numbers that a JavaScript number holds
    exactly) never give the same text, and below a hundred minutes the
    text has the five code units of [MM:SS], the colon in the middle. *)
Theorem timer_text_is_faithful (x y : N) :
  ((x < 2 ^ 53)%N -> (y < 2 ^ 53)%N ->
   formatVoiceTime x = formatVoiceTime y -> x = y)
  /\ ((x < 6000)%N ->
      length (formatVoiceTime x) = 5 /\ formatVoiceTime x !! 2 = Some 58%N).
Proof.
  unfold formatVoiceTime. split.
  - intros _ _ H. apply split_at_colon in H as (Hm & Hs); try apply digits_padded.
    apply divmod_60; apply padded_inj; assumption.
  - intros H.
    assert (Hm : (x / 60 < 100)%N) by (apply N.Div0.div_lt_upper_bound; lia).
    assert (Hs : (x mod 60 < 100)%N) by (pose proof (N.mod_upper_bound x 60); lia).
    apply padded_small in Hm, Hs. split.
    + rewrite !length_app, Hm, Hs. reflexivity.
    + rewrite lookup_app_r by lia. rewrite Hm. reflexivity.
Qed.

Lemma timer_text_is_faithful_witness :
  length (formatVoiceTime 125) = 5 /\ formatVoiceTime 125 !! 2 = Some 58%N.
Proof.
  apply (proj2 (timer_text_is_faithful 125 0)). reflexivity.
Defined.

(** X13. [formatDuration] of the call log and [formatDuration] of the
    voice page give the same text for a number of seconds, so the test
    for a missing value changes nothing for 0; a missing value reads
    [0:00]; two different numbers of seconds (whole numbers that a
    JavaScript number holds exactly) never give the same text; and
    below ten minutes the text has four code units: the minutes are
    not padded. *)
Theorem duration_text_is_faithful (x y : N) :
  formatDuration (Some x) = Voice.formatDuration x
  /\ formatDuration None = JS.lit "0:00"
  /\ ((x < 2 ^ 53)%N -> (y < 2 ^ 53)%N ->
      Voice.formatDuration x = Voice.formatDuration y -> x = y)
  /\ ((x < 600)%N -> length (Voice.formatDuration x) = 4).
Proof.
  split; [destruct x; reflexivity|]. split; [reflexivity|].
  unfold Voice.formatDuration. split.
  - intros _ _ H. apply split_at_colon in H as (Hm & Hs); try apply digits_ofZ.
    apply divmod_60; [apply N2Z.inj, ofZ_inj | apply padded_inj]; assumption.
  - intros H.
    assert (Hm : (x / 60 < 10)%N) by (apply N.Div0.div_lt_upper_bound; lia).
    assert (Hs : (x mod 60 < 100)%N) by (pose proof (N.mod_upper_bound x 60); lia).
    apply ofZ_small in Hm. apply padded_small in Hs.
    rewrite !length_app, Hm, Hs. reflexivity.
Qed.

Lemma duration_text_is_faithful_witness :
  length (Voice.formatDuration 65) = 4
  /\ Voice.formatDuration 65 = JS.lit "1:05".
Proof.
  split; [|vm_compute; reflexivity].
  apply (proj2 (proj2 (proj2 (duration_text_is_faithful 65 0)))). reflexivity.
Defined.

(** ** The feedback modal *)

Section FeedbackModal.
Import Feedback.

Lemma includes_In (v : option jsstring) (l : list (option jsstring)) :
  includes v l = true <-> In v l.
Proof.
  unfold includes. rewrite existsb_exists. split.
  - intros (t & Hin & Ht). apply bool_decide_eq_true in Ht. subst. exact Hin.
  - intros H. exists v. split; [exact H | apply bool_decide_eq_true; reflexivity].
Qed.

Lemma In_without (v w : option jsstring) (l : list (option jsstring)) :
  In w (List.filter (fun t => negb (bool_decide (t = v))) l) <-> In w l /\ w <> v.
Proof.
  rewrite filter_In. split; intros (H1 & H2); (split; [exact H1|]).
  - intros ->. rewrite bool_decide_true in H2 by reflexivity. discriminate.
  - rewrite bool_decide_false by exact H2. reflexivity.
Qed.

Lemma NoDup_filter' {A} (f : A -> bool) (l : list A) :
  NoDup l -> NoDup (List.filter f l).
Proof.
  induction 1 as [|x l Hx Hl IH]; cbn; [constructor|].
  destruct (f x); [|exact IH]. constructor; [|exact IH].
  rewrite list_elem_of_In, filter_In. rewrite list_elem_of_In in Hx. tauto.
Qed.

Lemma NoDup_snoc' {A} (l : list A) (x : A) : NoDup l -> ~ In x l -> NoDup (l ++ [x]).
Proof.
  intros Hl Hx. apply list.NoDup_app. split; [exact Hl|]. split.
  - intros y Hy Hy'. apply list_elem_of_In in Hy. apply list_elem_of_In in Hy'.
    destruct Hy' as [<-|[]]. exact (Hx Hy).
  - apply NoDup_singleton.
Qed.

(** Toggling a value in the list of selected tags. *)
Lemma toggled_tags (v : option jsstring) (l : list (option jsstring)) :
  NoDup l ->
  let l' := if includes v l
            then List.filter (fun t => negb (bool_decide (t = v))) l
            else l ++ [v] in
  NoDup l'
  /\ (In v l' <-> ~ In v l)
  /\ (forall w, w <> v -> In w l' <-> In w l).
Proof.
  intros Hl. cbv zeta. destruct (includes v l) eqn:E.
  - apply includes_In in E. split; [apply NoDup_filter', Hl|]. split.
    + rewrite In_without. tauto.
    + intros w Hw. rewrite In_without. tauto.
  - assert (Hv : ~ In v l) by (rewrite <- includes_In, E; discriminate).
    split; [apply NoDup_snoc'; assumption|]. split.
    + split; [auto|]. intros _. apply in_or_app. right. left. reflexivity.
    + intros w Hw. split; [|intros H; apply in_or_app; left; exact H].
      intros H. apply in_app_or in H as [H|[H|[]]]; [exact H | congruence].
Qed.

Lemma values_click_tag (i : nat) (s : State) :
  map tag_value (tag_elems (click_tag i s)) = map tag_value (tag_elems s).
Proof.
  unfold click_tag. destruct (tag_elems s !! i) as [tag|] eqn:E; [|reflexivity].
  cbn. rewrite list_fmap_insert. cbn. apply list_insert_id.
  rewrite list_lookup_fmap, E. reflexivity.
Qed.

Lemma values_step (s : State) (e : Event) :
  map tag_value (tag_elems (step s e)) = map tag_value (tag_elems s)
  /\ map star_rating (stars (step s e)) = map star_rating (stars s).
Proof.
  destruct e as [c| |i|i|t| |a]; cbn [step]; auto.
  - cbn. rewrite <- !list_fmap_compose. split; apply list_fmap_ext; auto.
  - unfold click_star. destruct (stars s !! i); [|auto]. cbn.
    rewrite <- list_fmap_compose. split; [reflexivity | apply list_fmap_ext; auto].
  - split; [apply values_click_tag|].
    unfold click_tag. destruct (tag_elems s !! i); reflexivity.
  - unfold submitFeedback. destruct (number_is_zero _); auto.
  - destruct (in_flight s); [auto|]. destruct a as [[|]|]; auto.
Qed.

Lemma shows_selection_open (c : option jsstring) (s : State) :
  shows_selection (showFeedbackModal c s).
Proof.
  unfold shows_selection. cbn. split; [|split].
  - intros tag H. apply in_map_iff in H as (t & <- & _). cbn.
    split; [discriminate | intros []].
  - constructor.
  - intros star H. apply in_map_iff in H as (st & <- & _). reflexivity.
Qed.

Lemma shows_selection_step (s : State) (e : Event) :
  NoDup (map tag_value (tag_elems s)) ->
  shows_selection s -> shows_selection (step s e).
Proof.
  intros Hnd (Ht & Hs & Hr).
  destruct e as [c| |i|i|t| |a]; cbn [step].
  - apply shows_selection_open.
  - split; [|split]; assumption.
  - unfold click_star. destruct (stars s !! i) as [star|]; [|split; [|split]; assumption].
    split; [exact Ht|]. split; [exact Hs|]. cbn.
    intros st H. apply in_map_iff in H as (st0 & <- & _). reflexivity.
  - unfold click_tag. destruct (tag_elems s !! i) as [tag|] eqn:E;
      [|split; [|split]; assumption].
    destruct (toggled_tags (tag_value tag) (selectedTags s) Hs) as (N1 & N2 & N3).
    split; [|split; [exact N1 | exact Hr]]. cbn.
    intros tg Hin. apply list_elem_of_In, list_elem_of_lookup in Hin as (j & Hj).
    destruct (decide (j = i)) as [->|Hne].
    + rewrite list_lookup_insert_eq in Hj by (eapply lookup_lt_Some, E).
      injection Hj as <-. cbn. rewrite N2.
      rewrite <- (Ht tag) by (eapply list_elem_of_In, list_elem_of_lookup_2, E).
      destruct (tag_active tag); cbn; split; congruence.
    + rewrite list_lookup_insert_ne in Hj by congruence.
      assert (Hv : tag_value tg <> tag_value tag).
      { intros Hv. apply Hne.
        eapply (NoDup_lookup (map tag_value (tag_elems s))); [exact Hnd| |].
        - rewrite list_lookup_fmap, Hj. reflexivity.
        - rewrite list_lookup_fmap, E. cbn. rewrite Hv. reflexivity. }
      rewrite (N3 _ Hv). apply Ht.
      eapply list_elem_of_In, list_elem_of_lookup_2, Hj.
  - split; [|split]; assumption.
  - unfold submitFeedback. destruct (number_is_zero _); split; [|split| |split]; assumption.
  - destruct (in_flight s); [split; [|split]; assumption|].
    destruct a as [[|]|]; split; [|split| |split| |split]; assumption.
Qed.

(** X14. Once the feedback modal has been opened on a page whose tags
    have distinct values, whatever is clicked, typed, submitted or
    answered afterwards, the modal shows the selection: a tag is
    highlighted exactly when its value is selected, no value is
    selected twice, and a star is highlighted exactly when its rating
    is at most the selected one. *)
Theorem modal_shows_the_selection
    (s0 : State) (callId : option jsstring) (evs : list Event) :
  NoDup (map tag_value (tag_elems s0)) ->
  shows_selection (run (showFeedbackModal callId s0) evs).
Proof.
  intros Hnd.
  assert (H : NoDup (map tag_value (tag_elems (showFeedbackModal callId s0)))
              /\ shows_selection (showFeedbackModal callId s0)).
  { split; [|apply shows_selection_open]. cbn. rewrite <- list_fmap_compose. exact Hnd. }
  revert H. generalize (showFeedbackModal callId s0). clear.
  induction evs as [|e evs IH]; intros s (Hnd & Hs); [exact Hs|].
  cbn [run foldl]. apply IH. split.
  - rewrite (proj1 (values_step s e)). exact Hnd.
  - apply shows_selection_step; assumption.
Qed.

Lemma number_is_zero_false (n : number) : number_is_zero n = false -> n <> Some 0%Z.
Proof. intros H ->. discriminate. Qed.

Lemma well_kept_step (ratings : list number) (values : list (option jsstring))
    (s : State) (e : Event) :
  well_kept ratings values s -> well_kept ratings values (step s e).
Proof.
  intros (K1 & K2 & K3 & K4 & K5 & K6).
  destruct (values_step s e) as (V1 & V2).
  unfold well_kept. rewrite V1, V2. split; [exact K1|]. split; [exact K2|].
  destruct e as [c| |i|i|t| |a]; cbn [step].
  - cbn. split; [constructor|]. split; [intros ? []|]. split; [left; reflexivity | exact K6].
  - cbn. auto.
  - unfold click_star. destruct (stars s !! i) as [star|] eqn:E; [|auto].
    cbn. split; [exact K3|]. split; [exact K4|]. split; [|exact K6].
    right. rewrite <- K1. apply in_map. eapply list_elem_of_In, list_elem_of_lookup_2, E.
  - unfold click_tag. destruct (tag_elems s !! i) as [tag|] eqn:E; [|auto].
    destruct (toggled_tags (tag_value tag) (selectedTags s) K3) as (N1 & N2 & N3).
    cbn. split; [exact N1|]. split; [|auto].
    intros t Ht. destruct (decide (t = tag_value tag)) as [->|Hne].
    + rewrite <- K2. apply in_map. eapply list_elem_of_In, list_elem_of_lookup_2, E.
    + apply K4. apply (N3 _ Hne). exact Ht.
  - cbn. auto.
  - unfold submitFeedback. destruct (number_is_zero (selectedRating s)) eqn:Z; [cbn; auto|].
    cbn. split; [exact K3|]. split; [exact K4|]. split; [exact K5|].
    apply Forall_app. split; [exact K6|]. constructor; [|constructor].
    apply number_is_zero_false in Z.
    unfold acceptable. cbn. split; [exact Z|]. split; [tauto|]. split; assumption.
  - destruct (in_flight s); [auto|]. destruct a as [[|]|]; cbn; auto.
Qed.

Lemma well_kept_run (ratings : list number) (values : list (option jsstring))
    (s : State) (evs : list Event) :
  well_kept ratings values s -> well_kept ratings values (run s evs).
Proof.
  revert s. induction evs as [|e evs IH]; intros s H; [exact H|].
  cbn [run foldl]. apply IH, well_kept_step, H.
Qed.

(** X15. Every feedback request that the page posts carries a rating
    that is not 0 and is the rating of one of the stars, and tags that
    are values of tags of the page, each at most once. *)
Theorem posted_feedback_is_acceptable
    (ratings : list number) (values : list (option jsstring)) (evs : list Event) :
  Forall (acceptable ratings values) (posted (run (init ratings values) evs)).
Proof.
  apply (well_kept_run ratings values (init ratings values) evs).
  unfold well_kept, init. cbn. rewrite <- !list_fmap_compose.
  split; [apply list_fmap_id|]. split; [apply list_fmap_id|].
  split; [constructor|]. split; [intros ? []|]. split; [left; reflexivity | constructor].
Qed.

Lemma rating_without_star (s : State) (e : Event) :
  is_star_click e = false -> selectedRating s = Some 0%Z ->
  selectedRating (step s e) = Some 0%Z /\ posted (step s e) = posted s.
Proof.
  intros He Hz. destruct e as [c| |i|i|t| |a]; try discriminate; cbn [step]; auto.
  - unfold click_tag. destruct (tag_elems s !! i); auto.
  - unfold submitFeedback. rewrite Hz. auto.
  - destruct (in_flight s); [auto|]. destruct a as [[|]|]; auto.
Qed.

(** X16. Opening the modal resets the rating: as long as no star is
    clicked after that, nothing is posted, whatever else is done. A
    rating given for an earlier call is not sent for this one. *)
Theorem no_feedback_without_a_star
    (s : State) (callId : option jsstring) (evs : list Event) :
  forallb (fun e => negb (is_star_click e)) evs = true ->
  posted (run (showFeedbackModal callId s) evs) = posted s.
Proof.
  change (posted s) with (posted (showFeedbackModal callId s)).
  assert (Hz : selectedRating (showFeedbackModal callId s) = Some 0%Z) by reflexivity.
  revert Hz. generalize (showFeedbackModal callId s). clear s.
  induction evs as [|e evs IH]; intros s Hz H; [reflexivity|].
  cbn in H. apply andb_prop in H as (He & H). apply negb_true_iff in He.
  destruct (rating_without_star s e He Hz) as (Hz' & Hp).
  cbn [run foldl]. rewrite <- Hp. apply IH; assumption.
Qed.

Lemma modal_shows_the_selection_witness :
  let page := init [Some 1; Some 2; Some 3; Some 4; Some 5]%Z
                [Some (JS.lit "helpful"); Some (JS.lit "quick"); Some (JS.lit "rude")] in
  let s := run (showFeedbackModal (Some (JS.lit "c1")) page)
             [ClickTag 0; ClickTag 2; ClickStar 3; ClickTag 0; ClickTag 1] in
  shows_selection s
  /\ selectedTags s = [Some (JS.lit "rude"); Some (JS.lit "quick")]
  /\ map star_active (stars s) = [true; true; true; true; false].
Proof.
  split; [|vm_compute; auto].
  apply (modal_shows_the_selection
    (init [Some 1; Some 2; Some 3; Some 4; Some 5]%Z
       [Some (JS.lit "helpful"); Some (JS.lit "quick"); Some (JS.lit "rude")])
    (Some (JS.lit "c1"))
    [ClickTag 0; ClickTag 2; ClickStar 3; ClickTag 0; ClickTag 1]).
  apply (bool_decide_unpack _). vm_compute. reflexivity.
Defined.

Lemma no_feedback_without_a_star_witness :
  let page := init [Some 1; Some 2; Some 3; Some 4; Some 5]%Z [Some (JS.lit "helpful")] in
  let rated := run page [Open (Some (JS.lit "c1")); ClickStar 4; Close] in
  selectedRating rated = Some 5%Z
  /\ posted (run (showFeedbackModal (Some (JS.lit "c2")) rated)
              [ClickTag 0; TypeComment (JS.lit "thanks"); Submit; Submit])
     = posted rated.
Proof.
  split; [vm_compute; reflexivity|].
  apply (no_feedback_without_a_star
    (run (init [Some 1; Some 2; Some 3; Some 4; Some 5]%Z [Some (JS.lit "helpful")])
       [Open (Some (JS.lit "c1")); ClickStar 4; Close])
    (Some (JS.lit "c2"))
    [ClickTag 0; TypeComment (JS.lit "thanks"); Submit; Submit]).
  reflexivity.
Defined.

End FeedbackModal.

(** ** The chat *)

Section ChatFacts.
Import Chat.

Lemma indicators_app (a b : list Child) : indicators (a ++ b) = indicators a + indicators b.
Proof. unfold indicators. rewrite List.filter_app, length_app. reflexivity. Qed.

Lemma shown_as_sent_app (a b : list Child) :
  shown_as_sent (a ++ b) = shown_as_sent a ++ shown_as_sent b.
Proof. unfold shown_as_sent. apply omap_app. Qed.

(** Plain text stays plain when it is trimmed. *)
Lemma plain_trimStart (t : jsstring) : plain t = true -> plain (JS.trimStart t) = true.
Proof.
  induction t as [|c t IH]; [reflexivity|]. cbn [JS.trimStart].
  destruct (JS.isWhiteSpace c); [|trivial].
  unfold plain. cbn [forallb]. intros H. apply andb_true_iff in H as [_ H].
  apply IH, H.
Qed.

Lemma plain_rev (t : jsstring) : plain (rev t) = plain t.
Proof.
  unfold plain. induction t as [|c t IH]; [reflexivity|].
  cbn [rev forallb]. rewrite forallb_app, IH. cbn. rewrite andb_true_r.
  apply andb_comm.
Qed.

Lemma plain_trim (t : jsstring) : plain t = true -> plain (JS.trim t) = true.
Proof.
  intros H. unfold JS.trim, JS.trimEnd. rewrite plain_rev.
  apply plain_trimStart. rewrite plain_rev. apply plain_trimStart, H.
Qed.

(** Among plain messages the first indicator is the element that
    [getElementById] finds. *)
Lemma remove_indicator_plain (cs : list Child) :
  forallb plain_child cs = true ->
  exists cs',
    remove_indicator cs = Some cs'
    /\ forallb plain_child cs' = true
    /\ indicators cs' = pred (indicators cs)
    /\ shown_as_sent cs' = shown_as_sent cs.
Proof.
  induction cs as [|c cs IH]; intros H.
  - exists []. auto.
  - cbn [forallb] in H. apply andb_true_iff in H as [Hc H].
    destruct c as [content type time|].
    + destruct (IH H) as (cs' & E & P & I & S).
      exists (message content type time :: cs').
      cbn [remove_indicator]. cbn [plain_child] in Hc. rewrite Hc, E.
      split; [reflexivity|]. split; [cbn [forallb plain_child]; rewrite Hc, P; reflexivity|].
      split; [exact I|].
      change (shown_as_sent ([message content type time] ++ cs')
              = shown_as_sent ([message content type time] ++ cs)).
      rewrite !shown_as_sent_app, S. reflexivity.
    + exists cs. auto.
Qed.

(** What [sendMessage] does to a state. *)
Lemma sendMessage_effect (now : jsstring) (s : State) :
  let m := JS.trim (chat_input s) in
  sendMessage now s
  = if JS.truthy m
    then {| chat_input := [];
            chat_messages := chat_messages s ++ [message m user now; typing_indicator];
            posted := posted s ++ [m];
            in_flight := S (in_flight s) |}
    else s.
Proof.
  cbv zeta. unfold sendMessage. destruct (JS.truthy (JS.trim (chat_input s))); cbn;
    [|reflexivity].
  rewrite <- app_assoc. reflexivity.
Qed.

Lemma plain_page_sendMessage (now : jsstring) (s : State) :
  plain now = true -> plain_page s -> plain_page (sendMessage now s).
Proof.
  intros Hnow (Hi & Hm). rewrite sendMessage_effect. cbv zeta.
  destruct (JS.truthy (JS.trim (chat_input s))); [|split; assumption].
  unfold plain_page. cbn [chat_input chat_messages].
  rewrite forallb_app, Hm. cbn [forallb plain_child andb].
  rewrite (plain_trim _ Hi), Hnow. auto.
Qed.

(** At most one indicator for each request not answered yet, exactly
    one when [eq] is set. *)
Definition in_step (eq : bool) (s : State) : Prop :=
  indicators (chat_messages s) <= in_flight s
  /\ (eq = true -> indicators (chat_messages s) = in_flight s).

Lemma in_step_sendMessage (eq : bool) (now : jsstring) (s : State) :
  in_step eq s -> in_step eq (sendMessage now s).
Proof.
  intros (Hle & Heq). rewrite sendMessage_effect. cbv zeta.
  destruct (JS.truthy (JS.trim (chat_input s))); [|split; assumption].
  unfold in_step. cbn [chat_messages in_flight]. rewrite indicators_app.
  change (indicators [message (JS.trim (chat_input s)) user now; typing_indicator])
    with 1.
  split; [lia|]. intros E. specialize (Heq E). lia.
Qed.

Lemma in_step_removeTypingIndicator (s : State) :
  plain_page s ->
  exists s',
    removeTypingIndicator s = Some s'
    /\ plain_page s'
    /\ indicators (chat_messages s') = pred (indicators (chat_messages s))
    /\ shown_as_sent (chat_messages s') = shown_as_sent (chat_messages s)
    /\ posted s' = posted s /\ in_flight s' = in_flight s.
Proof.
  intros (Hi & Hm). unfold removeTypingIndicator.
  destruct (remove_indicator_plain _ Hm) as (cs' & E & P & I & S).
  rewrite E. cbn. eexists. split; [reflexivity|]. unfold plain_page. cbn. auto.
Qed.

(** A message of the bot in plain text changes neither count. *)
Lemma bot_message_effect (content timestamp : option jsstring) (now : jsstring)
    (s : State) :
  plain (JS.toStr content) = true -> plain (JS.or_else timestamp now) = true ->
  plain_page s ->
  plain_page (addChatMessage content bot timestamp now s)
  /\ indicators (chat_messages (addChatMessage content bot timestamp now s))
     = indicators (chat_messages s)
  /\ shown_as_sent (chat_messages (addChatMessage content bot timestamp now s))
     = shown_as_sent (chat_messages s).
Proof.
  intros Hc Ht (Hi & Hm). unfold addChatMessage, plain_page.
  cbn [chat_input chat_messages].
  rewrite forallb_app, indicators_app, shown_as_sent_app, Hm.
  cbn [forallb plain_child andb]. rewrite Hc, Ht.
  change (indicators [message (JS.toStr content) bot (JS.or_else timestamp now)])
    with 0.
  change (shown_as_sent [message (JS.toStr content) bot (JS.or_else timestamp now)])
    with (@nil (option jsstring)).
  rewrite app_nil_r, Nat.add_0_r. auto.
Qed.

Lemma in_step_catch (now : jsstring) (s : State) :
  plain now = true -> plain_page s ->
  exists s',
    sendMessage_catch now s = Some s'
    /\ plain_page s'
    /\ indicators (chat_messages s') = pred (indicators (chat_messages s))
    /\ shown_as_sent (chat_messages s') = shown_as_sent (chat_messages s)
    /\ posted s' = posted s /\ in_flight s' = in_flight s.
Proof.
  intros Hnow Hp. unfold sendMessage_catch.
  destruct (in_step_removeTypingIndicator s Hp) as (s1 & E & Hp1 & I & S & P & F).
  rewrite E. cbn [mbind option_bind]. eexists. split; [reflexivity|].
  destruct (bot_message_effect
              (Some (JS.lit "Sorry, I encountered an error. Please try again."))
              None now s1) as (Hp2 & I2 & S2);
    [vm_compute; reflexivity | exact Hnow | exact Hp1 |].
  rewrite I2, S2, I, S. auto.
Qed.

(** What an answer does to a plain page. *)
Lemma settled_effect (a : Answer) (now : jsstring) (s : State) :
  plain_event (Settled a now) = true -> plain_page s ->
  exists s',
    sendMessage_settled a now s = Some s'
    /\ plain_page s'
    /\ indicators (chat_messages s')
       = match a with
         | answered_null => pred (pred (indicators (chat_messages s)))
         | _ => pred (indicators (chat_messages s))
         end
    /\ shown_as_sent (chat_messages s') = shown_as_sent (chat_messages s)
    /\ posted s' = posted s /\ in_flight s' = in_flight s.
Proof.
  intros He Hp. destruct a as [r t| |]; cbn [sendMessage_settled plain_event] in *.
  - destruct (in_step_removeTypingIndicator s Hp) as (s1 & E & Hp1 & I & S & P & F).
    rewrite E. cbn [mbind option_bind]. eexists. split; [reflexivity|].
    apply andb_true_iff in He as [Hr Ht].
    destruct (bot_message_effect r t now s1 Hr Ht Hp1) as (Hp2 & I2 & S2).
    rewrite I2, S2, I, S. auto.
  - destruct (in_step_removeTypingIndicator s Hp) as (s1 & E & Hp1 & I & S & P & F).
    rewrite E. cbn [mbind option_bind].
    destruct (in_step_catch now s1 He Hp1) as (s2 & E2 & Hp2 & I2 & S2 & P2 & F2).
    exists s2. rewrite I2, S2, P2, F2, I.
    split; [exact E2|]. split; [exact Hp2|]. repeat split; auto.
  - apply in_step_catch; assumption.
Qed.

Lemma in_step_step (eq : bool) (s : State) (e : Event) :
  plain_event e = true -> (eq = true -> is_null_answer e = false) ->
  plain_page s -> in_step eq s ->
  exists s', step s e = Some s' /\ plain_page s' /\ in_step eq s'.
Proof.
  intros He Hn Hp H. destruct e as [v|key now|m now|a now]; cbn [step].
  - eexists. split; [reflexivity|]. split; [|exact H].
    destruct Hp as (Hi & Hm). split; [exact He | exact Hm].
  - eexists. split; [reflexivity|]. unfold handleChatKeypress.
    destruct (bool_decide _); [|auto].
    split; [apply plain_page_sendMessage; assumption|].
    apply in_step_sendMessage, H.
  - eexists. split; [reflexivity|]. cbn [plain_event] in He.
    apply andb_true_iff in He as [Hm Hnow]. unfold sendQuickReply.
    split; [apply plain_page_sendMessage; [exact Hnow|]
           | apply in_step_sendMessage; exact H].
    destruct Hp as (Hi & Hcs). split; [exact Hm | exact Hcs].
  - destruct H as (Hle & Heq).
    destruct (in_flight s) as [|n] eqn:E.
    + eexists. split; [reflexivity|]. unfold in_step. rewrite E. auto.
    + destruct (settled_effect a now
        {| chat_input := chat_input s; chat_messages := chat_messages s;
           posted := posted s; in_flight := n |} He Hp)
        as (s' & E' & Hp' & I & _ & _ & F).
      exists s'. split; [exact E'|]. split; [exact Hp'|].
      cbn [chat_messages in_flight] in I, F.
      unfold in_step. rewrite F.
      destruct a as [r t| |]; rewrite I.
      * split; [lia|]. intros Q. specialize (Heq Q). lia.
      * split; [lia|]. intros Q. specialize (Hn Q). discriminate Hn.
      * split; [lia|]. intros Q. specialize (Heq Q). lia.
Qed.

Lemma in_step_run (eq : bool) (evs : list Event) (s : State) :
  forallb plain_event evs = true ->
  (eq = true -> forallb (fun e => negb (is_null_answer e)) evs = true) ->
  plain_page s -> in_step eq s ->
  exists s', run s evs = Some s' /\ in_step eq s'.
Proof.
  revert s. induction evs as [|e evs IH]; intros s He Hn Hp H.
  - exists s. auto.
  - cbn [forallb] in He. apply andb_true_iff in He as [He1 He2].
    destruct (in_step_step eq s e He1) as (s1 & E1 & Hp1 & H1);
      [|exact Hp|exact H|].
    + intros Q. specialize (Hn Q). cbn [forallb] in Hn.
      apply andb_true_iff in Hn as [Hn _]. apply negb_true_iff, Hn.
    + destruct (IH s1 He2) as (s' & E' & H'); [|exact Hp1|exact H1|].
      * intros Q. specialize (Hn Q). cbn [forallb] in Hn.
        apply andb_true_iff in Hn as [_ Hn]. exact Hn.
      * exists s'. cbn [run]. rewrite E1. cbn. auto.
Qed.

(** X17. The chat shows at most one typing indicator for each request
    that has not been answered yet: starting from a chat of plain text
    where that is so, it stays so through every sequence of typing, key
    presses, quick replies, answers and failures that bring plain text.
    There is exactly one for each as long as no answer has the body
    [null]: such an answer takes two indicators away, its own and the
    one of another request. *)
Theorem typing_indicators_within_pending_answers (s : State) (evs : list Event) :
  plain_page s ->
  forallb plain_event evs = true ->
  indicators (chat_messages s) <= in_flight s ->
  exists s',
    run s evs = Some s'
    /\ indicators (chat_messages s') <= in_flight s'
    /\ (indicators (chat_messages s) = in_flight s ->
        forallb (fun e => negb (is_null_answer e)) evs = true ->
        indicators (chat_messages s') = in_flight s').
Proof.
  intros Hp He Hle.
  destruct (in_step_run false evs s He) as (s' & E & Hle' & _);
    [discriminate | exact Hp | split; [exact Hle|discriminate] |].
  exists s'. split; [exact E|]. split; [exact Hle'|].
  intros Heq Hn.
  destruct (in_step_run true evs s He) as (s2 & E2 & _ & Heq2);
    [intros _; exact Hn | exact Hp | split; auto |].
  rewrite E in E2. injection E2 as <-. apply Heq2. reflexivity.
Qed.

(** Two requests, the first answered with the body [null]: no indicator
    is left for the second, which is still to be answered. *)
Example null_answer_takes_two_indicators :
  let evs := [QuickReply (JS.lit "Where is my battery?") (JS.lit "10:01 AM");
              QuickReply (JS.lit "And my refund?") (JS.lit "10:01 AM");
              Settled answered_null (JS.lit "10:02 AM")] in
  (fun s => (indicators (chat_messages s), in_flight s))
    <$> run (mkState [] [] [] 0) evs = Some (0, 1).
Proof. vm_compute. reflexivity. Qed.

Lemma typing_indicators_within_pending_answers_witness :
  let evs := [QuickReply (JS.lit "Where is my battery?") (JS.lit "10:01 AM");
              Type_input (JS.lit "  and my refund  ");
              Keypress (JS.lit "Enter") (JS.lit "10:01 AM");
              Settled failed (JS.lit "10:02 AM");
              Settled (answered (Some (JS.lit "On its way")) None) (JS.lit "10:02 AM")] in
  exists s',
    run (mkState [] [] [] 0) evs = Some s'
    /\ indicators (chat_messages s') <= in_flight s'
    /\ (indicators (chat_messages (mkState [] [] [] 0)) = in_flight (mkState [] [] [] 0) ->
        forallb (fun e => negb (is_null_answer e)) evs = true ->
        indicators (chat_messages s') = in_flight s').
Proof.
  intros evs.
  apply (typing_indicators_within_pending_answers (mkState [] [] [] 0) evs).
  - split; reflexivity.
  - vm_compute. reflexivity.
  - cbn. lia.
Defined.

(** What a step adds to the requests posted and to the customer's
    messages shown. *)
Lemma sent_sendMessage (now : jsstring) (s : State) :
  plain (chat_input s) = true ->
  exists new,
    posted (sendMessage now s) = posted s ++ new
    /\ shown_as_sent (chat_messages (sendMessage now s))
       = shown_as_sent (chat_messages s) ++ (Some <$> new)
    /\ Forall (fun m => m <> [] /\ exists v, m = JS.trim v) new.
Proof.
  intros Hi. unfold sendMessage.
  destruct (JS.truthy (JS.trim (chat_input s))) eqn:E; cbn [negb].
  - exists [JS.trim (chat_input s)]. cbn.
    rewrite <- app_assoc, shown_as_sent_app. cbn.
    unfold shown. rewrite (plain_trim _ Hi).
    split; [reflexivity|]. split; [reflexivity|].
    constructor; [|constructor]. split; [|eauto].
    intros H0. rewrite H0 in E. discriminate.
  - exists []. cbn. rewrite !app_nil_r. auto.
Qed.

Lemma sent_step (s : State) (e : Event) :
  plain_event e = true -> plain_page s ->
  exists s' new,
    step s e = Some s'
    /\ plain_page s'
    /\ posted s' = posted s ++ new
    /\ shown_as_sent (chat_messages s')
       = shown_as_sent (chat_messages s) ++ (Some <$> new)
    /\ Forall (fun m => m <> [] /\ exists v, m = JS.trim v) new.
Proof.
  intros He Hp.
  destruct e as [v|key now|m now|a now]; cbn [step plain_event] in *.
  - eexists. exists []. split; [reflexivity|]. cbn. rewrite !app_nil_r.
    destruct Hp as (Hi & Hm). unfold plain_page. cbn. auto.
  - unfold handleChatKeypress. destruct (bool_decide _).
    + destruct (sent_sendMessage now s (proj1 Hp)) as (new & H).
      eexists. exists new. split; [reflexivity|].
      split; [apply plain_page_sendMessage; assumption | exact H].
    + exists s, []. cbn. rewrite !app_nil_r. auto.
  - apply andb_true_iff in He as [Hm Hnow]. unfold sendQuickReply.
    destruct (sent_sendMessage now
      {| chat_input := m; chat_messages := chat_messages s; posted := posted s;
         in_flight := in_flight s |} Hm) as (new & H).
    eexists. exists new. split; [reflexivity|]. split; [|exact H].
    apply plain_page_sendMessage; [exact Hnow|].
    destruct Hp as (Hi & Hcs). unfold plain_page. cbn. auto.
  - destruct (in_flight s) as [|n].
    + exists s, []. cbn. rewrite !app_nil_r. auto.
    + destruct (settled_effect a now
        {| chat_input := chat_input s; chat_messages := chat_messages s;
           posted := posted s; in_flight := n |} He Hp)
        as (s' & E' & Hp' & _ & S & P & _).
      exists s', []. cbn in S, P. cbn. rewrite S, P, !app_nil_r. auto.
Qed.

(** X18. As long as the chat holds plain text, what it shows as the
    customer's messages is what was posted: over every sequence of
    events that bring plain text, the list of posted texts and the list
    of the texts shown in the customer's messages grow by the same
    texts in the same order, and each of them is the trimmed value of
    the input and not empty. Text with markup is posted as typed and
    handed to [innerHTML] as typed; what is shown of it is up to the
    parser and not said here. *)
Theorem plain_text_is_shown_as_sent (s : State) (evs : list Event) :
  plain_page s ->
  forallb plain_event evs = true ->
  exists s' new,
    run s evs = Some s'
    /\ posted s' = posted s ++ new
    /\ shown_as_sent (chat_messages s')
       = shown_as_sent (chat_messages s) ++ (Some <$> new)
    /\ Forall (fun m => m <> [] /\ exists v, m = JS.trim v) new.
Proof.
  revert s. induction evs as [|e evs IH]; intros s Hp He.
  - exists s, []. cbn. rewrite !app_nil_r. auto.
  - cbn [forallb] in He. apply andb_true_iff in He as [He1 He2].
    destruct (sent_step s e He1 Hp) as (s1 & n1 & E1 & Hp1 & P1 & S1 & F1).
    destruct (IH s1 Hp1 He2) as (s' & n2 & E2 & P2 & S2 & F2).
    exists s', (n1 ++ n2). cbn [run]. rewrite E1. cbn.
    rewrite P2, S2, P1, S1, fmap_app, <- !app_assoc.
    split; [exact E2|]. split; [reflexivity|]. split; [reflexivity|].
    apply Forall_app; auto.
Qed.

Lemma plain_text_is_shown_as_sent_witness :
  let s := mkState [] [] [] 0 in
  let evs := [QuickReply (JS.lit "Where is my battery?") (JS.lit "10:01 AM");
              Type_input (JS.lit "  and my refund  ");
              Keypress (JS.lit "Enter") (JS.lit "10:01 AM");
              Settled answered_null (JS.lit "10:02 AM")] in
  exists s' new,
    run s evs = Some s'
    /\ posted s' = posted s ++ new
    /\ shown_as_sent (chat_messages s')
       = shown_as_sent (chat_messages s) ++ (Some <$> new)
    /\ Forall (fun m => m <> [] /\ exists v, m = JS.trim v) new.
Proof.
  intros s evs. apply (plain_text_is_shown_as_sent s evs).
  - split; reflexivity.
  - vm_compute. reflexivity.
Defined.

End ChatFacts.

(** ** The voice page *)

Lemma finalTranscript_after_concat (rs : list SpeechResult) (acc : jsstring) :
  Voice.finalTranscript_after rs acc
  = acc ++ concat (map transcript (List.filter isFinal rs)).
Proof.
  revert acc. induction rs as [|res rest IH]; intros acc; cbn.
  - rewrite app_nil_r. reflexivity.
  - rewrite IH. destruct (isFinal res); cbn; [rewrite <- app_assoc|]; reflexivity.
Qed.

(** X19. On the voice page one recognition event gives at most one
    [user_message]: the final results of the event, from [resultIndex]
    on, joined and then trimmed. It is sent, and shown as an entry of
    the customer, exactly when the page is in a call and that text is
    not empty; whether the page is muted plays no part. *)
Theorem one_message_per_recognition_event (p : Voice.Page) (ev : SpeechEvent) :
  let text := JS.trim (concat (map transcript
                 (List.filter isFinal (drop (resultIndex ev) (results ev))))) in
  let sent := Voice.isInCall (Voice.core p) && JS.truthy text in
  Voice.emitted (Voice.core (Voice.recognition_onresult ev p))
  = Voice.emitted (Voice.core p) ++ (if sent then [Voice.user_message text] else [])
  /\ Voice.transcript (Voice.recognition_onresult ev p)
     = if sent
       then Voice.remove_placeholder (Voice.transcript p)
              ++ [Voice.entry (JS.lit "customer") text]
       else Voice.transcript p.
Proof.
  cbv zeta. unfold Voice.recognition_onresult.
  rewrite finalTranscript_after_concat. cbn [app].
  set (final := concat _).
  unfold Voice.sendUserMessage.
  destruct (Voice.isInCall (Voice.core p)) eqn:Hc; cbn [andb negb orb].
  - destruct final as [|c final'].
    + change (JS.trim []) with (@nil N). cbn. rewrite app_nil_r. auto.
    + cbn [JS.truthy]. rewrite orb_false_r.
      destruct (JS.truthy (JS.trim (c :: final'))); cbn; [auto|].
      rewrite app_nil_r. auto.
  - rewrite orb_true_r, app_nil_r. destruct (JS.truthy final); auto.
Qed.

Lemma endCall_session_budget (s : Voice.State) :
  Voice.end_calls (Voice.endCall s) + Voice.session_open (Voice.endCall s)
  = Voice.end_calls s + Voice.session_open s.
Proof.
  unfold Voice.end_calls, Voice.session_open, Voice.endCall. cbn.
  destruct (Voice.sessionId s) as [sid|]; cbn; [|lia].
  destruct (JS.truthy sid); cbn; [|lia].
  rewrite List.filter_app, length_app. cbn. lia.
Qed.

Lemma session_budget_ext (s s' : Voice.State) :
  Voice.emitted s' = Voice.emitted s -> Voice.sessionId s' = Voice.sessionId s ->
  Voice.end_calls s' + Voice.session_open s'
  = Voice.end_calls s + Voice.session_open s.
Proof.
  intros He Hs. unfold Voice.end_calls, Voice.session_open. rewrite He, Hs. reflexivity.
Qed.

(** What one event can add to the [end_call] requests sent and the
    session that can still be ended. *)
Lemma step_session_budget (p : Voice.Page) (e : Voice.Event) :
  Voice.end_calls (Voice.core (Voice.step p e))
    + Voice.session_open (Voice.core (Voice.step p e))
  <= Voice.end_calls (Voice.core p) + Voice.session_open (Voice.core p)
     + Voice.sessions_started [e].
Proof.
  destruct e as [| |sid g|t|d|ev|]; cbn [Voice.step].
  - rewrite (session_budget_ext (Voice.core p)) by reflexivity. lia.
  - unfold Voice.on_disconnect. cbn [Voice.core].
    destruct (Voice.isInCall _); rewrite ?endCall_session_budget;
      rewrite (session_budget_ext (Voice.core p)) by reflexivity; lia.
  - unfold Voice.end_calls, Voice.sessions_started, Voice.session_open.
    cbn [Voice.on_call_started Voice.addTranscriptEntry Voice.core
         Voice.emitted Voice.sessionId List.filter JS.truthy_opt length].
    destruct sid as [sid|]; [destruct (JS.truthy sid) eqn:E|];
      destruct (JS.truthy_opt (Voice.sessionId (Voice.core p)));
      cbn [length JS.truthy_opt]; rewrite ?E; lia.
  - rewrite (session_budget_ext (Voice.core p)) by reflexivity. lia.
  - rewrite (session_budget_ext (Voice.core p)) by reflexivity. lia.
  - unfold Voice.recognition_onresult, Voice.sendUserMessage.
    repeat match goal with |- context [if ?b then _ else _] => destruct b end;
      try lia.
    cbn [Voice.core Voice.addTranscriptEntry].
    unfold Voice.end_calls, Voice.session_open.
    cbn [Voice.emit Voice.emitted Voice.sessionId].
    rewrite List.filter_app, length_app. cbn [List.filter length]. lia.
  - cbn [Voice.click_end Voice.core]. rewrite endCall_session_budget. lia.
Qed.

Lemma sessions_started_cons (e : Voice.Event) (evs : list Voice.Event) :
  Voice.sessions_started (e :: evs)
  = Voice.sessions_started [e] + Voice.sessions_started evs.
Proof.
  unfold Voice.sessions_started. cbn.
  destruct e as [| |[sid|] g|t|d|ev|]; cbn; try reflexivity.
  destruct (JS.truthy sid); reflexivity.
Qed.

(** X20. The voice page sends at most one [end_call] for each session:
    over any sequence of socket events, recognition results and clicks
    on End Call, the number of [end_call] requests grows by no more
    than the number of [call_started] events that carry a session id,
    plus one if a session was known at the start. *)
Theorem one_end_call_per_session (p : Voice.Page) (evs : list Voice.Event) :
  Voice.end_calls (Voice.core (Voice.run p evs))
  <= Voice.end_calls (Voice.core p) + Voice.session_open (Voice.core p)
     + Voice.sessions_started evs.
Proof.
  enough (H : Voice.end_calls (Voice.core (Voice.run p evs))
              + Voice.session_open (Voice.core (Voice.run p evs))
              <= Voice.end_calls (Voice.core p) + Voice.session_open (Voice.core p)
                 + Voice.sessions_started evs) by lia.
  revert p. induction evs as [|e evs IH]; intros p; [cbn; lia|].
  cbn [Voice.run foldl]. specialize (IH (Voice.step p e)). unfold Voice.run in IH.
  pose proof (step_session_budget p e). rewrite sessions_started_cons. lia.
Qed.

(** X21. If the customer ends the call before [call_started] has
    arrived, no [end_call] is sent, and the [call_started] that arrives
    afterwards still stores its session id: the page then knows a
    session while it is not in a call and the End Call button is
    hidden. *)
Theorem ending_before_call_started_leaves_session_open
    (p : Voice.Page) (sid : jsstring) (greeting : option jsstring) :
  Voice.sessionId (Voice.core p) = None ->
  let p' := Voice.on_call_started (Some sid) greeting (Voice.click_end p) in
  Voice.emitted (Voice.core p') = Voice.emitted (Voice.core p)
  /\ Voice.sessionId (Voice.core p') = Some sid
  /\ Voice.isInCall (Voice.core p') = false
  /\ Voice.endBtn_hidden (Voice.core p') = true.
Proof.
  intros H. cbn. unfold Voice.endCall. cbn. rewrite H. auto.
Qed.

Lemma ending_before_call_started_leaves_session_open_witness :
  let p := Voice.mkPage
             (Voice.mkState None true false true true true true true false false false
                (JS.lit "in-call", JS.lit "In Call") [Voice.start_call])
             [] true in
  let p' := Voice.on_call_started (Some (JS.lit "s1")) (Some (JS.lit "Hello"))
              (Voice.click_end p) in
  Voice.emitted (Voice.core p') = [Voice.start_call]
  /\ Voice.sessionId (Voice.core p') = Some (JS.lit "s1")
  /\ Voice.isInCall (Voice.core p') = false.
Proof.
  pose proof (ending_before_call_started_leaves_session_open
    (Voice.mkPage
       (Voice.mkState None true false true true true true true false false false
          (JS.lit "in-call", JS.lit "In Call") [Voice.start_call])
       [] true)
    (JS.lit "s1") (Some (JS.lit "Hello")) eq_refl) as H.
  cbv zeta in H. destruct H as (H1 & H2 & H3 & _).
  split; [exact H1|]. split; [exact H2 | exact H3].
Defined.

(** X22. After a disconnect the voice page is not in a call. If it was
    in one, [endCall] runs after the status was set to Disconnected and
    writes over it, so the status line then reads connected and ready
    for a new call; only a page that was not in a call shows
    Disconnected. *)
Theorem disconnect_status (p : Voice.Page) :
  let p' := Voice.on_disconnect p in
  Voice.isInCall (Voice.core p') = false
  /\ Voice.status (Voice.core p')
     = (if Voice.isInCall (Voice.core p)
        then (JS.lit "connected", JS.lit "Call Ended - Ready for new call")
        else (JS.lit "error", JS.lit "Disconnected")).
Proof.
  cbn. destruct (Voice.isInCall (Voice.core p)) eqn:E; cbn; auto.
Qed.
